(* ===== verification/_CoqProject ===== *)
-Q . S2P
Prelude.v
Regex.v
Patterns.v
Extract.v
Classifier.v
BodyText.v
Reply.v
Orchestrator.v
Paths.v
Loop.v
Logging.v
Refinement.v
Main.v
