(* ===== verification/Prelude.v ===== *)
(** * A verification development of the Asterion e-mail auto-responder

    The program ([src/improved_auto_reply.py]) polls an IMAP mailbox,
    decides for each unseen message whether it is automated mail, extracts
    a "business email" address from the body with regular expressions,
    answers it over SMTP with a fixed template and flags the message
    [\Seen] (and [\Answered] after a successful send).  The main loop
    (lines 312-338) calls [auto_reply_if_business] (213-310) every poll
    interval; it calls [fetch_unseen_messages] (112-151), which calls
    [decode_subject] (104-110) and [get_text_from_message] (73-102), and
    for each message [is_auto_generated] (56-71), [extract_business_email]
    (181-211), [str.format] of the template (272-278) and
    [send_email_smtp] (153-179).

    ** Parts of the program and where they are modelled

    - [Prelude] (this file): Python strings as [list ascii] (Latin-1
      code points, see below), the pieces of [str] the program uses
      ([lower], [in], [strip], [splitlines]), shared tactics, the hint
      database [pyre] and generic list lemmas.
    - [Regex]: the fragment of Python's [re] engine the patterns use
      (literals, character sets with ranges and [\s], greedy single
      character repeats, groups, [^], [$], IGNORECASE), as a backtracking
      matcher [mt] over a list of nodes; [search], [match], [group] and
      [sub] (with fuel [length s + 1], enough by [strip_tags_fuel]); an
      inductive semantics [lang] of the same fragment against which the
      matcher is sound and complete and [search] leftmost.
    - [Patterns]: [EMAIL_RE], [BUSINESS_EMAIL_LINE_RE] and the inline
      token pattern (lines 50-54, 199, 206), with the theorems saying what
      the matcher accepts.
    - [Extract]: [extract_business_email]: the labelled phase and the
      line-by-line fallback, every guard and early return.
    - [Classifier]: [is_auto_generated] over headers looked up ignoring
      case; [email.utils.parseaddr] and RFC 2047 decoding are the methods
      of the type class [EmailUtils], so the theorems hold for any
      implementation.
    - [BodyText]: [get_text_from_message] over a MIME tree ([walk] is
      [Message.walk]), returning the [str] or [bytes] Python returns
      ([get_content] types a leaf's data by its main content type), and
      the tag stripping [re.sub(r"<[^>]+>", ...)].
    - [Reply]: the template and configuration constants (lines 18-44),
      [str.format] with keyword arguments, the reply of lines 271-291 and
      [send_email_smtp]: the [EmailMessage] headers of lines 158-164 (a
      header value of several lines raises [ValueError]) and the SMTP
      session abstracted to its outcome.
    - [Orchestrator]: the remote state as a [world] (INBOX, flags as a
      [gmap] of [gset]s, delivered replies) and the servers' answers in
      one cycle as an environment [env] (per message: how the FETCH and
      its parsing go, whether a STORE answers OK, NO or raises, how the
      SMTP session ends); [fetch_unseen_messages], [process_message] (one
      iteration of lines 236-305, an uncaught exception, such as the
      [TypeError] of a [bytes] body at line 189, being [None]),
      [auto_reply_if_business], and the main loop as a step relation
      [step] (a cycle with any server behaviour, or a new message
      arriving); properties of one cycle.  Whether a FETCH of [RFC822] sets [\Seen] is a
      parameter: RFC 3501 says it does, the spec's mailbox abstraction
      says it does not.
    - [Paths]: the exceptional paths of one message, for every message:
      what each uncaught exception, caught STORE failure, test mode and
      late SMTP failure does.
    - [Loop]: invariants of every run of the loop, by induction on
      [rtc step].
    - [Refinement]: the per-message state machine of spec section 4.5 as
      an abstract outcome/flags table, and the theorem that a cycle with
      working servers implements it.
    - [Logging]: the level [logging.basicConfig] gives the root logger
      (lines 27, 46-47): [str.upper], [getattr] on the [logging] module and
      [_checkLevel], whose [ValueError] or [TypeError] stops the import.
    - [Main]: the configuration read at import (lines 18-27: [os.getenv]
      and [int()], whose [ValueError] stops the program, then the logging
      configuration of [Logging]), the credential
      check and the [while True] loop of lines 312-338 with its
      [time.sleep] (CPython 3.11 on Linux: it raises unless the interval is
      non-negative and the deadline monotonic clock + interval fits 64-bit
      nanoseconds), run for a given list of rounds (the servers' behaviour
      in a cycle, the clock at the sleep and the mail arriving during it);
      it refines the relation [step] of [Orchestrator].

    ** Character model

    Python [str] values are sequences of Unicode code points; the model
    restricts them to U+0000..U+00FF, one [ascii] (8-bit) each.  On that
    range every test the program makes agrees with Python: the patterns
    and the keywords compared after [lower()] are ASCII, no Latin-1
    character lowercases to an ASCII one ([str.upper] is modelled on all of
    Latin-1, where the sharp s becomes [SS]), and [\s], [str.isspace] and the
    [splitlines] boundaries are listed code point by code point
    ([py_isspace], [is_line_break]).  Characters above U+00FF are not
    modelled; among them, IGNORECASE matches the long s, the dotless i,
    the dotted capital I and the Kelvin sign against ASCII letters, so a
    capture of [BUSINESS_EMAIL_LINE_RE] can then fail [EMAIL_RE] (no
    IGNORECASE) at line 192, which never happens on Latin-1 text.  The
    theorems about [extract_business_email] are therefore theorems about
    Latin-1 bodies.

    ** Theorems (PROJECT.json numbers them C1..C29)

    - extraction ([Extract], [Patterns]): every returned address has the
      shape of [EMAIL_RE] and occurs in the body; [EMAIL_RE.match] is
      characterised exactly; the labelled phase returns exactly the
      labelled address; the next-line fallback after any lines without a
      mention.
    - classification: the four rules exactly, with Python truthiness.
    - body text: [re.sub] with [<[^>]+>] equals a direct scan and leaves
      no tag.
    - reply: the default template always formats.
    - one message ([Paths]): a single-part non-text body, a multi-line
      subject and an SMTP error other than [SMTPException]/[gaierror] end
      the cycle; an automated message is answered exactly when its STORE
      raises; test mode flags [\Answered] without sending; a failure after
      delivery counts as a failed send; without [\Seen] set by FETCH a
      failed STORE after a send leads to a second reply.
    - loop: reply safety and [\Answered] implies [\Seen] as invariants of
      every run; at most one reply per message under RFC 3501; test mode
      delivers nothing; no message ends Skipped-InvalidAddress; scenario 5
      of the spec; the refinement of spec section 4.5 by a cycle, for
      messages in the table's domain, and the liveness of a cycle; an
      exception while fetching keeps the messages fetched so far; a
      failed flag connection loses the fetched messages for good.
    - start-up and main loop: [LOG_LEVEL] is read case-insensitively, two
      attribute names of [logging] abort the import and every unknown
      value gives INFO; the loop survives its sleeps exactly while each
      deadline fits; the program exits exactly when a credential is
      missing and otherwise refines [step], so the loop's invariants hold
      of it.

    ** Fuel

    [sub] runs [length s + 1] steps and [strip_tags_direct] [length s];
    each step consumes a character, and [sub_go_strip_tags] with
    [strip_tags_go_fuel] show that the result does not change with more
    fuel.  The main loop never ends; [main_loop] runs a given finite list
    of rounds, which is every finite prefix of a run.  [splitlines_from]
    and the matcher recurse structurally.

    ** Not modelled

    The records the logging calls print (output only; the level they are
    filtered by is modelled); [load_dotenv] (it only adds variables to the
    environment [load_settings] reads, and parsing a [.env] file is the
    library's business); RFC 2047 decoding itself (the [EmailUtils] method
    [decode_header_text], whose failure [decode_subject] handles);
    [KeyboardInterrupt] (the operator stopping the process ends the run);
    the wall-clock duration of [time.sleep]; the transports ([imaplib], [smtplib], [ssl]) beyond
    the outcome of each call; MIME parsing itself ([message_from_bytes]);
    ports, hosts and passwords, which only reach the transports; Unicode
    beyond Latin-1; [time.sleep] on other versions or systems than
    CPython 3.11 on Linux.  The unit tests of
    [src/tests/test_extract_business_email.py] are four assertions on
    fixed bodies: evaluated against the model they check the model, not
    a property of the program, and are left out.
*)

From stdpp Require Export base list strings gmap.
From Stdlib Require Export Ascii Lia.
From Stdlib Require String.

Abbreviation text := (list ascii).

Declare Scope pyre_scope.
Delimit Scope pyre_scope with pyre.

(** String literals of the source, as code point lists. *)
Definition lit (s : String.string) : text := String.list_ascii_of_string s.
Arguments lit s%_string_scope.

(** ** Characters *)

Definition in_range (lo hi c : ascii) : bool :=
  (nat_of_ascii lo <=? nat_of_ascii c) && (nat_of_ascii c <=? nat_of_ascii hi).

Definition is_upper (c : ascii) : bool := in_range "A" "Z" c.
Definition is_lower (c : ascii) : bool := in_range "a" "z" c.
Definition is_alpha (c : ascii) : bool := is_upper c || is_lower c.
Definition is_digit (c : ascii) : bool := in_range "0" "9" c.

(** [str.lower] / [str.upper] restricted to the ASCII letters. *)
Definition to_lower (c : ascii) : ascii :=
  if is_upper c then ascii_of_nat (nat_of_ascii c + 32) else c.
Definition to_upper (c : ascii) : ascii :=
  if is_lower c then ascii_of_nat (nat_of_ascii c - 32) else c.

Definition lower (s : text) : text := map to_lower s.

(** [str.isspace] on U+0000..U+00FF, which is also the set [\s] matches
    in a [str] pattern: TAB..CR, FS..US, SPACE, NEL and NO-BREAK SPACE. *)
Definition py_isspace (c : ascii) : bool :=
  let n := nat_of_ascii c in
  ((9 <=? n) && (n <=? 13)) || ((28 <=? n) && (n <=? 32)) || (n =? 133) || (n =? 160).

(** The line boundaries of [str.splitlines] on U+0000..U+00FF:
    LF, VT, FF, CR, FS, GS, RS and NEL ([\r\n] is handled in [splitlines]). *)
Definition is_line_break (c : ascii) : bool :=
  let n := nat_of_ascii c in
  ((10 <=? n) && (n <=? 13)) || ((28 <=? n) && (n <=? 30)) || (n =? 133).

(** ** Strings *)

Fixpoint prefixb (p s : text) : bool :=
  match p, s with
  | [], _ => true
  | a :: p', b :: s' => bool_decide (a = b) && prefixb p' s'
  | _ :: _, [] => false
  end.

(** Python's [needle in hay]. *)
Fixpoint contains (needle hay : text) : bool :=
  prefixb needle hay ||
  match hay with
  | [] => false
  | _ :: hay' => contains needle hay'
  end.

(** [t] occurs in [s] as a contiguous piece. *)
Definition infix_of (t s : text) : Prop := exists p q, s = p ++ t ++ q.

(** [str.strip()] with no argument. *)
Fixpoint lstrip (s : text) : text :=
  match s with
  | c :: s' => if py_isspace c then lstrip s' else s
  | [] => []
  end.
Definition strip (s : text) : text := rev (lstrip (rev (lstrip s))).

(** [str.splitlines()]: [cur] accumulates the current line reversed; a
    [\r] directly followed by [\n] is one boundary; a trailing boundary
    does not open an empty last line. *)
Fixpoint splitlines_from (cur : text) (s : text) : list text :=
  match s with
  | [] => match cur with [] => [] | _ => [rev cur] end
  | c :: s' =>
      if bool_decide (c = "013"%char) then
        match s' with
        | c' :: s'' =>
            if bool_decide (c' = "010"%char) then rev cur :: splitlines_from [] s''
            else rev cur :: splitlines_from [] s'
        | [] => [rev cur]
        end
      else if is_line_break c then rev cur :: splitlines_from [] s'
      else splitlines_from (c :: cur) s'
  end.
Definition splitlines (s : text) : list text := splitlines_from [] s.

(** ** Shared tactics and hints *)

Create HintDb pyre.

(** Decide a closed statement about one character by trying all 256. *)
Ltac by_all_chars :=
  let c := fresh "c" in
  intros c; destruct c as [[] [] [] [] [] [] [] []]; reflexivity.

(** Split [Some]/[None] equations of the hypotheses. *)
Ltac inv_opt :=
  repeat match goal with
  | H : Some _ = Some _ |- _ => injection H as H
  | H : Some _ = None |- _ => discriminate H
  | H : None = Some _ |- _ => discriminate H
  end.

(** ** Generic list lemmas *)

Lemma take_length_le {A} (l : list A) k : k <= length l -> length (take k l) = k.
Proof. intros H. rewrite length_take. lia. Qed.

Lemma take_drop_cons {A} (l : list A) k c s :
  drop k l = c :: s -> l = take k l ++ c :: s.
Proof. intros H. rewrite <- H. by rewrite take_drop. Qed.

#[export] Hint Resolve take_length_le : pyre.

(** ** Contiguous pieces *)

Lemma infix_of_refl s : infix_of s s.
Proof. exists [], []. by rewrite app_nil_r. Qed.

Lemma infix_of_trans a b c : infix_of a b -> infix_of b c -> infix_of a c.
Proof.
  intros (p1 & q1 & ->) (p2 & q2 & ->). exists (p2 ++ p1), (q1 ++ q2).
  by rewrite <- !app_assoc.
Qed.

Lemma infix_of_app_l a p s : infix_of a s -> infix_of a (p ++ s).
Proof. intros (p1 & q1 & ->). exists (p ++ p1), q1. by rewrite <- app_assoc. Qed.

Lemma infix_of_cons a c s : infix_of a s -> infix_of a (c :: s).
Proof. apply (infix_of_app_l a [c]). Qed.

Lemma infix_of_prefix a q : infix_of a (a ++ q).
Proof. by exists [], q. Qed.

#[export] Hint Resolve infix_of_refl infix_of_app_l infix_of_cons infix_of_prefix : pyre.

(** Every line of [splitlines s] is a piece of [s]. *)
Lemma splitlines_from_infix n cur s l :
  length s <= n -> In l (splitlines_from cur s) -> infix_of l (rev cur ++ s).
Proof.
  revert cur s. induction n as [|n IH]; intros cur s Hn Hin.
  { destruct s; [|simpl in Hn; lia]. simpl in Hin. rewrite app_nil_r.
    destruct cur; simpl in Hin; [done|]. destruct Hin as [<-|[]]. apply infix_of_refl. }
  destruct s as [|c s]; simpl in Hin.
  { rewrite app_nil_r. destruct cur; simpl in Hin; [done|]. destruct Hin as [<-|[]].
    apply infix_of_refl. }
  simpl in Hn.
  case_bool_decide.
  - destruct s as [|c' s].
    + destruct Hin as [<-|[]]. auto with pyre.
    + case_bool_decide; destruct Hin as [<-|Hin]; auto with pyre.
      * apply IH in Hin; [|simpl in *; lia]. simpl in Hin.
        apply (infix_of_app_l _ (rev cur ++ [c; c'])) in Hin. by rewrite <- app_assoc in Hin.
      * apply IH in Hin; [|simpl in *; lia]. simpl in Hin.
        apply (infix_of_app_l _ (rev cur ++ [c])) in Hin. by rewrite <- app_assoc in Hin.
  - destruct (is_line_break c); [destruct Hin as [<-|Hin]; auto with pyre|].
    + apply IH in Hin; [|simpl in *; lia]. simpl in Hin.
      apply (infix_of_app_l _ (rev cur ++ [c])) in Hin. by rewrite <- app_assoc in Hin.
    + apply IH in Hin; [|simpl in *; lia]. simpl in Hin. by rewrite <- app_assoc in Hin.
Qed.

Lemma splitlines_infix s l : In l (splitlines s) -> infix_of l s.
Proof. intros H. exact (splitlines_from_infix (length s) [] s l (le_n _) H). Qed.

(** Python's [in] on lists: an occurrence is found. *)
Lemma prefixb_app p q : prefixb p (p ++ q) = true.
Proof. induction p as [|a p IH]; simpl; [done|]. by rewrite IH, bool_decide_eq_true_2. Qed.

Lemma contains_infix n h : infix_of n h -> contains n h = true.
Proof.
  intros (p & q & ->). induction p as [|a p IH]; simpl.
  - destruct n as [|x n]; [by destruct q|]. simpl. by rewrite prefixb_app, bool_decide_eq_true_2.
  - rewrite IH. by destruct (prefixb n _).
Qed.

Lemma lower_app s t : lower (s ++ t) = lower s ++ lower t.
Proof. apply map_app. Qed.

Lemma infix_of_lower t s : infix_of t s -> infix_of (lower t) (lower s).
Proof. intros (p & q & ->). exists (lower p), (lower q). by rewrite !lower_app. Qed.

Lemma infix_of_In (a : ascii) t s : infix_of t s -> In a t -> In a s.
Proof. intros (p & q & ->) H. apply in_or_app. right. apply in_or_app. by left. Qed.

(** Text without line boundaries is carried over to the current line. *)
Lemma splitlines_from_nobreak cur l s :
  Forall (fun c => is_line_break c = false) l ->
  splitlines_from cur (l ++ s) = splitlines_from (rev l ++ cur) s.
Proof.
  intros Hl. revert cur. induction Hl as [|c l Hc _ IH]; intros cur; [done|].
  simpl. rewrite bool_decide_eq_false_2.
  - rewrite Hc, IH. by rewrite <- app_assoc.
  - intros ->. discriminate Hc.
Qed.

Lemma splitlines_one_line l :
  l <> [] -> Forall (fun c => is_line_break c = false) l -> splitlines l = [l].
Proof.
  intros Hne Hl. unfold splitlines. rewrite <- (app_nil_r l), splitlines_from_nobreak by done.
  rewrite app_nil_r. simpl. destruct (rev l) eqn:E.
  - apply (f_equal (@rev _)) in E. rewrite rev_involutive in E. by subst.
  - rewrite <- E, rev_involutive. by rewrite ?app_nil_r.
Qed.

Lemma splitlines_lf l s :
  Forall (fun c => is_line_break c = false) l ->
  splitlines (l ++ "010"%char :: s) = l :: splitlines s.
Proof.
  intros Hl. unfold splitlines. rewrite splitlines_from_nobreak by done.
  simpl. by rewrite app_nil_r, rev_involutive.
Qed.

(** The newline character as a one-character text. *)
Definition nl : text := ["010"%char].

Lemma prefixb_spec p s : prefixb p s = true <-> exists q, s = p ++ q.
Proof.
  revert s. induction p as [|a p IH]; intros s; simpl.
  - split; [eauto|done].
  - destruct s as [|b s]; simpl.
    + split; [done|]. by intros [q ?].
    + rewrite andb_true_iff, bool_decide_eq_true, IH. split.
      * intros [-> [q ->]]. eauto.
      * intros [q Hq]. injection Hq as -> ->. eauto.
Qed.

(** [needle in hay] is [infix_of]. *)
Lemma contains_spec n h : contains n h = true <-> infix_of n h.
Proof.
  split; [|apply contains_infix].
  induction h as [|c h IH]; simpl.
  - rewrite orb_false_r. intros Hp. apply prefixb_spec in Hp as [q Hq].
    exists [], q. done.
  - intros [Hp|Hc]%orb_true_iff.
    + apply prefixb_spec in Hp as [q Hq]. exists [], q. done.
    + by apply infix_of_cons, IH.
Qed.
