(* ===== verification/Regex.v ===== *)
(** * The fragment of Python's [re] engine used by the program

    A pattern is a list of nodes, the shape [sre_compile] gives the
    program's patterns: literals, character sets, greedy repeats of one
    character set ([REPEAT_ONE]: [*], [+], [{m,}]), group marks, [^] and
    [$].  [mt] is the backtracking matcher: a greedy repeat first counts
    the longest run its set allows, then tries the rest of the pattern
    from that count down to its minimum, exactly as [SRE_OP_REPEAT_ONE]
    does.  [search], [match_] and [sub] follow [re.Pattern.search],
    [re.Pattern.match] and [re.Pattern.sub].  The inductive [lang] is the
    language of a node list; [mt_sound] and [mt_complete] relate the
    matcher to it, and [search_leftmost] says what [search] returns. *)

From S2P Require Import Prelude.

Inductive class_item :=
  | CRange (lo hi : ascii)   (** [a-z] *)
  | CChar (c : ascii)        (** a single character, escaped or not *)
  | CSpace.                  (** [\s] *)

Record charset := CharSet { cs_negated : bool; cs_items : list class_item }.

Inductive node :=
  | NLit (c : ascii)
  | NSet (cs : charset)
  | NRep (cs : charset) (min : nat) (max : option nat)
  | NOpen (g : nat)          (** start of group [g] *)
  | NClose (g : nat)         (** end of group [g] *)
  | NBol                     (** [^] without MULTILINE *)
  | NEol.                    (** [$] without MULTILINE *)

Record pattern := Pattern { pat_nodes : list node; pat_icase : bool }.

(** Group marks recorded so far, newest first: key [2g] for the start of
    group [g], [2g+1] for its end. *)
Abbreviation marks := (list (nat * nat)).

Fixpoint mark_get (mk : marks) (k : nat) : option nat :=
  match mk with
  | [] => None
  | (k', p) :: mk' => if k' =? k then Some p else mark_get mk' k
  end.

Definition item_matches (it : class_item) (c : ascii) : bool :=
  match it with
  | CRange lo hi => in_range lo hi c
  | CChar d => bool_decide (c = d)
  | CSpace => py_isspace c
  end.

Definition items_match (its : list class_item) (c : ascii) : bool :=
  existsb (fun it => item_matches it c) its.

(** Set membership; under IGNORECASE a character is in the set when one of
    its case variants is. *)
Definition in_set (ic : bool) (cs : charset) (c : ascii) : bool :=
  xorb (cs_negated cs)
    (items_match (cs_items cs) c
     || (ic && (items_match (cs_items cs) (to_lower c)
                || items_match (cs_items cs) (to_upper c)))).

Definition lit_ok (ic : bool) (l c : ascii) : bool :=
  if ic then bool_decide (to_lower c = to_lower l) else bool_decide (c = l).

(** The number of leading characters of [s] in the set. *)
Fixpoint run_len (ic : bool) (cs : charset) (s : text) : nat :=
  match s with
  | c :: s' => if in_set ic cs c then S (run_len ic cs s') else 0
  | [] => 0
  end.

Definition rep_count (ic : bool) (cs : charset) (max : option nat) (s : text) : nat :=
  match max with
  | Some m => Nat.min m (run_len ic cs s)
  | None => run_len ic cs s
  end.

(** Greedy backtracking over the repeat count: [k], [k-1], ..., [lo]. *)
Fixpoint try_down {A} (f : nat -> option A) (lo k : nat) : option A :=
  if k <? lo then None
  else match f k with
       | Some r => Some r
       | None => match k with 0 => None | S k' => try_down f lo k' end
       end.

Section Matcher.
Context (ic : bool).

Fixpoint mt (ns : list node) (pos : nat) (s : text) (mk : marks)
  : option (nat * marks) :=
  match ns with
  | [] => Some (pos, mk)
  | NLit l :: ns' =>
      match s with
      | c :: s' => if lit_ok ic l c then mt ns' (S pos) s' mk else None
      | [] => None
      end
  | NSet cs :: ns' =>
      match s with
      | c :: s' => if in_set ic cs c then mt ns' (S pos) s' mk else None
      | [] => None
      end
  | NRep cs lo hi :: ns' =>
      try_down (fun k => mt ns' (pos + k) (drop k s) mk) lo (rep_count ic cs hi s)
  | NOpen g :: ns' => mt ns' pos s ((2 * g, pos) :: mk)
  | NClose g :: ns' => mt ns' pos s ((2 * g + 1, pos) :: mk)
  | NBol :: ns' => if pos =? 0 then mt ns' pos s mk else None
  | NEol :: ns' =>
      match s with
      | [] => mt ns' pos s mk
      | [c] => if bool_decide (c = "010"%char) then mt ns' pos s mk else None
      | _ => None
      end
  end.

(** Leftmost match: try every start position [pos .. pos + |s|]. *)
Fixpoint search_from (ns : list node) (pos : nat) (s : text)
  : option (nat * (nat * marks)) :=
  match mt ns pos s [] with
  | Some r => Some (pos, r)
  | None =>
      match s with
      | [] => None
      | _ :: s' => search_from ns (S pos) s'
      end
  end.
End Matcher.

(** A match object: start, end and the group marks. *)
Record match_obj := MatchObj { m_start : nat; m_end : nat; m_marks : marks }.

Definition slice (s : text) (b e : nat) : text := take (e - b) (drop b s).

(** [p.search(s)] *)
Definition search (p : pattern) (s : text) : option match_obj :=
  match search_from (pat_icase p) (pat_nodes p) 0 s with
  | Some (st, (e, mk)) => Some (MatchObj st e mk)
  | None => None
  end.

(** [p.match(s)] *)
Definition match_ (p : pattern) (s : text) : option match_obj :=
  match mt (pat_icase p) (pat_nodes p) 0 s [] with
  | Some (e, mk) => Some (MatchObj 0 e mk)
  | None => None
  end.

(** [m.group(g)] of a match of [p] on [s]. *)
Definition group (s : text) (m : match_obj) (g : nat) : option text :=
  match g with
  | 0 => Some (slice s (m_start m) (m_end m))
  | _ =>
      match mark_get (m_marks m) (2 * g), mark_get (m_marks m) (2 * g + 1) with
      | Some b, Some e => Some (slice s b e)
      | _, _ => None
      end
  end.

(** [p.sub(repl, s)] with a constant replacement.  Scanning left to right,
    a match at the current position is replaced and scanning resumes at
    its end; an empty match is replaced and one character is copied; no
    match copies one character.  [fuel] counts the characters left. *)
Fixpoint sub_go (p : pattern) (repl : text) (fuel pos : nat) (s : text) : text :=
  match fuel with
  | 0 => s
  | S fuel' =>
      match mt (pat_icase p) (pat_nodes p) pos s [] with
      | Some (e, _) =>
          if pos <? e then repl ++ sub_go p repl fuel' e (drop (e - pos) s)
          else repl ++ match s with
                      | [] => []
                      | c :: s' => c :: sub_go p repl fuel' (S pos) s'
                      end
      | None =>
          match s with
          | [] => []
          | c :: s' => c :: sub_go p repl fuel' (S pos) s'
          end
      end
  end.

Definition sub (p : pattern) (repl s : text) : text :=
  sub_go p repl (S (length s)) 0 s.

(** ** Greedy repeat: what [try_down] returns *)

Section TryDown.
Context {A : Type} (f : nat -> option A) (lo : nat).

Lemma try_down_Some n r :
  try_down f lo n = Some r ->
  exists k, lo <= k <= n /\ f k = Some r /\ (forall k', k < k' <= n -> f k' = None).
Proof.
  induction n as [|n IH]; simpl; intros H.
  - destruct (0 <? lo) eqn:E; [discriminate|]. apply Nat.ltb_ge in E.
    destruct (f 0) eqn:F; [|discriminate]. injection H as <-.
    exists 0. split; [lia|]. split; [done|]. intros; lia.
  - destruct (S n <? lo) eqn:E; [discriminate|]. apply Nat.ltb_ge in E.
    destruct (f (S n)) eqn:F.
    + injection H as <-. exists (S n). split; [lia|]. split; [done|]. intros; lia.
    + destruct (IH H) as (k & Hk & Hf & Hmax). exists k.
      split; [lia|]. split; [done|]. intros k' Hk'.
      destruct (decide (k' = S n)) as [->|]; [done|]. apply Hmax; lia.
Qed.

Lemma try_down_largest n k r :
  lo <= k <= n -> f k = Some r -> (forall k', k < k' <= n -> f k' = None) ->
  try_down f lo n = Some r.
Proof.
  induction n as [|n IH]; intros Hk Hf Hmax; simpl.
  - assert (k = 0) as -> by lia.
    replace (0 <? lo) with false by (symmetry; apply Nat.ltb_ge; lia). by rewrite Hf.
  - replace (S n <? lo) with false by (symmetry; apply Nat.ltb_ge; lia).
    destruct (decide (k = S n)) as [->|Hne]; [by rewrite Hf|].
    rewrite (Hmax (S n)) by lia. apply IH; [lia|done|]. intros; apply Hmax; lia.
Qed.

Lemma try_down_complete n k :
  lo <= k <= n -> f k <> None -> try_down f lo n <> None.
Proof.
  induction n as [|n IH]; intros Hk Hf; simpl.
  - assert (k = 0) as -> by lia.
    replace (0 <? lo) with false by (symmetry; apply Nat.ltb_ge; lia).
    by destruct (f 0).
  - replace (S n <? lo) with false by (symmetry; apply Nat.ltb_ge; lia).
    destruct (f (S n)) eqn:F; [done|].
    destruct (decide (k = S n)) as [->|]; [done|]. apply IH; [lia|done].
Qed.
End TryDown.

(** ** Runs of a character set *)

Abbreviation all_in ic cs := (Forall (fun c => in_set ic cs c = true)).

Lemma run_len_le ic cs s : run_len ic cs s <= length s.
Proof. induction s as [|c s IH]; simpl; [lia|]. destruct (in_set ic cs c); simpl; lia. Qed.

Lemma run_len_take ic cs s k : k <= run_len ic cs s -> all_in ic cs (take k s).
Proof.
  revert k. induction s as [|c s IH]; intros k Hk; simpl in *.
  - by rewrite take_nil.
  - destruct k as [|k]; [constructor|]. destruct (in_set ic cs c) eqn:E; [|lia].
    simpl. constructor; [done|]. apply IH; lia.
Qed.

Lemma run_len_app_ge ic cs l s : all_in ic cs l -> length l <= run_len ic cs (l ++ s).
Proof. induction 1 as [|c l Hc _ IH]; simpl; [lia|]. rewrite Hc. lia. Qed.

Lemma run_len_app_stop ic cs l c s :
  all_in ic cs l -> in_set ic cs c = false -> run_len ic cs (l ++ c :: s) = length l.
Proof. induction 1 as [|a l Ha _ IH]; simpl; intros Hc; [by rewrite Hc|]. rewrite Ha, IH; done. Qed.

Lemma run_len_all ic cs l : all_in ic cs l -> run_len ic cs l = length l.
Proof. induction 1 as [|a l Ha _ IH]; simpl; [done|]. by rewrite Ha, IH. Qed.

(** ** One matcher step at a time *)

Section MtSteps.
Context (ic : bool).

Lemma mt_rep_Some cs lo hi ns pos s mk r :
  mt ic (NRep cs lo hi :: ns) pos s mk = Some r ->
  exists k, lo <= k /\ k <= run_len ic cs s /\ all_in ic cs (take k s)
    /\ mt ic ns (pos + k) (drop k s) mk = Some r.
Proof.
  simpl. intros H. apply try_down_Some in H as (k & Hk & Hf & _).
  assert (k <= run_len ic cs s).
  { unfold rep_count in Hk. destruct hi; lia. }
  exists k. split; [lia|]. split; [done|]. split; [by apply run_len_take|done].
Qed.

Lemma mt_lit_Some l ns pos s mk r :
  mt ic (NLit l :: ns) pos s mk = Some r ->
  exists c s', s = c :: s' /\ lit_ok ic l c = true /\ mt ic ns (S pos) s' mk = Some r.
Proof.
  simpl. destruct s as [|c s']; [discriminate|].
  destruct (lit_ok ic l c) eqn:E; [|discriminate]. eauto.
Qed.

Lemma mt_lits_Some l ns pos s mk r :
  mt ic (map NLit l ++ ns) pos s mk = Some r ->
  exists s1 s2, s = s1 ++ s2 /\ Forall2 (fun a c => lit_ok ic a c = true) l s1
    /\ mt ic ns (pos + length l) s2 mk = Some r.
Proof.
  revert pos s. induction l as [|a l IH]; intros pos s H; simpl in *.
  - exists [], s. rewrite Nat.add_0_r. auto.
  - apply mt_lit_Some in H as (c & s' & -> & Hc & H).
    apply IH in H as (s1 & s2 & -> & Hl & H).
    exists (c :: s1), s2. split; [done|]. split; [by constructor|].
    by rewrite <- Nat.add_succ_comm.
Qed.
End MtSteps.

(** ** Leftmost search *)

Section Search.
Context (ic : bool) (ns : list node).

Lemma search_from_Some p s st r :
  search_from ic ns p s = Some (st, r) ->
  exists i, st = p + i /\ i <= length s /\ mt ic ns st (drop i s) [] = Some r
    /\ forall j, j < i -> mt ic ns (p + j) (drop j s) [] = None.
Proof.
  revert p. induction s as [|c s IH]; intros p H; simpl in H.
  - destruct (mt ic ns p [] []) eqn:E; [|discriminate]. injection H as <- <-.
    exists 0. rewrite Nat.add_0_r. repeat split; auto; intros; lia.
  - destruct (mt ic ns p (c :: s) []) eqn:E.
    + injection H as <- <-. exists 0. rewrite Nat.add_0_r. simpl.
      repeat split; auto with arith; intros; lia.
    + apply IH in H as (i & -> & Hi & Hm & Hbefore). exists (S i).
      rewrite Nat.add_succ_r. simpl. repeat split; auto with arith.
      intros [|j] Hj; [by rewrite Nat.add_0_r|].
      rewrite Nat.add_succ_r. apply Hbefore; lia.
Qed.

Lemma search_from_at p s i r :
  i <= length s ->
  (forall j, j < i -> mt ic ns (p + j) (drop j s) [] = None) ->
  mt ic ns (p + i) (drop i s) [] = Some r ->
  search_from ic ns p s = Some (p + i, r).
Proof.
  revert p i. induction s as [|c s IH]; intros p i Hi Hbefore Hm; simpl.
  - simpl in Hi. assert (i = 0) as -> by lia. rewrite Nat.add_0_r in Hm |- *. simpl in Hm. by rewrite Hm.
  - destruct i as [|i].
    + rewrite Nat.add_0_r in Hm |- *. simpl in Hm. by rewrite Hm.
    + pose proof (Hbefore 0 ltac:(lia)) as H0. rewrite Nat.add_0_r in H0. simpl in H0.
      rewrite H0, Nat.add_succ_r, <- Nat.add_succ_l. simpl in Hi.
      apply IH; [lia| |by rewrite Nat.add_succ_l, <- Nat.add_succ_r].
      intros j Hj. rewrite Nat.add_succ_l, <- Nat.add_succ_r. apply (Hbefore (S j)); lia.
Qed.

Lemma search_from_None p s :
  search_from ic ns p s = None ->
  forall i, i <= length s -> mt ic ns (p + i) (drop i s) [] = None.
Proof.
  revert p. induction s as [|c s IH]; intros p H i Hi; simpl in H.
  - destruct (mt ic ns p [] []) eqn:E; [discriminate|].
    simpl in Hi. assert (i = 0) as -> by lia. by rewrite Nat.add_0_r.
  - destruct (mt ic ns p (c :: s) []) eqn:E; [discriminate|].
    destruct i as [|i]; [by rewrite Nat.add_0_r|].
    rewrite Nat.add_succ_r, <- Nat.add_succ_l. apply IH; [done|simpl in Hi; lia].
Qed.
End Search.

(** Group marks written by [NOpen]/[NClose] are read back by [mark_get]. *)
Lemma mark_get_hit k p mk : mark_get ((k, p) :: mk) k = Some p.
Proof. simpl. by rewrite Nat.eqb_refl. Qed.

Lemma mark_get_miss k k' p mk : k' <> k -> mark_get ((k', p) :: mk) k = mark_get mk k.
Proof. intros H. simpl. by apply Nat.eqb_neq in H as ->. Qed.

Lemma slice_app s1 s2 t : slice (s1 ++ t ++ s2) (length s1) (length s1 + length t) = t.
Proof.
  unfold slice. rewrite Nat.add_sub_swap, Nat.sub_diag by lia. simpl.
  rewrite drop_app_length, take_app_length. done.
Qed.

Lemma mt_lit_step ic l c ns pos s mk :
  lit_ok ic l c = true -> mt ic (NLit l :: ns) pos (c :: s) mk = mt ic ns (S pos) s mk.
Proof. simpl. by intros ->. Qed.

Lemma mt_lit_fail ic l ns pos s mk :
  match s with [] => True | c :: _ => lit_ok ic l c = false end ->
  mt ic (NLit l :: ns) pos s mk = None.
Proof. destruct s as [|c s]; simpl; [done|]. by intros ->. Qed.

(** A repeat that succeeds at count [k] and at no larger count. *)
Lemma mt_rep_at ic cs lo hi ns pos s mk k r :
  lo <= k <= rep_count ic cs hi s ->
  mt ic ns (pos + k) (drop k s) mk = Some r ->
  (forall k', k < k' <= rep_count ic cs hi s -> mt ic ns (pos + k') (drop k' s) mk = None) ->
  mt ic (NRep cs lo hi :: ns) pos s mk = Some r.
Proof. intros. simpl. by eapply try_down_largest. Qed.

Lemma mt_rep_complete ic cs lo hi ns pos s mk k :
  lo <= k <= rep_count ic cs hi s ->
  mt ic ns (pos + k) (drop k s) mk <> None ->
  mt ic (NRep cs lo hi :: ns) pos s mk <> None.
Proof. intros. simpl. by eapply try_down_complete. Qed.

Lemma mt_bol0 ic ns s mk : mt ic (NBol :: ns) 0 s mk = mt ic ns 0 s mk.
Proof. reflexivity. Qed.

(** [$] holds at the end of the text or before a final newline. *)
Lemma mt_eol_Some ic ns pos s mk r :
  mt ic (NEol :: ns) pos s mk = Some r ->
  (s = [] \/ s = ["010"%char]) /\ mt ic ns pos s mk = Some r.
Proof.
  destruct s as [|c [|c' s]]; simpl; [auto| |done].
  case_bool_decide; [subst; auto|done].
Qed.

Lemma mt_eol_end ic ns pos s mk :
  (s = [] \/ s = ["010"%char]) -> mt ic (NEol :: ns) pos s mk = mt ic ns pos s mk.
Proof. intros [-> | ->]; reflexivity. Qed.

Lemma mt_open_step ic g ns pos s mk : mt ic (NOpen g :: ns) pos s mk = mt ic ns pos s ((2 * g, pos) :: mk).
Proof. reflexivity. Qed.

Lemma mt_close_end ic g pos s mk : mt ic [NClose g] pos s mk = Some (pos, (2 * g + 1, pos) :: mk).
Proof. reflexivity. Qed.

(** Positions and suffixes move together. *)
Lemma drop_step {A} (body : list A) pos p s' :
  drop pos body = p ++ s' -> drop (pos + length p) body = s'.
Proof. intros H. by rewrite <- drop_drop, H, drop_app_length. Qed.

Lemma drop_step_k {A} (body : list A) pos s k :
  drop pos body = s -> drop (pos + k) body = drop k s.
Proof. intros H. by rewrite <- drop_drop, H. Qed.

(** Walking a pattern over [drop pos body]. *)
Lemma mt_lits_drop ic l ns pos body mk r :
  mt ic (map NLit l ++ ns) pos (drop pos body) mk = Some r ->
  mt ic ns (pos + length l) (drop (pos + length l) body) mk = Some r.
Proof.
  intros H. apply mt_lits_Some in H as (s1 & s2 & Hs & Hl & H).
  apply Forall2_length in Hl. apply drop_step in Hs. rewrite <- Hl in Hs. by rewrite Hs.
Qed.

Lemma mt_rep_drop ic cs lo hi ns pos body mk r :
  mt ic (NRep cs lo hi :: ns) pos (drop pos body) mk = Some r ->
  exists k, mt ic ns (pos + k) (drop (pos + k) body) mk = Some r.
Proof.
  intros H. apply mt_rep_Some in H as (k & _ & _ & _ & H).
  exists k. by rewrite (drop_step_k body pos (drop pos body) k eq_refl).
Qed.

Lemma mt_lits_ok ic l p ns pos s mk :
  Forall2 (fun a c => lit_ok ic a c = true) l p ->
  mt ic (map NLit l ++ ns) pos (p ++ s) mk = mt ic ns (pos + length l) s mk.
Proof.
  intros H. revert pos. induction H as [|a c l p Hac _ IH]; intros pos; simpl.
  - by rewrite Nat.add_0_r.
  - rewrite Hac, IH. by rewrite Nat.add_succ_r.
Qed.

Lemma slice_all s : slice s 0 (length s) = s.
Proof. unfold slice. by rewrite Nat.sub_0_r, drop_0, firstn_all. Qed.

(** ** A declarative semantics of the fragment

    [lang ic ns pos u r]: the nodes [ns], started at position [pos], match
    the text [u], and [r] is what follows [u] in the input ([$] looks at
    it).  A repeat takes any admissible number of characters, so [lang]
    is the language of the pattern, with no preference among matches. *)

Inductive lang (ic : bool) : list node -> nat -> text -> text -> Prop :=
  | lang_nil pos r : lang ic [] pos [] r
  | lang_lit l ns pos c u r :
      lit_ok ic l c = true -> lang ic ns (S pos) u r -> lang ic (NLit l :: ns) pos (c :: u) r
  | lang_set cs ns pos c u r :
      in_set ic cs c = true -> lang ic ns (S pos) u r -> lang ic (NSet cs :: ns) pos (c :: u) r
  | lang_rep cs lo hi ns pos u v r :
      lo <= length u -> (forall m, hi = Some m -> length u <= m) -> all_in ic cs u ->
      lang ic ns (pos + length u) v r -> lang ic (NRep cs lo hi :: ns) pos (u ++ v) r
  | lang_open g ns pos u r : lang ic ns pos u r -> lang ic (NOpen g :: ns) pos u r
  | lang_close g ns pos u r : lang ic ns pos u r -> lang ic (NClose g :: ns) pos u r
  | lang_bol ns u r : lang ic ns 0 u r -> lang ic (NBol :: ns) 0 u r
  | lang_eol ns pos u r :
      (u ++ r = [] \/ u ++ r = ["010"%char]) -> lang ic ns pos u r -> lang ic (NEol :: ns) pos u r.

Section LangMt.
Context (ic : bool).

Lemma rep_count_bound cs hi s k :
  k <= rep_count ic cs hi s -> k <= run_len ic cs s /\ forall m, hi = Some m -> k <= m.
Proof. unfold rep_count. destruct hi as [m|]; intros Hk; [split; [lia|intros ? [= <-]; lia]|done]. Qed.

(** The matcher only returns matches of the pattern. *)
Lemma mt_sound ns pos s mk e mk' :
  mt ic ns pos s mk = Some (e, mk') ->
  exists u r, s = u ++ r /\ e = pos + length u /\ lang ic ns pos u r.
Proof.
  revert pos s mk. induction ns as [|nd ns IH]; intros pos s mk H.
  - simpl in H. injection H as <- _. exists [], s. rewrite Nat.add_0_r. split; [done|].
    split; [done|constructor].
  - destruct nd as [l|cs|cs lo hi|g|g| |]; cbn [mt] in H.
    + destruct s as [|c s]; [done|]. destruct (lit_ok ic l c) eqn:Hl; [|done].
      destruct (IH _ _ _ H) as (u & r & -> & -> & Hu). exists (c :: u), r.
      split; [done|]. split; [simpl; lia|]. by constructor.
    + destruct s as [|c s]; [done|]. destruct (in_set ic cs c) eqn:Hl; [|done].
      destruct (IH _ _ _ H) as (u & r & -> & -> & Hu). exists (c :: u), r.
      split; [done|]. split; [simpl; lia|]. by constructor.
    + apply try_down_Some in H as (k & [Hlo Hk] & Hf & _).
      apply rep_count_bound in Hk as [Hrun Hhi].
      destruct (IH _ _ _ Hf) as (v & r & Hv & -> & Hlang).
      pose proof (run_len_le ic cs s) as Hlen.
      assert (Htk : length (take k s) = k) by (rewrite length_take; lia).
      exists (take k s ++ v), r. split; [by rewrite <- app_assoc, <- Hv, take_drop|].
      split; [rewrite length_app; lia|].
      apply lang_rep; rewrite ?Htk; [lia|done|by apply run_len_take|done].
    + destruct (IH _ _ _ H) as (u & r & -> & -> & Hu). exists u, r. split; [done|]. split; [done|]. by constructor.
    + destruct (IH _ _ _ H) as (u & r & -> & -> & Hu). exists u, r. split; [done|]. split; [done|]. by constructor.
    + destruct (pos =? 0) eqn:Hp; [|done]. apply Nat.eqb_eq in Hp as ->.
      destruct (IH _ _ _ H) as (u & r & -> & -> & Hu). exists u, r. split; [done|]. split; [done|]. by constructor.
    + destruct (IH pos s mk) as (u & r & -> & -> & Hu).
      { destruct s as [|c [|d s]]; [done| |done]. by case_bool_decide. }
      exists u, r. split; [done|]. split; [done|]. constructor; [|done].
      destruct (u ++ r) as [|c [|d s]]; [by left| |done].
      case_bool_decide; [subst; by right|done].
Qed.

(** Every match of the pattern is found: the matcher never fails where the
    pattern matches. *)
Lemma mt_complete ns pos u r mk :
  lang ic ns pos u r -> mt ic ns pos (u ++ r) mk <> None.
Proof.
  intros Hl. revert mk. induction Hl as [pos r|l ns pos c u r Hc _ IH|cs ns pos c u r Hc _ IH
    |cs lo hi ns pos u v r Hlo Hhi Hall _ IH|g ns pos u r _ IH|g ns pos u r _ IH|ns u r _ IH
    |ns pos u r Heol _ IH]; intros mk; cbn [mt app].
  - done.
  - by rewrite Hc.
  - by rewrite Hc.
  - apply (try_down_complete _ _ _ (length u)).
    + split; [done|]. rewrite <- app_assoc. unfold rep_count.
      pose proof (run_len_app_ge ic cs u (v ++ r) Hall).
      destruct hi as [m|]; [specialize (Hhi m eq_refl); lia|done].
    + rewrite <- app_assoc, drop_app_length. apply IH.
  - apply IH.
  - apply IH.
  - apply IH.
  - destruct Heol as [He|He]; rewrite He in IH |- *; [apply IH|].
    rewrite bool_decide_eq_true_2 by done. apply IH.
Qed.
End LangMt.

(** [p.search(s)] is leftmost and sound: when it returns a match, the
    pattern matches the text between [m_start] and [m_end] (with the rest
    of the input after it) and matches at no earlier start; when it returns
    [None], the pattern matches at no start position at all. *)
Theorem search_leftmost p s :
  match search p s with
  | Some m =>
      m_start m <= length s
      /\ (exists u r, drop (m_start m) s = u ++ r /\ m_end m = m_start m + length u
            /\ lang (pat_icase p) (pat_nodes p) (m_start m) u r)
      /\ forall j u r, j < m_start m -> drop j s = u ++ r -> ~ lang (pat_icase p) (pat_nodes p) j u r
  | None => forall j u r, j <= length s -> drop j s = u ++ r -> ~ lang (pat_icase p) (pat_nodes p) j u r
  end.
Proof.
  unfold search. destruct (search_from _ _ 0 s) as [[st [e mk]]|] eqn:E.
  - apply search_from_Some in E as (i & -> & Hi & Hm & Hbefore). simpl.
    split; [done|]. split; [by apply mt_sound in Hm|].
    intros j u r Hj Hd Hl. apply (mt_complete _ _ _ _ _ [] Hl). rewrite <- Hd. by apply Hbefore.
  - intros j u r Hj Hd Hl. apply (mt_complete _ _ _ _ _ [] Hl). rewrite <- Hd.
    by apply (search_from_None _ _ 0 s E j).
Qed.
