(* ===== verification/Patterns.v ===== *)
(** * The program's regular expressions

    [EMAIL_RE] (line 50), [BUSINESS_EMAIL_LINE_RE] (lines 51-54) and the
    inline token pattern searched for on single lines (lines 199 and 206),
    written as the node lists [sre_compile] produces for them.  All three
    share the address token [local@domain.tld]; [token_sound] and
    [token_complete] say exactly which inputs the backtracking matcher
    accepts for it, which gives the abstract shape of an accepted address
    ([email_shape]) and the characterisation of [EMAIL_RE] in
    [email_re_spec]. *)

From S2P Require Import Prelude Regex.

(** [[A-Za-z0-9._%+-]] *)
Definition local_class : charset :=
  CharSet false [CRange "A" "Z"; CRange "a" "z"; CRange "0" "9";
                 CChar "."; CChar "_"; CChar "%"; CChar "+"; CChar "-"].

(** [[A-Za-z0-9.-]] *)
Definition domain_class : charset :=
  CharSet false [CRange "A" "Z"; CRange "a" "z"; CRange "0" "9"; CChar "."; CChar "-"].

(** [[A-Za-z]] *)
Definition alpha_class : charset := CharSet false [CRange "A" "Z"; CRange "a" "z"].

(** [\s] *)
Definition space_class : charset := CharSet false [CSpace].

(** [[:\-\s]] *)
Definition sep_class : charset := CharSet false [CChar ":"; CChar "-"; CSpace].

(** [[A-Za-z0-9._%+-]+@[A-Za-z0-9.-]+\.[A-Za-z]{2,}] *)
Definition token_nodes : list node :=
  [NRep local_class 1 None; NLit "@"; NRep domain_class 1 None; NLit ".";
   NRep alpha_class 2 None].

(** [EMAIL_RE = re.compile(r"^...$")] *)
Definition EMAIL_RE : pattern := Pattern (NBol :: token_nodes ++ [NEol]) false.

Definition lits (s : text) : list node := map NLit s.

(** [BUSINESS_EMAIL_LINE_RE = re.compile(r"business\s*email[:\-\s]*(...)", re.I)] *)
Definition BUSINESS_EMAIL_LINE_RE : pattern :=
  Pattern (lits (lit "business") ++ [NRep space_class 0 None] ++ lits (lit "email")
           ++ [NRep sep_class 0 None; NOpen 1] ++ token_nodes ++ [NClose 1]) true.

(** [r"([A-Za-z0-9._%+-]+@[A-Za-z0-9.-]+\.[A-Za-z]{2,})"], used with
    [re.search] on one line. *)
Definition TOKEN_RE : pattern := Pattern ([NOpen 1] ++ token_nodes ++ [NClose 1]) false.

(** [EMAIL_RE.match(candidate)] is truthy. *)
Definition is_email (s : text) : bool :=
  match match_ EMAIL_RE s with Some _ => true | None => false end.

(** The abstract shape of an address: a non-empty local part, [@], a
    non-empty domain, a dot and a top-level label of two or more letters. *)
Definition email_shape (t : text) : Prop :=
  exists L D T, t = L ++ "@"%char :: D ++ "."%char :: T
    /\ L <> [] /\ all_in false local_class L
    /\ D <> [] /\ all_in false domain_class D
    /\ 2 <= length T /\ all_in false alpha_class T.

(** The text after a token cannot extend its domain. *)
Definition stops_domain (post : text) : Prop :=
  match post with [] => True | c :: _ => in_set false domain_class c = false end.

(** ** Facts about the character classes, by computation *)

Lemma local_icase c : in_set true local_class c = in_set false local_class c.
Proof. revert c. by_all_chars. Qed.
Lemma domain_icase c : in_set true domain_class c = in_set false domain_class c.
Proof. revert c. by_all_chars. Qed.
Lemma alpha_icase c : in_set true alpha_class c = in_set false alpha_class c.
Proof. revert c. by_all_chars. Qed.
Lemma alpha_in_domain c : implb (in_set false alpha_class c) (in_set false domain_class c) = true.
Proof. revert c. by_all_chars. Qed.
Lemma alpha_not_dot c : in_set false alpha_class c && bool_decide (c = "."%char) = false.
Proof. revert c. by_all_chars. Qed.
Lemma local_sep c : in_set false local_class c && in_set true sep_class c = bool_decide (c = "-"%char).
Proof. revert c. by_all_chars. Qed.
Lemma lit_at ic c : lit_ok ic "@" c = bool_decide (c = "@"%char).
Proof. destruct ic; revert c; by_all_chars. Qed.
Lemma lit_dot ic c : lit_ok ic "." c = bool_decide (c = "."%char).
Proof. destruct ic; revert c; by_all_chars. Qed.

Lemma in_set_icase_eq ic cs c :
  (forall c, in_set true cs c = in_set false cs c) -> in_set ic cs c = in_set false cs c.
Proof. destruct ic; auto. Qed.

Lemma run_len_icase_eq ic cs s :
  (forall c, in_set true cs c = in_set false cs c) -> run_len ic cs s = run_len false cs s.
Proof. intros H. induction s as [|c s IH]; simpl; [done|]. by rewrite (in_set_icase_eq ic cs c H), IH. Qed.

Lemma all_in_icase ic cs l :
  (forall c, in_set true cs c = in_set false cs c) -> all_in ic cs l -> all_in false cs l.
Proof. intros H Hl. eapply Forall_impl; [exact Hl|]. intros c Hc. cbn beta in *. by rewrite <- (in_set_icase_eq ic cs c H). Qed.

Lemma dot_not_alpha : in_set false alpha_class "." = false.
Proof. reflexivity. Qed.
Lemma dot_in_domain : in_set false domain_class "." = true.
Proof. reflexivity. Qed.
Lemma at_not_local : in_set false local_class "@" = false.
Proof. reflexivity. Qed.
Lemma at_not_domain : in_set false domain_class "@" = false.
Proof. reflexivity. Qed.

Lemma all_alpha_domain l : all_in false alpha_class l -> all_in false domain_class l.
Proof.
  intros Hl. eapply Forall_impl; [exact Hl|]. intros c Hc.
  pose proof (alpha_in_domain c) as H. rewrite Hc in H. done.
Qed.

(** A run that ends where the text stops being in the set. *)
Lemma run_len_stops ic cs l post :
  all_in ic cs l ->
  match post with [] => True | c :: _ => in_set ic cs c = false end ->
  run_len ic cs (l ++ post) = length l.
Proof.
  intros Hl Hp. destruct post as [|c post].
  - rewrite app_nil_r. by apply run_len_all.
  - by apply run_len_app_stop.
Qed.

#[export] Hint Resolve all_alpha_domain : pyre.

(** ** What the token matches *)

(** Soundness: whatever the matcher accepts for the token is an address
    of the abstract shape, followed by what the rest of the pattern
    accepts. *)
Lemma token_sound ic ns pos s mk r :
  mt ic (token_nodes ++ ns) pos s mk = Some r ->
  exists t s', s = t ++ s' /\ email_shape t /\ mt ic ns (pos + length t) s' mk = Some r.
Proof.
  cbn [token_nodes app]. intros H.
  apply mt_rep_Some in H as (k1 & Hk1 & Hr1 & HL & H).
  apply mt_lit_Some in H as (c1 & s1 & E1 & Hc1 & H).
  rewrite lit_at in Hc1. apply bool_decide_eq_true in Hc1 as ->.
  apply mt_rep_Some in H as (k2 & Hk2 & Hr2 & HD & H).
  apply mt_lit_Some in H as (c2 & s2 & E2 & Hc2 & H).
  rewrite lit_dot in Hc2. apply bool_decide_eq_true in Hc2 as ->.
  apply mt_rep_Some in H as (k3 & Hk3 & Hr3 & HT & H).
  pose proof (run_len_le ic local_class s). pose proof (run_len_le ic domain_class s1).
  pose proof (run_len_le ic alpha_class s2).
  apply take_drop_cons in E1, E2.
  assert (Hl1 : length (take k1 s) = k1) by (apply take_length_le; lia).
  assert (Hl2 : length (take k2 s1) = k2) by (apply take_length_le; lia).
  assert (Hl3 : length (take k3 s2) = k3) by (apply take_length_le; lia).
  set (L := take k1 s) in *. set (D := take k2 s1) in *. set (T := take k3 s2) in *.
  exists (L ++ "@"%char :: D ++ "."%char :: T), (drop k3 s2). split; [|split].
  - rewrite E1 at 1. rewrite E2 at 1. rewrite <- (take_drop k3 s2) at 1.
    rewrite <- app_assoc. simpl. by rewrite <- app_assoc.
  - exists L, D, T. split; [done|].
    split; [intros ->; simpl in Hl1; lia|]. split; [exact (all_in_icase _ _ _ local_icase HL)|].
    split; [intros ->; simpl in Hl2; lia|]. split; [exact (all_in_icase _ _ _ domain_icase HD)|].
    split; [lia|exact (all_in_icase _ _ _ alpha_icase HT)].
  - rewrite length_app. simpl. rewrite length_app. simpl. rewrite Hl1, Hl2, Hl3.
    replace (pos + (k1 + S (k2 + S k3))) with (S (S (pos + k1) + k2) + k3) by lia.
    done.
Qed.

Lemma all_in_of_false ic cs l :
  (forall c, in_set true cs c = in_set false cs c) -> all_in false cs l -> all_in ic cs l.
Proof.
  intros H Hl. eapply Forall_impl; [exact Hl|]. intros c Hc. cbn beta in *.
  by rewrite (in_set_icase_eq ic cs c H).
Qed.

Lemma shape_app L D T post :
  (L ++ "@"%char :: D ++ "."%char :: T) ++ post = L ++ "@"%char :: D ++ "."%char :: (T ++ post).
Proof. rewrite <- app_assoc. simpl. by rewrite <- app_assoc. Qed.

Lemma stops_not_alpha post :
  stops_domain post -> match post with [] => True | c :: _ => in_set false alpha_class c = false end.
Proof.
  destruct post as [|c post]; simpl; [done|]. intros H.
  pose proof (alpha_in_domain c) as Hc. rewrite H in Hc. by destruct (in_set false alpha_class c).
Qed.

(** Inside or right after the top-level label there is no further dot. *)
Lemma dot_fail_in_tld ic ns pos T post mk j :
  all_in false alpha_class T -> stops_domain post -> j <= length T ->
  mt ic (NLit "." :: ns) pos (drop j (T ++ post)) mk = None.
Proof.
  intros HT Hpost Hj. apply mt_lit_fail.
  destruct (decide (j < length T)) as [Hlt|Hge].
  - rewrite drop_app_le by lia.
    destruct (drop j T) as [|c rest] eqn:E.
    { apply (f_equal length) in E. rewrite length_drop in E. simpl in E. lia. }
    simpl. rewrite lit_dot.
    assert (Hc : in_set false alpha_class c = true).
    { apply (Forall_drop _ j) in HT. rewrite E in HT. by inversion HT. }
    pose proof (alpha_not_dot c) as Hd. rewrite Hc in Hd. exact Hd.
  - replace j with (length T) by lia. rewrite drop_app_length.
    destruct post as [|c post]; [done|]. simpl in Hpost |- *. rewrite lit_dot.
    apply bool_decide_eq_false. intros ->. by rewrite dot_in_domain in Hpost.
Qed.

(** Exactness: on an address of the abstract shape that the following
    text cannot extend, the greedy matcher takes exactly the address and
    continues with the rest of the pattern after it. *)
Lemma token_exact ic ns pos t post mk r :
  email_shape t -> stops_domain post ->
  mt ic ns (pos + length t) post mk = Some r ->
  mt ic (token_nodes ++ ns) pos (t ++ post) mk = Some r.
Proof.
  intros (L & D & T & -> & HLne & HL & HDne & HD & HTlen & HT) Hpost H.
  rewrite shape_app. cbn [token_nodes app].
  rewrite !length_app in H. simpl in H. rewrite length_app in H.
  assert (HL' := all_in_of_false ic _ _ local_icase HL).
  assert (HD' := all_in_of_false ic _ _ domain_icase HD).
  assert (HT' := all_in_of_false ic _ _ alpha_icase HT).
  assert (Hrun1 : rep_count ic local_class None (L ++ "@"%char :: D ++ "."%char :: T ++ post)
                  = length L).
  { apply run_len_app_stop; [done|]. by rewrite (in_set_icase_eq ic _ _ local_icase). }
  destruct L as [|l0 L0]; [done|]. destruct D as [|d0 D0]; [done|].
  set (L := l0 :: L0) in *. set (D := d0 :: D0) in *.
  eapply mt_rep_at with (k := length L); [rewrite Hrun1; simpl; lia| |intros; lia].
  rewrite drop_app_length, mt_lit_step by (by rewrite lit_at).
  assert (Hrun2 : rep_count ic domain_class None (D ++ "."%char :: T ++ post)
                  = length D + S (length T)).
  { unfold rep_count. replace (D ++ "."%char :: T ++ post) with ((D ++ "."%char :: T) ++ post)
      by (rewrite <- app_assoc; done).
    rewrite run_len_stops, length_app; [done| |].
    - apply Forall_app. split; [done|]. constructor; [by rewrite (in_set_icase_eq ic _ _ domain_icase)|].
      apply all_in_of_false; [exact domain_icase|]. by apply all_alpha_domain.
    - destruct post as [|c post]; [done|]. simpl in Hpost. by rewrite (in_set_icase_eq ic _ _ domain_icase). }
  eapply mt_rep_at with (k := length D); [rewrite Hrun2; simpl; lia| |].
  - rewrite drop_app_length, mt_lit_step by (by rewrite lit_dot).
    assert (Hrun3 : rep_count ic alpha_class None (T ++ post) = length T).
    { apply run_len_stops; [done|]. apply stops_not_alpha in Hpost.
      destruct post as [|c post]; [done|]. by rewrite (in_set_icase_eq ic _ _ alpha_icase). }
    eapply mt_rep_at with (k := length T); [rewrite Hrun3; lia| |intros; lia].
    rewrite drop_app_length. rewrite <- H. f_equal. simpl. lia.
  - intros k' Hk'. rewrite Hrun2 in Hk'.
    rewrite drop_app_ge by lia.
    replace (k' - length D) with (S (k' - length D - 1)) by lia. cbn [drop].
    apply dot_fail_in_tld; [done|done|lia].
Qed.

(** ** [EMAIL_RE] *)

Lemma newline_stops : stops_domain ["010"%char].
Proof. reflexivity. Qed.

Lemma is_email_iff t :
  is_email t = true <-> email_shape t \/ exists t', t = t' ++ ["010"%char] /\ email_shape t'.
Proof.
  unfold is_email, match_. cbn [pat_nodes pat_icase EMAIL_RE]. rewrite mt_bol0. split.
  - destruct (mt false (token_nodes ++ [NEol]) 0 t []) eqn:E; [|done]. intros _.
    apply token_sound in E as (t0 & s' & -> & Hsh & Heol).
    apply mt_eol_Some in Heol as [[-> | ->] _].
    + left. by rewrite app_nil_r.
    + right. eauto.
  - intros [Hsh | (t' & -> & Hsh)].
    + rewrite <- (app_nil_r t).
      rewrite (token_exact _ _ _ t [] _ (0 + length t, []) Hsh I); [done|].
      by rewrite mt_eol_end by auto.
    + rewrite (token_exact _ _ _ t' _ _ (0 + length t', []) Hsh newline_stops); [done|].
      by rewrite mt_eol_end by auto.
Qed.

Corollary email_shape_is_email t : email_shape t -> is_email t = true.
Proof. intros H. apply is_email_iff. by left. Qed.

(** C7: [EMAIL_RE.match] (line 50) accepts exactly the addresses of the
    abstract shape local@domain.tld (local part of letters, digits and
    [._%+-], domain of letters, digits and [.-], a final label of at least
    two letters), and those followed by one newline, since Python's [$]
    also matches before a final [\n]. *)
Theorem email_re_spec t :
  is_email t = true <-> email_shape t \/ exists t', t = t' ++ ["010"%char] /\ email_shape t'.
Proof. apply is_email_iff. Qed.

(** ** Captured tokens *)

Lemma local_not_space c : implb (in_set false local_class c) (negb (py_isspace c)) = true.
Proof. revert c. by_all_chars. Qed.
Lemma alpha_not_space c : implb (in_set false alpha_class c) (negb (py_isspace c)) = true.
Proof. revert c. by_all_chars. Qed.

Lemma lstrip_nonspace c s : py_isspace c = false -> lstrip (c :: s) = c :: s.
Proof. simpl. by intros ->. Qed.

Lemma class_excludes {cs} (p : ascii -> bool) c :
  (forall c, implb (in_set false cs c) (negb (p c)) = true) ->
  in_set false cs c = true -> p c = false.
Proof. intros H Hc. specialize (H c). rewrite Hc in H. by destruct (p c). Qed.

(** [.strip()] leaves an address unchanged: it starts with a local-part
    character and ends with a letter. *)
Lemma strip_shape t : email_shape t -> strip t = t.
Proof.
  intros (L & D & T & -> & HLne & HL & _ & _ & HTlen & HT).
  destruct L as [|l0 L]; [done|]. inversion HL as [|? ? Hl0 _]; subst.
  unfold strip. simpl app. rewrite lstrip_nonspace by exact (class_excludes py_isspace l0 local_not_space Hl0).
  destruct (exists_last (l:=T)) as (T' & a & ->); [intros ->; simpl in HTlen; lia|].
  apply Forall_app in HT as [_ Ha]. inversion Ha as [|? ? Ha' _]; subst.
  replace (l0 :: L ++ "@"%char :: D ++ "."%char :: T' ++ [a])
    with ((l0 :: L ++ "@"%char :: D ++ "."%char :: T') ++ [a])
    by (simpl; rewrite <- app_assoc; simpl; by rewrite <- app_assoc).
  rewrite rev_unit, lstrip_nonspace by exact (class_excludes py_isspace a alpha_not_space Ha').
  by rewrite <- rev_unit, rev_involutive.
Qed.

(** A match of [(token)] at position [q] of [body] captures an address of
    the abstract shape that occurs in [body]. *)
Lemma token_group ic body q mk r st :
  mt ic (NOpen 1 :: token_nodes ++ [NClose 1]) q (drop q body) mk = Some r ->
  exists t, email_shape t /\ infix_of t body
    /\ group body (MatchObj st (fst r) (snd r)) 1 = Some t.
Proof.
  rewrite mt_open_step. intros H.
  apply token_sound in H as (t & s' & Hq & Hsh & H).
  rewrite mt_close_end in H. injection H as <-.
  exists t. split; [done|]. split.
  - exists (take q body), s'. by rewrite <- Hq, take_drop.
  - cbn. unfold slice. rewrite Nat.add_sub_swap, Nat.sub_diag by lia. simpl.
    rewrite Hq, take_app_length. done.
Qed.

Lemma local_no_break c : implb (in_set false local_class c) (negb (is_line_break c)) = true.
Proof. revert c. by_all_chars. Qed.
Lemma domain_no_break c : implb (in_set false domain_class c) (negb (is_line_break c)) = true.
Proof. revert c. by_all_chars. Qed.

Lemma shape_no_break t : email_shape t -> Forall (fun c => is_line_break c = false) t.
Proof.
  intros (L & D & T & -> & _ & HL & _ & HD & _ & HT).
  assert (HDom : forall l, all_in false domain_class l -> Forall (fun c => is_line_break c = false) l).
  { intros l Hl. eapply Forall_impl; [exact Hl|]. intros c. apply class_excludes, domain_no_break. }
  apply Forall_app. split.
  - eapply Forall_impl; [exact HL|]. intros c. apply class_excludes, local_no_break.
  - constructor; [done|]. apply Forall_app. split; [by apply HDom|].
    constructor; [done|]. by apply HDom, all_alpha_domain.
Qed.

Lemma shape_has_at t : email_shape t -> In "@"%char t.
Proof. intros (L & D & T & -> & _). apply in_or_app. right. by left. Qed.

Lemma shape_nonempty t : email_shape t -> t <> [].
Proof. intros H ->. by apply shape_has_at in H. Qed.

(** A computable test for the abstract shape, used on concrete inputs. *)
Lemma shape_of_is_email t :
  is_email t = true -> last t <> Some "010"%char -> email_shape t.
Proof.
  intros H Hl. apply is_email_iff in H as [H | (t' & -> & _)]; [done|].
  by rewrite last_app in Hl.
Qed.
