(* ===== verification/Extract.v ===== *)
(** * [extract_business_email] (src/improved_auto_reply.py, lines 181-211)

    The labelled phase searches the whole body with
    [BUSINESS_EMAIL_LINE_RE] and keeps the stripped capture if [EMAIL_RE]
    accepts it; the fallback phase walks [body.splitlines()] and, on a line
    that mentions both "business" and "email", takes the first token of
    that line or else of the next line, again if [EMAIL_RE] accepts it. *)

From S2P Require Import Prelude Regex Patterns.

(** Lines 189-191: [m = BUSINESS_EMAIL_LINE_RE.search(body)] and
    [m.group(1).strip()]. *)
Definition labelled_candidate (body : text) : option text :=
  match search BUSINESS_EMAIL_LINE_RE body with
  | Some m => option_map strip (group body m 1)
  | None => None
  end.

(** Lines 199-203 (and 206-210 on the next line): the first token of a
    line, returned only if [EMAIL_RE.match] accepts it. *)
Definition line_candidate (line : text) : option text :=
  match search TOKEN_RE line with
  | Some m =>
      match group line m 1 with
      | Some c => if is_email c then Some c else None
      | None => None
      end
  | None => None
  end.

(** Line 197: ["business" in line.lower() and "email" in line.lower()]. *)
Definition mentions_business_email (line : text) : bool :=
  contains (lit "business") (lower line) && contains (lit "email") (lower line).

(** Lines 196-210: [for i, line in enumerate(lines)]; the guard
    [i + 1 < len(lines)] is the existence of a next line.  [cand] is the
    search-and-validate step of lines 199-203 and 206-210. *)
Fixpoint scan_lines_with (cand : text -> option text) (lines : list text) : option text :=
  match lines with
  | [] => None
  | line :: rest =>
      if mentions_business_email line then
        match cand line with
        | Some c => Some c
        | None =>
            match rest with
            | next :: _ =>
                match cand next with
                | Some c => Some c
                | None => scan_lines_with cand rest
                end
            | [] => scan_lines_with cand rest
            end
        end
      else scan_lines_with cand rest
  end.

Definition scan_lines (lines : list text) : option text := scan_lines_with line_candidate lines.

(** Lines 181-211. *)
Definition extract_business_email (body : text) : option text :=
  match body with
  | [] => None
  | _ =>
      match labelled_candidate body with
      | Some c => if is_email c then Some c else scan_lines (splitlines body)
      | None => scan_lines (splitlines body)
      end
  end.

(** ** Every candidate is an address of the abstract shape in the text *)

Lemma labelled_candidate_shape body c :
  labelled_candidate body = Some c -> email_shape c /\ infix_of c body.
Proof.
  unfold labelled_candidate, search.
  destruct (search_from _ _ 0 body) as [[st [e mk]]|] eqn:E; [|done].
  apply search_from_Some in E as (i & -> & _ & Hm & _).
  cbn [BUSINESS_EMAIL_LINE_RE pat_nodes pat_icase app] in Hm. unfold lits in Hm.
  apply mt_lits_drop in Hm. apply mt_rep_drop in Hm as [k Hm].
  cbn [app] in Hm. apply mt_lits_drop in Hm. apply mt_rep_drop in Hm as [k' Hm].
  apply (token_group _ _ _ _ _ (0 + i)) in Hm as (t & Hsh & Hinf & Hg).
  cbn [fst snd] in Hg. rewrite Hg. simpl. intros [= <-]. rewrite strip_shape; auto.
Qed.

Lemma token_re_capture line m c :
  search TOKEN_RE line = Some m -> group line m 1 = Some c ->
  email_shape c /\ infix_of c line.
Proof.
  unfold search. destruct (search_from _ _ 0 line) as [[st [e mk]]|] eqn:E; [|done].
  intros [= <-]. apply search_from_Some in E as (i & -> & _ & Hm & _).
  cbn [TOKEN_RE pat_nodes pat_icase app] in Hm.
  apply (token_group _ _ _ _ _ (0 + i)) in Hm as (t & Hsh & Hinf & Hg).
  cbn [fst snd] in Hg. rewrite Hg. by intros [= <-].
Qed.

Lemma line_candidate_shape line c :
  line_candidate line = Some c -> email_shape c /\ infix_of c line.
Proof.
  unfold line_candidate. destruct (search TOKEN_RE line) as [m|] eqn:Hs; [|done].
  destruct (group line m 1) as [c'|] eqn:Hg; [|done].
  destruct (is_email c'); [|done]. intros [= <-]. by eapply token_re_capture.
Qed.

Lemma scan_lines_from lines c :
  scan_lines lines = Some c -> exists l, In l lines /\ line_candidate l = Some c.
Proof.
  unfold scan_lines.
  induction lines as [|line rest IH]; simpl; [done|]. intros H.
  destruct (mentions_business_email line).
  - destruct (line_candidate line) eqn:E1; [inv_opt; subst; eauto|].
    destruct rest as [|next rest'].
    + destruct (IH H) as (l & Hin & Hl). eauto.
    + destruct (line_candidate next) eqn:E2; [inv_opt; subst; exists next; simpl; eauto|].
      destruct (IH H) as (l & Hin & Hl). eauto.
  - destruct (IH H) as (l & Hin & Hl). eauto.
Qed.

(** ** Properties of [extract_business_email] *)

Lemma extract_sound body e :
  extract_business_email body = Some e -> email_shape e /\ infix_of e body.
Proof.
  unfold extract_business_email. destruct body as [|ch rest]; [done|].
  set (body := ch :: rest).
  assert (Hscan : scan_lines (splitlines body) = Some e -> email_shape e /\ infix_of e body).
  { intros H. apply scan_lines_from in H as (l & Hin & Hl).
    apply line_candidate_shape in Hl as [Hsh Hinf]. split; [done|].
    eapply infix_of_trans; [exact Hinf|]. by apply splitlines_infix. }
  destruct (labelled_candidate body) as [c|] eqn:Hc; [|done].
  destruct (is_email c); [|done]. intros [= <-]. by apply labelled_candidate_shape.
Qed.

(** C1: a returned address has the shape local@domain.tld (so in
    particular no trailing newline) and occurs in the body. *)
Theorem extract_business_email_sound body e :
  extract_business_email body = Some e -> email_shape e /\ infix_of e body.
Proof. apply extract_sound. Qed.

(** ** The labelled phase on a labelled address *)

Lemma shape_head_local X :
  email_shape X -> exists x X', X = x :: X' /\ in_set false local_class x = true.
Proof.
  intros (L & D & T & -> & HLne & HL & _). destruct L as [|x L]; [done|].
  inversion HL; subst. by exists x, (L ++ "@"%char :: D ++ "."%char :: T).
Qed.

Lemma labelled_match_at q sep X post :
  all_in true sep_class sep -> email_shape X -> hd_error X <> Some "-"%char ->
  stops_domain post ->
  mt true (pat_nodes BUSINESS_EMAIL_LINE_RE) q (lit "Business email" ++ sep ++ X ++ post) []
  = Some (q + 14 + length sep + length X,
          [(3, q + 14 + length sep + length X); (2, q + 14 + length sep)]).
Proof.
  intros Hsep HX Hhd Hpost.
  cbn [BUSINESS_EMAIL_LINE_RE pat_nodes app]. unfold lits.
  change (lit "Business email" ++ sep ++ X ++ post)
    with (lit "Business" ++ " "%char :: lit "email" ++ sep ++ X ++ post).
  rewrite mt_lits_ok by (cbv; repeat constructor).
  assert (Hr1 : rep_count true space_class None (" "%char :: lit "email" ++ sep ++ X ++ post) = 1)
    by reflexivity.
  eapply mt_rep_at with (k := 1); [rewrite Hr1; lia| |rewrite Hr1; lia].
  change (drop 1 (" "%char :: ?l)) with l.
  rewrite mt_lits_ok by (cbv; repeat constructor).
  destruct (shape_head_local X HX) as (x & X' & HXe & Hx).
  assert (Hxs : in_set true sep_class x = false).
  { pose proof (local_sep x) as H. rewrite Hx in H. simpl in H. rewrite H.
    apply bool_decide_eq_false. intros ->. rewrite HXe in Hhd. done. }
  assert (Hrun : rep_count true sep_class None (sep ++ X ++ post) = length sep).
  { rewrite HXe. cbn [app]. by apply run_len_app_stop. }
  eapply mt_rep_at with (k := length sep); [rewrite Hrun; lia| |rewrite Hrun; lia].
  rewrite drop_app_length, mt_open_step.
  erewrite token_exact; [done|done|done|]. rewrite mt_close_end. f_equal. simpl.
  by replace (q + 8 + 1 + 5) with (q + 14) by lia.
Qed.

Lemma lower_of_lits l s :
  Forall2 (fun a c => lit_ok true a c = true) l s -> Forall (fun a => to_lower a = a) l ->
  lower s = l.
Proof.
  induction 1 as [|a c l s Hac _ IH]; intros Hl; [done|].
  inversion Hl as [|? ? Ha Hl']; subst. simpl. unfold lit_ok in Hac.
  apply bool_decide_eq_true in Hac. rewrite Hac, Ha, IH; done.
Qed.

(** "business" has no proper border: an occurrence cannot start inside
    [pre] and run into the capital B of the label. *)
Lemma business_no_border o x :
  1 <= o <= 7 -> lit "business" !! o = Some x -> lit_ok true x "B" = false.
Proof. intros Ho. destruct o as [|[|[|[|[|[|[|[|o]]]]]]]]; try lia; cbv; by intros [= <-]. Qed.

Lemma labelled_no_match_before pre rest j :
  contains (lit "business") (lower pre) = false -> j < length pre ->
  mt true (pat_nodes BUSINESS_EMAIL_LINE_RE) j (drop j (pre ++ lit "Business email" ++ rest)) []
  = None.
Proof.
  intros Hpre Hj. destruct (mt _ _ _ _ _) as [r|] eqn:E; [exfalso|done].
  cbn [BUSINESS_EMAIL_LINE_RE pat_nodes] in E. unfold lits in E.
  apply mt_lits_Some in E as (s1 & s2 & Hs & Hl & _).
  assert (Hlen : length s1 = 8) by (apply Forall2_length in Hl; by rewrite <- Hl).
  rewrite drop_app_le in Hs by lia.
  destruct (decide (j + 8 <= length pre)) as [Hin|Hover].
  - apply (f_equal (take (length s1))) in Hs.
    rewrite take_app_length, take_app_le in Hs by (rewrite length_drop; lia).
    assert (Hinf : infix_of s1 pre).
    { exists (take j pre), (drop (length s1) (drop j pre)).
      rewrite <- Hs at 1. by rewrite !take_drop. }
    apply infix_of_lower, contains_infix in Hinf.
    rewrite (lower_of_lits _ _ Hl) in Hinf by (cbv; repeat constructor).
    by rewrite Hinf in Hpre.
  - set (o := length pre - j).
    assert (Ho : (drop j pre ++ lit "Business email" ++ rest) !! o = Some "B"%char).
    { rewrite lookup_app_r by (rewrite length_drop; lia).
      replace (o - length (drop j pre)) with 0 by (rewrite length_drop; lia). reflexivity. }
    rewrite Hs, lookup_app_l in Ho by lia.
    destruct (Forall2_lookup_r _ _ _ _ _ Hl Ho) as (x & Hx & Hok).
    rewrite (business_no_border o x) in Hok by (done || lia). done.
Qed.

Lemma extract_business_email_nonempty body :
  body <> [] ->
  extract_business_email body =
    match labelled_candidate body with
    | Some c => if is_email c then Some c else scan_lines (splitlines body)
    | None => scan_lines (splitlines body)
    end.
Proof. by destruct body. Qed.

(** C5: on bodies of Latin-1 characters (the character model): a body
    [pre ++ "Business email" ++ sep ++ X ++ post] in which [pre] does not
    contain "business" in any case, [sep] consists of characters of the
    class [[:\-\s]] (line breaks included), [X] is an address of the shape
    local@domain.tld whose first character is not [-] (a leading [-] is
    taken by the separator class), and [post] does not continue the
    address's domain, yields exactly [X]. *)
Theorem extract_labelled_exact pre sep X post :
  contains (lit "business") (lower pre) = false ->
  all_in true sep_class sep -> email_shape X -> hd_error X <> Some "-"%char ->
  stops_domain post ->
  extract_business_email (pre ++ lit "Business email" ++ sep ++ X ++ post) = Some X.
Proof.
  intros Hpre Hsep HX Hhd Hpost.
  set (body := pre ++ lit "Business email" ++ sep ++ X ++ post).
  assert (Hlab : labelled_candidate body = Some X).
  { unfold labelled_candidate, search.
    rewrite (search_from_at _ _ 0 body (length pre)
               (length pre + 14 + length sep + length X,
                [(3, length pre + 14 + length sep + length X); (2, length pre + 14 + length sep)])).
    - cbn -[slice]. f_equal.
      replace body with ((pre ++ lit "Business email" ++ sep) ++ X ++ post)
        by (subst body; by rewrite <- !app_assoc).
      replace (length pre + 14 + length sep + length X)
        with (length (pre ++ lit "Business email" ++ sep) + length X)
        by (rewrite !length_app; simpl; lia).
      replace (length pre + 14 + length sep) with (length (pre ++ lit "Business email" ++ sep))
        by (rewrite !length_app; simpl; lia).
      rewrite (slice_app (pre ++ lit "Business email" ++ sep) post X). by apply strip_shape.
    - subst body. rewrite length_app. lia.
    - intros j Hj. apply labelled_no_match_before; [done|lia].
    - subst body. rewrite drop_app_length. by apply labelled_match_at. }
  rewrite extract_business_email_nonempty.
  - by rewrite Hlab, email_shape_is_email.
  - subst body. destruct pre; discriminate.
Qed.

(** ** The line-by-line fallback *)

(** A line that is exactly an address yields it. *)
Lemma line_candidate_exact X : email_shape X -> line_candidate X = Some X.
Proof.
  intros HX. unfold line_candidate, search.
  rewrite (search_from_at _ _ 0 X 0 (length X, [(3, length X); (2, 0)])).
  - cbn -[is_email slice]. rewrite slice_all. by rewrite email_shape_is_email.
  - lia.
  - intros; lia.
  - cbn [TOKEN_RE pat_nodes pat_icase app]. rewrite mt_open_step, drop_0.
    pose proof (token_exact false [NClose 1] 0 X [] [(2, 0)] (length X, [(3, length X); (2, 0)])
                  HX I) as H.
    rewrite app_nil_r in H. apply H. by rewrite mt_close_end.
Qed.

Lemma line_candidate_no_at line : ~ In "@"%char line -> line_candidate line = None.
Proof.
  intros Hat. destruct (line_candidate line) as [c|] eqn:E; [|done].
  apply line_candidate_shape in E as [Hsh Hinf].
  exfalso. apply Hat. eapply infix_of_In; [exact Hinf|]. by apply shape_has_at.
Qed.

Lemma scan_lines_skip pre rest :
  Forall (fun l => mentions_business_email l = false) pre ->
  scan_lines (pre ++ rest) = scan_lines rest.
Proof.
  unfold scan_lines. induction 1 as [|l pre Hl _ IH]; [done|]. simpl. by rewrite Hl.
Qed.

(** C6: when [BUSINESS_EMAIL_LINE_RE] matches nowhere in the body, the
    fallback of lines 195-210 applies: if the lines of [body.splitlines()]
    are [pre ++ l1 :: X :: post], no line of [pre] mentions both
    "business" and "email", [l1] mentions both but contains no [@], and
    the line [X] is an address of the shape local@domain.tld, the result
    is [X], whatever [post] holds. *)
Theorem extract_next_line body pre l1 X post :
  search BUSINESS_EMAIL_LINE_RE body = None ->
  splitlines body = pre ++ l1 :: X :: post ->
  Forall (fun l => mentions_business_email l = false) pre ->
  mentions_business_email l1 = true -> ~ In "@"%char l1 ->
  email_shape X ->
  extract_business_email body = Some X.
Proof.
  intros Hs Hl Hpre Hm Hat HX.
  rewrite extract_business_email_nonempty by (intros ->; by destruct pre).
  unfold labelled_candidate. rewrite Hs, Hl, scan_lines_skip by done.
  unfold scan_lines. simpl. rewrite Hm, line_candidate_no_at by done.
  by rewrite line_candidate_exact.
Qed.

(** without an [@] in the body there is nothing to extract. *)
Theorem extract_no_at body : ~ In "@"%char body -> extract_business_email body = None.
Proof.
  intros Hat. destruct (extract_business_email body) as [e|] eqn:E; [|done].
  apply extract_sound in E as [Hsh Hinf].
  exfalso. apply Hat. eapply infix_of_In; [exact Hinf|]. by apply shape_has_at.
Qed.

Lemma extract_business_email_sound_witness :
  extract_business_email (lit "Business email: a@b.co") = Some (lit "a@b.co")
  /\ email_shape (lit "a@b.co") /\ infix_of (lit "a@b.co") (lit "Business email: a@b.co").
Proof.
  assert (H : extract_business_email (lit "Business email: a@b.co") = Some (lit "a@b.co"))
    by (vm_compute; reflexivity).
  split; [exact H|]. exact (extract_business_email_sound _ _ H).
Defined.

Lemma extract_no_at_witness :
  ~ In "@"%char (lit "No contact here") /\ extract_business_email (lit "No contact here") = None.
Proof. split; [vm_compute; intuition discriminate|apply extract_no_at; vm_compute; intuition discriminate]. Defined.

Lemma extract_labelled_exact_witness :
  extract_business_email ((lit "Hello" ++ nl) ++ lit "Business email" ++ lit ": "
                          ++ lit "contact@example.com" ++ nl ++ lit "Thanks")
  = Some (lit "contact@example.com").
Proof.
  apply extract_labelled_exact.
  - reflexivity.
  - repeat constructor.
  - apply shape_of_is_email; [reflexivity|discriminate].
  - discriminate.
  - reflexivity.
Defined.

Lemma extract_next_line_witness :
  extract_business_email (lit "Hi" ++ nl ++ lit "Email for business:" ++ nl ++ lit "contact@example.com"
                          ++ nl ++ lit "Thanks")
  = Some (lit "contact@example.com").
Proof.
  apply (extract_next_line _ [lit "Hi"] (lit "Email for business:") (lit "contact@example.com")
           [lit "Thanks"]).
  - vm_compute. reflexivity.
  - vm_compute. reflexivity.
  - repeat constructor.
  - reflexivity.
  - cbv. intuition discriminate.
  - apply shape_of_is_email; [reflexivity|discriminate].
Defined.

Lemma extract_is_email body be : extract_business_email body = Some be -> is_email be = true.
Proof. intros H. apply email_shape_is_email. by apply extract_sound in H as []. Qed.

(** A returned address is never the empty string (line 255's truthiness
    test never skips it). *)
Lemma extract_cons body be : extract_business_email body = Some be -> exists c be', be = c :: be'.
Proof.
  intros H. apply extract_sound in H as [Hsh _]. apply shape_nonempty in Hsh.
  destruct be as [|c be']; [done|eauto].
Qed.
