(* ===== verification/Classifier.v ===== *)
(** * [is_auto_generated] (src/improved_auto_reply.py, lines 56-71)

    A parsed message is modelled by its header list as
    [email.message.Message] keeps it: (name, value) pairs in order, the
    value as [policy.default] fetches it.  [msg.get(name)] finds the first
    header whose name equals [name] ignoring case.  The [email] library
    functions (address parsing, RFC 2047 decoding) are an interface
    ([EmailUtils]): the theorems hold for every implementation of it;
    [simple_utils] is a small instance for examples. *)

From S2P Require Import Prelude.

Record message := Message { msg_headers : list (text * text) }.

#[export] Instance message_eq_dec : EqDecision message.
Proof. solve_decision. Defined.

(** The [email] library functions the program calls:
    [email.utils.parseaddr] (display name, address) and the RFC 2047
    decoding [str(make_header(decode_header(h)))], [None] when it raises. *)
Class EmailUtils := {
  parseaddr : text -> text * text;
  decode_header_text : text -> option text
}.

(** [msg.get(name)] *)
Fixpoint headers_get (hs : list (text * text)) (name : text) : option text :=
  match hs with
  | [] => None
  | (k, v) :: hs' => if bool_decide (lower k = lower name) then Some v else headers_get hs' name
  end.

Definition msg_get (m : message) (name : text) : option text := headers_get (msg_headers m) name.

(** [msg.get(name) or ""] and [msg.get(name, "")] *)
Definition get_or_empty (m : message) (name : text) : text :=
  match msg_get m name with Some v => v | None => [] end.

(** Python truthiness of [msg.get(name)]: present and non-empty. *)
Definition header_truthy (m : message) (name : text) : bool :=
  match msg_get m name with Some (_ :: _) => true | _ => false end.

Definition is_nonempty (s : text) : bool := match s with [] => false | _ => true end.

Section Classifier.
Context `{EmailUtils}.

(** Lines 56-71. *)
Definition is_auto_generated (m : message) : bool :=
  let auto_submitted := lower (get_or_empty m (lit "Auto-Submitted")) in
  if is_nonempty auto_submitted && negb (bool_decide (auto_submitted = lit "no")) then true
  else
  let precedence := lower (get_or_empty m (lit "Precedence")) in
  if bool_decide (precedence ∈ [lit "bulk"; lit "list"; lit "auto_reply"]) then true
  else
  if header_truthy m (lit "List-Id") || header_truthy m (lit "List-Unsubscribe") then true
  else
  let from_addr := (parseaddr (get_or_empty m (lit "From"))).2 in
  if is_nonempty from_addr
     && (contains (lit "mailer-daemon") (lower from_addr)
         || contains (lit "postmaster") (lower from_addr))
  then true
  else false.
End Classifier.

(** A parser for the examples: the part between [<] and [>] if there is
    one, otherwise the whole text. *)
Fixpoint upto_gt (s : text) : text :=
  match s with
  | [] => []
  | c :: s' => if bool_decide (c = ">"%char) then [] else c :: upto_gt s'
  end.

Fixpoint split_angle (s : text) (acc : text) : text * text :=
  match s with
  | [] => ([], rev acc)
  | c :: s' =>
      if bool_decide (c = "<"%char)
      then (rev acc, upto_gt s')
      else split_angle s' (c :: acc)
  end.

#[export] Instance simple_utils : EmailUtils :=
  {| parseaddr s := split_angle s []; decode_header_text s := Some s |}.

(** ** The four rules of spec section 4.1, as propositions *)

Section ClassifierFacts.
Context `{EmailUtils}.

Definition auto_trigger (m : message) : Prop :=
  (exists v, msg_get m (lit "Auto-Submitted") = Some v /\ v <> [] /\ lower v <> lit "no")
  \/ (exists v, msg_get m (lit "Precedence") = Some v
                /\ lower v ∈ [lit "bulk"; lit "list"; lit "auto_reply"])
  \/ (exists name v, name ∈ [lit "List-Id"; lit "List-Unsubscribe"]
                     /\ msg_get m name = Some v /\ v <> [])
  \/ infix_of (lit "mailer-daemon") (lower (parseaddr (get_or_empty m (lit "From"))).2)
  \/ infix_of (lit "postmaster") (lower (parseaddr (get_or_empty m (lit "From"))).2).

Definition rule1 (m : message) : bool :=
  is_nonempty (lower (get_or_empty m (lit "Auto-Submitted")))
    && negb (bool_decide (lower (get_or_empty m (lit "Auto-Submitted")) = lit "no")).
Definition rule2 (m : message) : bool :=
  bool_decide (lower (get_or_empty m (lit "Precedence")) ∈ [lit "bulk"; lit "list"; lit "auto_reply"]).
Definition rule3 (m : message) : bool :=
  header_truthy m (lit "List-Id") || header_truthy m (lit "List-Unsubscribe").
Definition rule4 (m : message) : bool :=
  let a := (parseaddr (get_or_empty m (lit "From"))).2 in
  is_nonempty a && (contains (lit "mailer-daemon") (lower a) || contains (lit "postmaster") (lower a)).

Lemma lower_nil s : lower s = [] <-> s = [].
Proof. destruct s; simpl; split; done. Qed.

Lemma rule_auto_submitted m :
  rule1 m = true <-> exists v, msg_get m (lit "Auto-Submitted") = Some v /\ v <> [] /\ lower v <> lit "no".
Proof.
  unfold rule1, get_or_empty. destruct (msg_get m _) as [v|]; simpl.
  - rewrite andb_true_iff, negb_true_iff, bool_decide_eq_false. split.
    + intros [Hn Hno]. exists v. split; [done|]. split; [|done].
      intros ->. done.
    + intros (v' & [= <-] & Hne & Hno). split; [|done]. by destruct v.
  - split; [done|]. by intros (v & ? & _).
Qed.

Lemma rule_precedence m :
  rule2 m = true <-> exists v, msg_get m (lit "Precedence") = Some v
               /\ lower v ∈ [lit "bulk"; lit "list"; lit "auto_reply"].
Proof.
  unfold rule2. rewrite bool_decide_eq_true. unfold get_or_empty.
  destruct (msg_get m _) as [v|]; simpl.
  - split; [eauto|]. by intros (v' & [= <-] & Hv).
  - split; [|by intros (v & ? & _)]. intros Hin. exfalso.
    repeat (apply elem_of_cons in Hin as [Hin|Hin]; [discriminate|]). by apply elem_of_nil in Hin.
Qed.

Lemma rule_list_headers m :
  rule3 m = true <-> exists name v, name ∈ [lit "List-Id"; lit "List-Unsubscribe"]
                    /\ msg_get m name = Some v /\ v <> [].
Proof.
  assert (Ht : forall n, header_truthy m n = true <-> exists v, msg_get m n = Some v /\ v <> []).
  { intros n. unfold header_truthy. destruct (msg_get m n) as [[|c v]|]; split; try done.
    - by intros (v & [= <-] & ?).
    - intros _. by eexists.
    - by intros (v & ? & _). }
  unfold rule3. rewrite orb_true_iff, !Ht. split.
  - intros [(v & ? & ?)|(v & ? & ?)]; eexists _, v; split; eauto; set_solver.
  - intros (name & v & Hin & Hv & Hne).
    repeat (apply elem_of_cons in Hin as [->|Hin]; [eauto|]). by apply elem_of_nil in Hin.
Qed.

Lemma rule_from m :
  rule4 m = true <->
  infix_of (lit "mailer-daemon") (lower (parseaddr (get_or_empty m (lit "From"))).2)
  \/ infix_of (lit "postmaster") (lower (parseaddr (get_or_empty m (lit "From"))).2).
Proof.
  unfold rule4. set (a := (parseaddr (get_or_empty m (lit "From"))).2). rewrite andb_true_iff, orb_true_iff, !contains_spec. split; [tauto|].
  intros Hin. split; [|done]. destruct a; [|done].
  destruct Hin as [(p & q & Hp)|(p & q & Hp)]; destruct p; discriminate.
Qed.

(** The if-chain of lines 58-71 is the disjunction of the four rules. *)
Lemma is_auto_generated_or m : is_auto_generated m = rule1 m || rule2 m || rule3 m || rule4 m.
Proof.
  unfold is_auto_generated, rule1, rule2, rule3, rule4. cbv zeta.
  repeat match goal with |- context [if ?b then _ else _] => destruct b end; done.
Qed.
End ClassifierFacts.

(** ** Properties of [is_auto_generated] *)

Section ClassifierTheorems.
Context `{EmailUtils}.

(** C8: The classifier answers [true] exactly when one of the four rules of
    spec section 4.1 fires, with Python's truthiness: an empty header
    value counts as absent. *)
Theorem is_auto_generated_spec m : is_auto_generated m = true <-> auto_trigger m.
Proof.
  rewrite is_auto_generated_or, !orb_true_iff, rule_auto_submitted, rule_precedence,
    rule_list_headers, rule_from.
  unfold auto_trigger. tauto.
Qed.

End ClassifierTheorems.
