(* ===== verification/BodyText.v ===== *)
(** * [get_text_from_message] (src/improved_auto_reply.py, lines 73-102)

    A parsed message body is a MIME tree: a multipart node with its parts,
    or a leaf with its content type, the data [part.get_content()] returns
    ([None] when it raises) and the payload decoded with
    [errors="ignore"] ([None] when [get_payload(decode=True)] is empty or
    missing).  [get_content] gives that data the type Python gives it: a
    [str] for a [text/*] part, [bytes] for the main types the content
    manager hands [bytes] ([audio], [image], [video], [application],
    [message] other than [rfc822], which parses as a multipart node), and
    an exception for any other main type.  So [get_text_from_message]
    returns a [str] for a multipart message but, for a single-part message
    that is not text, the [bytes] [get_content()] returns (line 99).  [walk] is [Message.walk()], a depth-first pre-order
    traversal.  The tag stripping of line 94 is [re.sub] with the pattern
    [<[^>]+>] of the [Regex] model; [strip_tags_direct] is the
    one-pass scanner it amounts to ([strip_tags_spec]). *)

From S2P Require Import Prelude Regex.

Inductive mime :=
  | Leaf (ctype : text) (content : option text) (payload : option text)
  | Multi (ctype : text) (parts : list mime).

(** [msg.walk()] *)
Fixpoint walk (m : mime) : list mime :=
  m :: match m with
       | Leaf _ _ _ => []
       | Multi _ ps => flat_map walk ps
       end.

(** The objects lines 73-102 return. *)
Inductive body_value := BodyStr (s : text) | BodyBytes (b : text).

#[export] Instance body_value_eq_dec : EqDecision body_value.
Proof. solve_decision. Defined.

(** [part.get_content_maintype()]: the content type up to its [/]. *)
Fixpoint maintype (ct : text) : text :=
  match ct with
  | [] => []
  | c :: ct' => if bool_decide (c = "/"%char) then [] else c :: maintype ct'
  end.

(** [msg.get_content()] with [email.policy.default]'s content manager:
    [None] when it raises. *)
Definition get_content (m : mime) : option body_value :=
  match m with
  | Leaf ct c _ =>
      if bool_decide (maintype ct = lit "text") then BodyStr <$> c
      else if bool_decide (maintype ct ∈ [lit "audio"; lit "image"; lit "video";
                                          lit "application"; lit "message"])
      then BodyBytes <$> c
      else None
  | Multi _ _ => None
  end.

Definition ctype_of (m : mime) : text :=
  match m with Leaf ct _ _ => ct | Multi ct _ => ct end.

(** Lines 80-84 and 88-92, on a [text/plain] or [text/html] part, whose
    [get_content()] is a [str]: that [str], or on an exception the payload
    decoded with [errors="ignore"], or [""]. *)
Definition part_text (m : mime) : text :=
  match m with
  | Leaf _ (Some c) _ => c
  | Leaf _ None (Some p) => p
  | Leaf _ None None => []
  | Multi _ _ => []
  end.

(** [r"<[^>]+>"] *)
Definition TAG_RE : pattern :=
  Pattern [NLit "<"; NRep (CharSet true [CChar ">"]) 1 None; NLit ">"] false.

(** Line 94: [re.sub(r"<[^>]+>", "", html)] *)
Definition strip_tags (html : text) : text := sub TAG_RE [] html.

Definition has_ctype (t : text) (m : mime) : bool := bool_decide (ctype_of m = t).

(** Lines 73-102. *)
Definition get_text_from_message (msg : mime) : body_value :=
  match msg with
  | Multi _ _ =>
      match find (has_ctype (lit "text/plain")) (walk msg) with
      | Some part => BodyStr (part_text part)
      | None =>
          match find (has_ctype (lit "text/html")) (walk msg) with
          | Some part => BodyStr (strip_tags (part_text part))
          | None => BodyStr []
          end
      end
  | Leaf _ _ p =>
      match get_content msg with
      | Some v => v
      | None => BodyStr (default [] p)
      end
  end.

(** The tag stripping as a direct scan: a [<] followed by at least one
    character other than [>] and then a [>] is dropped up to that [>];
    anything else is kept. *)
Fixpoint upto_close (s : text) : option text :=
  match s with
  | [] => None
  | c :: s' => if bool_decide (c = ">"%char) then Some s' else upto_close s'
  end.

Fixpoint strip_tags_go (fuel : nat) (s : text) : text :=
  match fuel with
  | 0 => s
  | S fuel' =>
      match s with
      | [] => []
      | c :: s' =>
          if bool_decide (c = "<"%char) then
            match s' with
            | d :: s'' =>
                if bool_decide (d = ">"%char) then c :: strip_tags_go fuel' s'
                else match upto_close s'' with
                     | Some rest => strip_tags_go fuel' rest
                     | None => c :: strip_tags_go fuel' s'
                     end
            | [] => [c]
            end
          else c :: strip_tags_go fuel' s'
      end
  end.

Definition strip_tags_direct (s : text) : text := strip_tags_go (length s) s.

(** No tag starts anywhere: every [<] is followed by [>] at once, or by no
    [>] at all. *)
Fixpoint tag_free (t : text) : bool :=
  match t with
  | [] => true
  | c :: t' =>
      (if bool_decide (c = "<"%char) then
         match t' with
         | d :: t'' => bool_decide (d = ">"%char) || bool_decide (upto_close t'' = None)
         | [] => true
         end
       else true) && tag_free t'
  end.

(** ** The matcher on [<[^>]+>] *)

Abbreviation no_gt := (Forall (fun c : ascii => c <> ">"%char)).

Lemma upto_close_app p rest : no_gt p -> upto_close (p ++ ">"%char :: rest) = Some rest.
Proof.
  induction 1 as [|c p Hc _ IH]; simpl; [done|].
  by rewrite bool_decide_eq_false_2.
Qed.

Lemma upto_close_Some s rest :
  upto_close s = Some rest -> exists p, s = p ++ ">"%char :: rest /\ no_gt p.
Proof.
  induction s as [|c s IH]; simpl; [done|]. case_bool_decide; intros Hs.
  - simplify_eq. by exists [].
  - destruct (IH Hs) as (p & -> & Hp). exists (c :: p). auto.
Qed.

Lemma upto_close_None s : upto_close s = None <-> ">"%char ∉ s.
Proof.
  induction s as [|c s IH]; simpl; [set_solver|].
  rewrite elem_of_cons. case_bool_decide; [naive_solver|]. rewrite IH. naive_solver.
Qed.

Lemma in_set_not_gt c : in_set false (CharSet true [CChar ">"]) c = negb (bool_decide (c = ">"%char)).
Proof. unfold in_set. simpl. by destruct (bool_decide _). Qed.

Lemma all_in_not_gt p : all_in false (CharSet true [CChar ">"]) p <-> no_gt p.
Proof.
  split; intros Hp; (eapply Forall_impl; [exact Hp|]); intros c; cbv beta; rewrite in_set_not_gt;
    case_bool_decide; naive_solver.
Qed.

Lemma tag_mt_intro pos d p rest :
  d <> ">"%char -> no_gt p ->
  mt false (pat_nodes TAG_RE) pos ("<"%char :: d :: p ++ ">"%char :: rest) []
  = Some (pos + length p + 3, []).
Proof.
  intros Hd Hp. cbn [pat_nodes TAG_RE mt lit_ok]. rewrite bool_decide_eq_true_2 by done.
  assert (Hall : all_in false (CharSet true [CChar ">"]) (d :: p)) by (apply all_in_not_gt; auto).
  cbn [rep_count]. change (d :: p ++ ">"%char :: rest) with ((d :: p) ++ ">"%char :: rest).
  rewrite (run_len_app_stop _ _ (d :: p) ">" rest Hall) by (by rewrite in_set_not_gt).
  apply (try_down_largest _ _ _ (S (length p))); [simpl; lia| |intros; simpl in *; lia].
  rewrite drop_app_length' by done. cbn. rewrite bool_decide_eq_true_2 by done. do 3 f_equal. lia.
Qed.

Lemma tag_mt_Some pos s r :
  mt false (pat_nodes TAG_RE) pos s [] = Some r ->
  exists d p rest, s = "<"%char :: d :: p ++ ">"%char :: rest /\ d <> ">"%char /\ no_gt p
    /\ r = (pos + length p + 3, []).
Proof.
  intros H. apply mt_lit_Some in H as (c & s' & -> & Hc & H).
  apply bool_decide_eq_true_1 in Hc as ->.
  apply mt_rep_Some in H as (k & Hk & Hrun & Hall & H).
  apply mt_lit_Some in H as (g & s'' & Hdrop & Hg & H).
  apply bool_decide_eq_true_1 in Hg as ->. simpl in H. injection H as <-.
  pose proof (run_len_le false (CharSet true [CChar ">"]) s').
  rewrite <- (take_drop k s'), Hdrop. apply all_in_not_gt in Hall.
  destruct (take k s') as [|d p] eqn:Ht.
  { apply (f_equal length) in Ht. rewrite length_take in Ht. simpl in Ht. lia. }
  apply Forall_cons in Hall as [Hd Hp].
  apply (f_equal length) in Ht. rewrite length_take in Ht. simpl in Ht.
  exists d, p, s''. do 3 (split; [done|]). f_equal. lia.
Qed.

(** ** [re.sub] with [<[^>]+>] is the direct scan *)

Lemma sub_go_strip_tags fuel pos s : sub_go TAG_RE [] fuel pos s = strip_tags_go fuel s.
Proof.
  revert pos s. induction fuel as [|fuel IH]; intros pos s; [done|].
  cbn [sub_go]. destruct (mt _ _ pos s []) as [r|] eqn:E.
  - apply tag_mt_Some in E as (d & p & rest & -> & Hd & Hp & ->).
    rewrite (proj2 (Nat.ltb_lt _ _)) by lia. cbn [app strip_tags_go].
    rewrite bool_decide_eq_true_2, bool_decide_eq_false_2, upto_close_app by done.
    replace (pos + length p + 3 - pos) with (length ("<"%char :: d :: p ++ [">"%char])) by
      (simpl; rewrite length_app; simpl; lia).
    rewrite IH. f_equal. change (p ++ ">"%char :: rest) with (p ++ [">"%char] ++ rest).
    rewrite app_assoc.
    change ("<"%char :: d :: (p ++ [">"%char]) ++ rest)
      with (("<"%char :: d :: p ++ [">"%char]) ++ rest).
    by apply drop_app_length'.
  - destruct s as [|c s']; [done|]. cbn [strip_tags_go]. rewrite IH.
    case_bool_decide; [subst|done].
    destruct s' as [|d s'']; [by destruct fuel|].
    case_bool_decide; [done|].
    destruct (upto_close s'') as [rest|] eqn:Hu; [|done].
    apply upto_close_Some in Hu as (p & -> & Hp).
    change (pat_icase TAG_RE) with false in E. by rewrite (tag_mt_intro pos d p rest) in E.
Qed.

Lemma strip_tags_go_nil fuel : strip_tags_go fuel [] = [].
Proof. by destruct fuel. Qed.

Lemma strip_tags_go_gt fuel s : strip_tags_go (S fuel) (">"%char :: s) = ">"%char :: strip_tags_go fuel s.
Proof. cbn [strip_tags_go]. by rewrite bool_decide_eq_false_2. Qed.

(** The scan needs no more steps than characters: any fuel from [length s]
    on gives the same result. *)
Lemma strip_tags_go_fuel fuel fuel' s :
  length s <= fuel -> fuel <= fuel' -> strip_tags_go fuel s = strip_tags_go fuel' s.
Proof.
  revert fuel' s. induction fuel as [|fuel IH]; intros fuel' s Hs Hf.
  { destruct s; [by rewrite !strip_tags_go_nil|simpl in Hs; lia]. }
  destruct fuel' as [|fuel']; [lia|]. destruct s as [|c s']; [done|].
  simpl in Hs. cbn [strip_tags_go].
  case_bool_decide; [|f_equal; apply IH; lia].
  destruct s' as [|d s'']; [done|]. case_bool_decide; [f_equal; apply IH; simpl in *; lia|].
  destruct (upto_close s'') as [rest|] eqn:Hu; [|f_equal; apply IH; simpl in *; lia].
  apply upto_close_Some in Hu as (p & -> & _). apply IH; [|lia].
  simpl in Hs. rewrite length_app in Hs. simpl in Hs. lia.
Qed.

Lemma strip_tags_go_incl fuel s c : c ∈ strip_tags_go fuel s -> c ∈ s.
Proof.
  revert s. induction fuel as [|fuel IH]; intros s; [done|].
  destruct s as [|a s']; [done|]. cbn [strip_tags_go]. pose proof (IH s') as Hs'.
  case_bool_decide; [|set_solver]. destruct s' as [|d s'']; [set_solver|].
  case_bool_decide; [set_solver|].
  destruct (upto_close s'') as [rest|] eqn:Hu; [|set_solver].
  apply upto_close_Some in Hu as (p & -> & _). pose proof (IH rest). set_solver.
Qed.

Lemma strip_tags_go_tag_free fuel s : length s <= fuel -> tag_free (strip_tags_go fuel s) = true.
Proof.
  revert s. induction fuel as [|fuel IH]; intros s Hs.
  { destruct s; [done|simpl in Hs; lia]. }
  destruct s as [|c s']; [done|]. simpl in Hs. cbn [strip_tags_go].
  case_bool_decide as Hc; [subst|cbn [tag_free]; rewrite bool_decide_eq_false_2 by done; apply IH; lia].
  destruct s' as [|d s'']; [done|]. case_bool_decide as Hd.
  - subst. pose proof (IH (">"%char :: s'') ltac:(simpl in *; lia)) as IH'.
    destruct fuel as [|fuel]; [simpl in Hs; lia|]. rewrite strip_tags_go_gt in *.
    cbn [tag_free] in *. rewrite IH', andb_true_r.
    case_bool_decide; [|done]. by rewrite bool_decide_eq_true_2.
  - destruct (upto_close s'') as [rest|] eqn:Hu.
    + apply upto_close_Some in Hu as (p & -> & _). apply IH. simpl in Hs. rewrite length_app in Hs. simpl in Hs. lia.
    + cbn [tag_free]. rewrite bool_decide_eq_true_2 by done. rewrite IH by lia.
      rewrite andb_true_r. destruct (strip_tags_go fuel (d :: s'')) as [|d' t] eqn:Ht; [done|].
      apply orb_true_iff. right. apply bool_decide_eq_true_2, upto_close_None.
      intros Hg. apply upto_close_None in Hu. apply Hu.
      assert (Hin : ">"%char ∈ d :: s'') by (apply (strip_tags_go_incl fuel); rewrite Ht; set_solver).
      apply elem_of_cons in Hin as [Heq|?]; [congruence|done].
Qed.

Lemma tag_free_search_from pos t : tag_free t = true -> search_from false (pat_nodes TAG_RE) pos t = None.
Proof.
  revert pos. induction t as [|c t IH]; intros pos Ht; [done|].
  cbn [search_from]. destruct (mt _ _ pos (c :: t) []) as [r|] eqn:E.
  - apply tag_mt_Some in E as (d & p & rest & Heq & Hd & Hp & _). injection Heq as -> ->.
    cbn [tag_free] in Ht. rewrite bool_decide_eq_true_2, bool_decide_eq_false_2, upto_close_app in Ht by done.
    done.
  - apply IH. cbn [tag_free] in Ht. by apply andb_prop in Ht as [_ ?].
Qed.

Lemma strip_tags_go_id fuel t : tag_free t = true -> strip_tags_go fuel t = t.
Proof.
  revert t. induction fuel as [|fuel IH]; intros t Ht; [done|].
  destruct t as [|c t']; [done|]. cbn [strip_tags_go]. cbn [tag_free] in Ht.
  apply andb_prop in Ht as [Hc Ht']. rewrite (IH t') by done.
  case_bool_decide; [|done]. destruct t' as [|d t'']; [done|].
  case_bool_decide; [done|]. rewrite orb_false_l in Hc by done.
  apply bool_decide_eq_true_1 in Hc as ->. done.
Qed.

Lemma strip_tags_eq_direct s : strip_tags s = strip_tags_direct s.
Proof.
  unfold strip_tags, sub, strip_tags_direct. rewrite sub_go_strip_tags.
  symmetry. apply strip_tags_go_fuel; lia.
Qed.

(** C16: Line 94, [re.sub(r"<[^>]+>", "", html)], is the one-pass scan
    [strip_tags_direct]: each [<] followed by at least one character
    and then a [>] is removed up to the first such [>]; every other
    character is kept. *)
Theorem strip_tags_spec s : strip_tags s = strip_tags_direct s.
Proof. apply strip_tags_eq_direct. Qed.

(** C17: No tag survives line 94: the pattern [<[^>]+>] has no match in
    the result, which [re.sub] therefore leaves unchanged. *)
Theorem strip_tags_no_tag s :
  search TAG_RE (strip_tags s) = None /\ strip_tags (strip_tags s) = strip_tags s.
Proof.
  assert (Hfree : tag_free (strip_tags s) = true).
  { rewrite strip_tags_eq_direct. apply strip_tags_go_tag_free. lia. }
  split.
  - unfold search. change (pat_icase TAG_RE) with false. by rewrite tag_free_search_from.
  - rewrite (strip_tags_eq_direct (strip_tags s)). by apply strip_tags_go_id.
Qed.

(** The body text is the first [text/plain] part of the walk, even when
    an HTML part comes first; without a plain part it is the first HTML
    part with its tags removed (lines 78-95). *)
Example get_text_from_message_parts :
  get_text_from_message
    (Multi (lit "multipart/alternative")
       [Leaf (lit "text/html") (Some (lit "<p>Business email: <b>a@b.co</b></p>")) None;
        Leaf (lit "text/plain") (Some (lit "plain")) None])
  = BodyStr (lit "plain")
  /\ get_text_from_message
       (Multi (lit "multipart/alternative")
          [Leaf (lit "text/html") (Some (lit "<p>Business email: <b>a@b.co</b></p>")) None])
     = BodyStr (lit "Business email: a@b.co")
  /\ get_text_from_message (Leaf (lit "application/pdf") (Some (lit "%PDF-1.4")) None)
     = BodyBytes (lit "%PDF-1.4").
Proof. repeat split; vm_compute; reflexivity. Qed.
