(* ===== verification/Reply.v ===== *)
(** * The reply: [str.format] of the template and [send_email_smtp]

    [py_format] is [str.format] with keyword arguments only, as line 273
    calls it: [{{] and [}}] are literal braces, [{name}] is replaced by the
    argument [name], and a missing argument, an unmatched brace or a
    field containing [{] raise ([None]).  Field texts are looked up as a
    whole; the model agrees with Python on templates whose fields are plain
    identifiers, which [REPLY_BODY_TEMPLATE] is.  [compose_reply] is
    lines 272-278 of [auto_reply_if_business]; [send_email_smtp] (lines
    153-179) first builds the [EmailMessage] ([build_message]: a header
    value that [splitlines()] cuts in several lines raises [ValueError]),
    then turns the outcome of the SMTP session into its return value or
    into an exception that escapes it ([session_result]). *)

From S2P Require Import Prelude Classifier.

(** ** [str.format] *)

Inductive fstate := FNormal | FOpen | FField (acc : text) | FClose.

Fixpoint assoc_get (kw : list (text * text)) (k : text) : option text :=
  match kw with
  | [] => None
  | (k', v) :: kw' => if bool_decide (k' = k) then Some v else assoc_get kw' k
  end.

Fixpoint fmt_go (kw : list (text * text)) (st : fstate) (s : text) : option text :=
  match st, s with
  | FNormal, [] => Some []
  | FNormal, c :: s' =>
      if bool_decide (c = "{"%char) then fmt_go kw FOpen s'
      else if bool_decide (c = "}"%char) then fmt_go kw FClose s'
      else cons c <$> fmt_go kw FNormal s'
  | FOpen, [] => None
  | FOpen, c :: s' =>
      if bool_decide (c = "{"%char) then cons c <$> fmt_go kw FNormal s'
      else if bool_decide (c = "}"%char) then
        v ← assoc_get kw []; (v ++.) <$> fmt_go kw FNormal s'
      else fmt_go kw (FField [c]) s'
  | FField acc, [] => None
  | FField acc, c :: s' =>
      if bool_decide (c = "}"%char) then
        v ← assoc_get kw (rev acc); (v ++.) <$> fmt_go kw FNormal s'
      else if bool_decide (c = "{"%char) then None
      else fmt_go kw (FField (c :: acc)) s'
  | FClose, [] => None
  | FClose, c :: s' =>
      if bool_decide (c = "}"%char) then cons c <$> fmt_go kw FNormal s' else None
  end.

(** [template.format] with keyword arguments [kw]; [None] when it raises. *)
Definition py_format (template : text) (kw : list (text * text)) : option text :=
  fmt_go kw FNormal template.

(** ** The configuration of lines 18-44 *)

Definition dq : text := ["034"%char].

(** [REPLY_BODY_TEMPLATE] (lines 33-44); the backslash after the opening
    triple quote joins the first line, and the escaped quotes around URGENT
    are plain double quotes ([dq]). *)
Definition REPLY_BODY_TEMPLATE : text :=
  lit "Hello," ++ nl ++ nl
  ++ lit "Thank you for contacting {company_name}. We have received your message and appreciate you reaching out." ++ nl ++ nl
  ++ lit "This is an automated acknowledgement to confirm receipt of your email. A member of our team will review the details and respond to you as soon as possible. If your matter is urgent, please reply with "
  ++ dq ++ lit "URGENT" ++ dq
  ++ lit " in the subject line or contact our support team." ++ nl ++ nl
  ++ lit "Best regards," ++ nl
  ++ lit "{sender_name}" ++ nl
  ++ lit "{company_name}" ++ nl
  ++ lit "Email: {my_address}" ++ nl.

Definition REPLY_SUBJECT_PREFIX : text := lit "Acknowledgement: ".
Definition COMPANY_NAME : text := lit "Asterion Solutions Pvt. Ltd.".
Definition SENDER_NAME : text := lit "Priya Sharma".

Record config := Config {
  cfg_username : text;               (** [USERNAME] *)
  cfg_imap_host_env : option text;   (** [os.getenv("IMAP_HOST")] *)
  cfg_test_mode : bool;              (** [TEST_MODE] *)
  cfg_subject_prefix : text;         (** [reply_subject_prefix] *)
  cfg_body_template : text           (** [reply_body_template] *)
}.

(** Line 25: [os.getenv("TEST_MODE", "false").lower() in ("1", "true", "yes")]. *)
Definition parse_test_mode (v : option text) : bool :=
  let s := lower (match v with Some s => s | None => lit "false" end) in
  bool_decide (s ∈ [lit "1"; lit "true"; lit "yes"]).

(** Line 276: [username or "noreply@" + (os.getenv("IMAP_HOST") or "example.com")]. *)
Definition my_address (cfg : config) : text :=
  match cfg_username cfg with
  | [] => lit "noreply@" ++ match cfg_imap_host_env cfg with
                            | Some ((_ :: _) as h) => h
                            | _ => lit "example.com"
                            end
  | u => u
  end.

(** ** The reply *)

Record outgoing := Outgoing {
  out_subject : text;
  out_from : text;
  out_to : list text;
  out_in_reply_to : option text;
  out_body : text
}.

(** Lines 272-278 and 281-291: the reply to [business_email] for a message
    with decoded subject [subject] and headers [raw]; [None] when the
    template does not format. *)
Definition compose_reply (cfg : config) (raw : message) (subject business_email : text)
  : option outgoing :=
  body ← py_format (cfg_body_template cfg)
           [(lit "company_name", COMPANY_NAME); (lit "sender_name", SENDER_NAME);
            (lit "my_address", my_address cfg)];
  Some (Outgoing (cfg_subject_prefix cfg ++ subject) (cfg_username cfg) [business_email]
          (msg_get raw (lit "Message-ID")) body).

(** ** [send_email_smtp] (lines 153-179) *)

(** [email.policy.EmailPolicy.header_store_parse], which [msg[name] = value]
    calls: a value whose [splitlines()] has more than one element raises
    [ValueError]. *)
Definition header_value_ok (v : text) : bool := length (splitlines v) <=? 1.

(** [sep.join(l)] *)
Fixpoint join (sep : text) (l : list text) : text :=
  match l with
  | [] => []
  | [x] => x
  | x :: l' => x ++ sep ++ join sep l'
  end.

(** Lines 158-164: the headers of the [EmailMessage], in order; [None] when
    one of the assignments raises.  [In-Reply-To] is set only when the
    reference is truthy (line 162). *)
Definition build_message (o : outgoing) : option (list (text * text)) :=
  let to := join (lit ", ") (out_to o) in
  let irt := match out_in_reply_to o with
             | Some ((_ :: _) as v) => [(lit "In-Reply-To", v)]
             | _ => []
             end in
  let hs := [(lit "Subject", out_subject o); (lit "From", out_from o); (lit "To", to)] ++ irt in
  if forallb (fun h => header_value_ok h.2) hs then Some hs else None.

(** A truthy [In-Reply-To] reference is a single line. *)
Definition reference_ok (r : option text) : bool :=
  match r with Some v => header_value_ok v | None => true end.

(** What the SMTP session does: delivers and closes cleanly; fails with
    [SMTPException] or [gaierror] before delivery; fails with one of them
    after delivery (a non-221 answer to QUIT); or fails with another
    exception (e.g. a refused connection), which is not caught. *)
Inductive smtp_outcome := SmtpOk | SmtpFail | SmtpFailAfterDelivery | SmtpCrash.

#[export] Instance smtp_outcome_eq_dec : EqDecision smtp_outcome.
Proof. solve_decision. Defined.

(** The result: whether the message left ([delivered]) and what the call
    does: return [True]/[False] ([Some b]) or raise ([None]). *)
Record send_result := SendResult { delivered : bool; returned : option bool }.

(** Lines 166-179: what the call does once the message is built. *)
Definition session_result (test_mode : bool) (s : smtp_outcome) : send_result :=
  if test_mode then SendResult false (Some true)
  else match s with
       | SmtpOk => SendResult true (Some true)
       | SmtpFail => SendResult false (Some false)
       | SmtpFailAfterDelivery => SendResult true (Some false)
       | SmtpCrash => SendResult false None
       end.

(** Lines 153-179: the message is built before [TEST_MODE] is looked at and
    outside the [try], so a refused header raises in test mode too. *)
Definition send_email_smtp (test_mode : bool) (o : outgoing) (s : smtp_outcome) : send_result :=
  match build_message o with
  | None => SendResult false None
  | Some _ => session_result test_mode s
  end.

(** ** The template always formats *)

(** A replacement field [{name}]. *)
Definition field (name : text) : text := "{"%char :: name ++ ["}"%char].

Definition body_head : text :=
  lit "Hello," ++ nl ++ nl ++ lit "Thank you for contacting ".

Definition body_mid : text :=
  lit ". We have received your message and appreciate you reaching out." ++ nl ++ nl
  ++ lit "This is an automated acknowledgement to confirm receipt of your email. A member of our team will review the details and respond to you as soon as possible. If your matter is urgent, please reply with "
  ++ dq ++ lit "URGENT" ++ dq
  ++ lit " in the subject line or contact our support team." ++ nl ++ nl
  ++ lit "Best regards," ++ nl.

(** The body of lines 273-277 for the keyword values [c], [s] and [a]. *)
Definition reply_body (c s a : text) : text :=
  body_head ++ c ++ body_mid ++ s ++ nl ++ c ++ nl ++ lit "Email: " ++ a ++ nl.

(** Side conditions on closed texts, decided by evaluation. *)
Ltac closed_fact :=
  first [ apply (bool_decide_unpack _); vm_compute; reflexivity
        | vm_compute; reflexivity | vm_compute; discriminate ].

Abbreviation no_brace := (Forall (fun c : ascii => c <> "{"%char /\ c <> "}"%char)).

Lemma fmt_go_plain kw l rest :
  no_brace l -> fmt_go kw FNormal (l ++ rest) = (l ++.) <$> fmt_go kw FNormal rest.
Proof.
  induction 1 as [|c l [Ho Hc] _ IH]; simpl.
  - by destruct (fmt_go kw FNormal rest).
  - rewrite !bool_decide_eq_false_2 by done. rewrite IH.
    by destruct (fmt_go kw FNormal rest).
Qed.

Lemma fmt_go_field_acc kw acc name v rest :
  no_brace name -> assoc_get kw (rev acc ++ name) = Some v ->
  fmt_go kw (FField acc) (name ++ "}"%char :: rest) = (v ++.) <$> fmt_go kw FNormal rest.
Proof.
  intros Hn. revert acc. induction Hn as [|c name [Ho Hc] _ IH]; intros acc Hv; simpl.
  - rewrite app_nil_r in Hv. by rewrite Hv.
  - rewrite !bool_decide_eq_false_2 by done. apply IH. simpl. by rewrite <- app_assoc.
Qed.

Lemma fmt_go_field kw name v rest :
  name <> [] -> no_brace name -> assoc_get kw name = Some v ->
  fmt_go kw FNormal (field name ++ rest) = (v ++.) <$> fmt_go kw FNormal rest.
Proof.
  intros Hne Hn Hv. destruct name as [|c name]; [done|].
  inversion Hn as [|? ? [Ho Hc] Hn']; subst. unfold field. simpl.
  rewrite !bool_decide_eq_false_2 by done.
  rewrite <- app_assoc. by apply (fmt_go_field_acc kw [c]).
Qed.

Lemma template_split :
  REPLY_BODY_TEMPLATE =
  body_head ++ field (lit "company_name") ++ body_mid ++ field (lit "sender_name") ++ nl
  ++ field (lit "company_name") ++ nl ++ lit "Email: " ++ field (lit "my_address") ++ nl.
Proof. vm_compute. reflexivity. Qed.

(** [REPLY_BODY_TEMPLATE] formats for all values of its three fields. *)
Lemma reply_template_formats c s a :
  py_format REPLY_BODY_TEMPLATE
    [(lit "company_name", c); (lit "sender_name", s); (lit "my_address", a)]
  = Some (reply_body c s a).
Proof.
  unfold py_format. rewrite template_split.
  repeat first
    [ rewrite fmt_go_plain by closed_fact
    | erewrite fmt_go_field; [|closed_fact|closed_fact|vm_compute; reflexivity] ].
  rewrite <- (app_nil_r nl). rewrite fmt_go_plain by closed_fact.
  reflexivity.
Qed.

(** C18: With the default template, building the reply (lines 272-291)
    never raises: the reply goes from [USERNAME] to the extracted address
    alone, its subject is the prefix and the decoded subject, it answers
    the original [Message-ID], and its body is the template with the
    company, the sender and the account's address filled in. *)
Theorem compose_reply_default cfg raw subject be :
  cfg_body_template cfg = REPLY_BODY_TEMPLATE ->
  compose_reply cfg raw subject be
  = Some (Outgoing (cfg_subject_prefix cfg ++ subject) (cfg_username cfg) [be]
            (msg_get raw (lit "Message-ID"))
            (reply_body COMPANY_NAME SENDER_NAME (my_address cfg))).
Proof. intros Ht. unfold compose_reply. by rewrite Ht, reply_template_formats. Qed.

Lemma compose_reply_default_witness :
  compose_reply (Config [] (Some (lit "imap.asterion.example")) false REPLY_SUBJECT_PREFIX REPLY_BODY_TEMPLATE)
    (Message [(lit "message-id", lit "<7@x.example>")]) (lit "Hi") (lit "a@b.co")
  = Some (Outgoing (REPLY_SUBJECT_PREFIX ++ lit "Hi") [] [lit "a@b.co"] (Some (lit "<7@x.example>"))
            (reply_body COMPANY_NAME SENDER_NAME (lit "noreply@imap.asterion.example"))).
Proof. rewrite compose_reply_default by reflexivity. vm_compute. reflexivity. Defined.

(** Line 25: [TEST_MODE] is on for [1], [true] and [yes] in any case,
    off when unset, and off for any other spelling (no stripping). *)
Example parse_test_mode_values :
  parse_test_mode (Some (lit "1")) = true /\ parse_test_mode (Some (lit "TRUE")) = true
  /\ parse_test_mode (Some (lit "Yes")) = true /\ parse_test_mode None = false
  /\ parse_test_mode (Some (lit "on")) = false /\ parse_test_mode (Some (lit " true")) = false.
Proof. vm_compute. repeat split. Qed.

Lemma send_email_smtp_built t o s :
  build_message o <> None -> send_email_smtp t o s = session_result t s.
Proof. unfold send_email_smtp. by destruct (build_message o). Qed.

(** A subject of several lines is refused before anything is sent, in
    test mode too. *)
Lemma send_email_smtp_subject t o s :
  header_value_ok (out_subject o) = false -> send_email_smtp t o s = SendResult false None.
Proof. intros Hs. unfold send_email_smtp, build_message. cbn [forallb snd app]. by rewrite Hs. Qed.

Lemma build_message_ok s u be r b :
  header_value_ok s = true -> header_value_ok u = true -> header_value_ok be = true ->
  reference_ok r = true -> build_message (Outgoing s u [be] r b) <> None.
Proof.
  intros Hs Hu Hbe Hr. unfold build_message. cbn [out_subject out_from out_to out_in_reply_to join].
  destruct r as [[|c v]|]; simpl in *; rewrite ?Hs, ?Hu, ?Hbe, ?Hr; done.
Qed.

Lemma build_message_Some o hs :
  build_message o = Some hs ->
  In (lit "To", join (lit ", ") (out_to o)) hs /\ Forall (fun h => header_value_ok h.2 = true) hs.
Proof.
  unfold build_message. case_match eqn:E; intros; simplify_eq. split.
  - apply in_or_app. left. right. right. by left.
  - apply Forall_forall. intros h Hh. rewrite forallb_forall in E. by apply E, list_elem_of_In.
Qed.
