(* ===== verification/Orchestrator.v ===== *)
(** * The polling cycle: [fetch_unseen_messages] and [auto_reply_if_business]

    The remote side is an explicit [world]: the INBOX of the IMAP server
    (messages by sequence number, and their flags) and the mail the SMTP
    server has delivered, each delivered reply tagged with the number of
    the message it answers.  What the servers answer in one cycle is an
    environment [env]: whether the connections open, whether the search
    answers OK, how each FETCH, STORE and SMTP session goes.  Whether a
    FETCH of [RFC822] sets [\Seen] is the parameter [fetch_sets_seen]:
    RFC 3501 (section 6.4.5) says it does; the spec's abstraction of the
    mailbox service (spec section 1) has [fetch] leave flags alone.

    [fetch_unseen_messages] (lines 112-151) returns the parsed messages
    and the mailbox after the fetches; [process_message] is one iteration
    of the loop of lines 236-305, which ends normally with the state the
    spec calls Skipped-Automated, ..., Sent or SendFailed (section 4.5),
    or with an exception that escapes [auto_reply_if_business] (a STORE
    that raises in a skip branch, a [bytes] body at line 189, a template
    that does not format, a header of several lines, an SMTP error other
    than [SMTPException]/[gaierror]); [auto_reply_if_business]
    (lines 213-310) runs the loop and stops at the first exception, which
    the main loop (lines 320-336) catches.  The file ends with a small
    mailbox on which the witnesses of the theorems are evaluated. *)

From S2P Require Import Prelude Regex Patterns Extract Classifier BodyText Reply.

Inductive flag := Seen | Answered.

#[export] Instance flag_eq_dec : EqDecision flag.
Proof. solve_decision. Defined.

#[export] Instance flag_countable : Countable flag.
Proof.
  refine (inj_countable' (fun f => match f with Seen => true | Answered => false end)
            (fun b => if b then Seen else Answered) _).
  by intros [].
Defined.

(** A message as stored on the server: its headers and its MIME body. *)
Record inbound := Inbound { in_headers : message; in_mime : mime }.

Record world := World {
  w_msgs : list (text * inbound);           (** INBOX, in sequence order *)
  w_flags : gmap text (gset flag);          (** flags by sequence number *)
  w_outbox : list (text * outgoing)         (** delivered replies, by the message answered *)
}.

Definition flags_of (w : world) (n : text) : gset flag := default ∅ (w_flags w !! n).

(** [STORE n +FLAGS fs] *)
Definition add_flags (n : text) (fs : gset flag) (w : world) : world :=
  World (w_msgs w) (<[n := fs ∪ flags_of w n]> (w_flags w)) (w_outbox w).

Definition deliver (n : text) (o : outgoing) (w : world) : world :=
  World (w_msgs w) (w_flags w) (w_outbox w ++ [(n, o)]).

(** How [imap.fetch(num, "(RFC822 FLAGS)")] and the parsing of lines
    134-139 go for one message: OK, a non-OK status, an exception from the
    FETCH itself, or an exception while parsing after a FETCH that
    succeeded (so the server may already have set [\Seen]). *)
Inductive fetch_outcome := FetchOk | FetchNo | FetchRaise | FetchOkParseRaise.

(** How [imap_conn.store(...)] goes: [OK]; a [NO] answer, which [imaplib]
    returns as [('NO', ...)] without raising and the code ignores; or an
    exception ([BAD], a dropped connection). *)
Inductive store_outcome := StoreOk | StoreNo | StoreRaise.

Record env := Env {
  e_fetch_connect : bool;              (** lines 119-121 succeed *)
  e_search_ok : bool;                  (** line 123: [status == "OK"] *)
  e_fetch : text -> fetch_outcome;     (** line 130 for one message *)
  e_flag_connect : bool;               (** lines 229-231 succeed *)
  e_store : text -> store_outcome;     (** [imap_conn.store] for one message *)
  e_smtp : text -> smtp_outcome        (** the SMTP session of the reply to one message *)
}.

(** The dict built at lines 140-147. *)
Record fetched := Fetched {
  f_num : text; f_from_addr : text; f_from_name : text;
  f_subject : text; f_body : body_value; f_raw : message
}.

#[export] Instance fetched_eq_dec : EqDecision fetched.
Proof. solve_decision. Defined.

Section Cycle.
Context `{EmailUtils}.
Context (fetch_sets_seen : bool).

(** Lines 104-110. *)
Definition decode_subject (h : text) : text :=
  match h with
  | [] => []
  | _ => match decode_header_text h with Some s => s | None => h end
  end.

(** Lines 135-147 for one fetched message. *)
Definition parse_fetched (n : text) (m : inbound) : fetched :=
  let from_header := get_or_empty (in_headers m) (lit "From") in
  let '(from_name, from_addr) := parseaddr from_header in
  Fetched n from_addr from_name (decode_subject (get_or_empty (in_headers m) (lit "Subject")))
    (get_text_from_message (in_mime m)) (in_headers m).

(** Line 122: [imap.search(None, 'UNSEEN')]. *)
Definition unseen (w : world) : list (text * inbound) :=
  filter (fun nm => Seen ∉ flags_of w nm.1) (w_msgs w).

(** Lines 127-147: FETCH each unseen message; a non-OK answer skips it,
    an exception ends the loop and the messages collected so far are
    returned (line 149-151). *)
Fixpoint fetch_loop (e : env) (todo : list (text * inbound)) (acc : list fetched) (w : world)
  : list fetched * world :=
  match todo with
  | [] => (acc, w)
  | (n, m) :: rest =>
      match e_fetch e n with
      | FetchNo => fetch_loop e rest acc w
      | FetchRaise => (acc, w)
      | FetchOkParseRaise => (acc, if fetch_sets_seen then add_flags n {[Seen]} w else w)
      | FetchOk =>
          let w' := if fetch_sets_seen then add_flags n {[Seen]} w else w in
          fetch_loop e rest (acc ++ [parse_fetched n m]) w'
      end
  end.

(** Lines 112-151. *)
Definition fetch_unseen_messages (e : env) (w : world) : list fetched * world :=
  if e_fetch_connect e && e_search_ok e then fetch_loop e (unseen w) [] w else ([], w).

(** The states of spec section 4.5 a message ends in. *)
Inductive outcome :=
  | SkippedAutomated | SkippedNoAddress | SkippedInvalidAddress | SkippedSelfLoop
  | Sent | SendFailed.

(** An uncaught [store] in a skip branch (lines 257, 263, 268). *)
Definition store_or_raise (e : env) (n : text) (fs : gset flag) (w : world) (o : outcome)
  : option outcome * world :=
  match e_store e n with
  | StoreOk => (Some o, add_flags n fs w)
  | StoreNo => (Some o, w)
  | StoreRaise => (None, w)
  end.

(** A [store] inside [try ... except] (lines 295-305). *)
Definition store_caught (e : env) (n : text) (fs : gset flag) (w : world) : world :=
  match e_store e n with StoreOk => add_flags n fs w | _ => w end.

(** Line 239 ([msg_info["body"] or ""]) and the call of line 254 on the
    object it yields: [Some r] when [extract_business_email] returns [r],
    [None] when it raises.  On non-empty [bytes], [not body] (line 186) is
    false and the [str] pattern of line 189 raises [TypeError]. *)
Definition extract_from_body (b : body_value) : option (option text) :=
  match b with
  | BodyStr s => Some (extract_business_email s)
  | BodyBytes [] => Some (extract_business_email [])
  | BodyBytes (_ :: _) => None
  end.

(** Lines 253-305: extraction, validation, reply and flags. *)
Definition process_after_check (cfg : config) (e : env) (f : fetched) (w : world)
  : option outcome * world :=
  let n := f_num f in
  match extract_from_body (f_body f) with
  | None => (None, w)
  | Some (None | Some []) => store_or_raise e n {[Seen]} w SkippedNoAddress
  | Some (Some be) =>
      if negb (is_email be) then store_or_raise e n {[Seen]} w SkippedInvalidAddress
      else if bool_decide (lower be = lower (cfg_username cfg))
      then store_or_raise e n {[Seen]} w SkippedSelfLoop
      else
      match compose_reply cfg (f_raw f) (f_subject f) be with
      | None => (None, w)
      | Some out =>
          let r := send_email_smtp (cfg_test_mode cfg) out (e_smtp e n) in
          let w1 := if delivered r then deliver n out w else w in
          match returned r with
          | None => (None, w1)
          | Some true => (Some Sent, store_caught e n {[Answered; Seen]} w1)
          | Some false => (Some SendFailed, store_caught e n {[Seen]} w1)
          end
      end
  end.

(** Lines 237-305: one message; [None] is an exception escaping the loop.
    The [store] of line 248 is inside the [try] of lines 245-251: when it
    raises, the handler logs and processing goes on with line 254. *)
Definition process_message (cfg : config) (e : env) (f : fetched) (w : world)
  : option outcome * world :=
  if is_auto_generated (f_raw f) then
    match e_store e (f_num f) with
    | StoreOk => (Some SkippedAutomated, add_flags (f_num f) {[Seen]} w)
    | StoreNo => (Some SkippedAutomated, w)
    | StoreRaise => process_after_check cfg e f w
    end
  else process_after_check cfg e f w.

(** Lines 236-305: the loop, which an exception ends. *)
Fixpoint process_all (cfg : config) (e : env) (fs : list fetched) (w : world)
  : list (text * outcome) * bool * world :=
  match fs with
  | [] => ([], true, w)
  | f :: fs' =>
      match process_message cfg e f w with
      | (Some o, w') =>
          let '(os, ok, w'') := process_all cfg e fs' w' in ((f_num f, o) :: os, ok, w'')
      | (None, w') => ([], false, w')
      end
  end.

(** Lines 213-310: the outcomes of the messages processed, whether the
    function returned normally, and the world afterwards. *)
Definition auto_reply_if_business (cfg : config) (e : env) (w : world)
  : list (text * outcome) * bool * world :=
  let '(msgs, w1) := fetch_unseen_messages e w in
  match msgs with
  | [] => ([], true, w1)
  | _ => if e_flag_connect e then process_all cfg e msgs w1 else ([], true, w1)
  end.
End Cycle.

(** ** Flags and the world *)

Lemma flags_of_add w n m fs :
  flags_of (add_flags n fs w) m = if bool_decide (n = m) then fs ∪ flags_of w n else flags_of w m.
Proof.
  unfold flags_of, add_flags. simpl. case_bool_decide as Hnm.
  - subst. by rewrite lookup_insert_eq.
  - by rewrite lookup_insert_ne.
Qed.

Lemma flags_of_add_sub w n m fs : flags_of w m ⊆ flags_of (add_flags n fs w) m.
Proof. rewrite flags_of_add. case_bool_decide; subst; set_solver. Qed.

Lemma flags_of_deliver w n o m : flags_of (deliver n o w) m = flags_of w m.
Proof. done. Qed.

(** The world only grows: same INBOX, more flags, more delivered mail. *)
Definition wle (w w' : world) : Prop :=
  w_msgs w' = w_msgs w /\ (forall n, flags_of w n ⊆ flags_of w' n)
  /\ exists extra, w_outbox w' = w_outbox w ++ extra.

#[export] Instance wle_preorder : PreOrder wle.
Proof.
  split.
  - intros w. split; [done|]. split; [done|]. exists []. by rewrite app_nil_r.
  - intros w1 w2 w3 (Hm1 & Hf1 & e1 & He1) (Hm2 & Hf2 & e2 & He2).
    split; [congruence|]. split; [intros n; etrans; eauto|].
    exists (e1 ++ e2). by rewrite He2, He1, app_assoc.
Qed.

Lemma wle_add w n fs : wle w (add_flags n fs w).
Proof. split; [done|]. split; [intros m; apply flags_of_add_sub|]. exists []. by rewrite app_nil_r. Qed.

Lemma wle_deliver w n o : wle w (deliver n o w).
Proof. split; [done|]. split; [done|]. by eexists. Qed.

(** Peel [add_flags] and [deliver] off the right of a [wle] goal. *)
Ltac solve_wle :=
  match goal with
  | |- wle ?w ?w => reflexivity
  | |- wle _ (add_flags _ _ _) => etrans; [|apply wle_add]; solve_wle
  | |- wle _ (deliver _ _ _) => etrans; [|apply wle_deliver]; solve_wle
  end.

(** Answered is only ever set together with Seen. *)
Definition answered_seen (w : world) : Prop :=
  forall n, Answered ∈ flags_of w n -> Seen ∈ flags_of w n.

Lemma answered_seen_add w n fs :
  answered_seen w -> (Answered ∈ fs -> Seen ∈ fs) -> answered_seen (add_flags n fs w).
Proof.
  intros Hw Hfs m. rewrite !flags_of_add. case_bool_decide; [|apply Hw].
  subst. intros [Ha|Ha]%elem_of_union; [set_solver|]. apply Hw in Ha. set_solver.
Qed.

Lemma compose_reply_to cfg raw subj be out :
  compose_reply cfg raw subj be = Some out ->
  out_to out = [be] /\ out_from out = cfg_username cfg
  /\ out_subject out = cfg_subject_prefix cfg ++ subj.
Proof.
  unfold compose_reply. destruct (py_format _ _); simpl; [|done]. by intros [= <-].
Qed.

(** An address comes only out of a [str] body. *)
Lemma extract_from_body_Some b be :
  extract_from_body b = Some (Some be) -> exists s, b = BodyStr s /\ extract_business_email s = Some be.
Proof. destruct b as [s|[|c b]]; simpl; [intros Hx; injection Hx; eauto| |done]. intros Hx. vm_compute in Hx. congruence. Qed.

(** ** Effects of one cycle *)

Section CycleFacts.
Context `{EmailUtils} (fss : bool) (cfg : config) (e : env).

Lemma parse_fetched_num n m : f_num (parse_fetched n m) = n.
Proof. unfold parse_fetched. by destruct (parseaddr _). Qed.

Lemma fetch_loop_wle todo acc w : wle w (fetch_loop fss e todo acc w).2.
Proof.
  revert acc w. induction todo as [|[n m] todo IH]; intros acc w; simpl; [done|].
  destruct (e_fetch e n), fss; try apply IH; try done; try apply wle_add.
  etrans; [apply wle_add|apply IH].
Qed.

Lemma fetch_loop_outbox todo acc w : w_outbox (fetch_loop fss e todo acc w).2 = w_outbox w.
Proof.
  revert acc w. induction todo as [|[n m] todo IH]; intros acc w; simpl; [done|].
  destruct (e_fetch e n), fss; rewrite ?IH; done.
Qed.

Lemma fetch_loop_answered_seen todo acc w :
  answered_seen w -> answered_seen (fetch_loop fss e todo acc w).2.
Proof.
  revert acc w. induction todo as [|[n m] todo IH]; intros acc w Hw; simpl; [done|].
  destruct (e_fetch e n), fss; try apply IH; try done; apply answered_seen_add; done || set_solver.
Qed.

(** Every message returned was fetched from the list of unseen ones. *)
Lemma fetch_loop_origin todo acc w f :
  In f (fetch_loop fss e todo acc w).1 ->
  In f acc \/ exists m, In (f_num f, m) todo /\ f = parse_fetched (f_num f) m.
Proof.
  revert acc w. induction todo as [|[n m] todo IH]; intros acc w Hf; simpl in *; [auto|].
  destruct (e_fetch e n).
  - apply IH in Hf as [Hf|(m' & Hin & ->)].
    + apply in_app_or in Hf as [Hf|[<-|[]]]; [auto|]. right. exists m.
      rewrite parse_fetched_num. simpl. auto.
    + right. exists m'. rewrite parse_fetched_num. auto.
  - apply IH in Hf as [Hf|(m' & Hin & ->)]; [auto|]. right. exists m'.
    rewrite parse_fetched_num. auto.
  - auto.
  - auto.
Qed.

Lemma fetch_unseen_wle w : wle w (fetch_unseen_messages fss e w).2.
Proof. unfold fetch_unseen_messages. destruct (_ && _); [apply fetch_loop_wle|done]. Qed.

Lemma fetch_unseen_outbox w : w_outbox (fetch_unseen_messages fss e w).2 = w_outbox w.
Proof. unfold fetch_unseen_messages. destruct (_ && _); [apply fetch_loop_outbox|done]. Qed.

Lemma fetch_unseen_origin w f :
  In f (fetch_unseen_messages fss e w).1 ->
  exists m, In (f_num f, m) (unseen w) /\ f = parse_fetched (f_num f) m.
Proof.
  unfold fetch_unseen_messages. destruct (_ && _); [|done].
  intros Hf. by apply fetch_loop_origin in Hf as [[]|?].
Qed.

Lemma process_message_wle f w : wle w (process_message cfg e f w).2.
Proof.
  unfold process_message, process_after_check, store_or_raise, store_caught.
  repeat (case_match || case_bool_decide); simplify_eq/=; solve_wle.
Qed.

Lemma process_message_answered_seen f w :
  answered_seen w -> answered_seen (process_message cfg e f w).2.
Proof.
  intros Hw. unfold process_message, process_after_check, store_or_raise, store_caught.
  repeat (case_match || case_bool_decide); simplify_eq/=; try done;
    apply answered_seen_add; try set_solver; done.
Qed.

(** What one message adds to the delivered mail: nothing, or one reply
    to the extracted address, which is not the account's own. *)
Lemma process_message_outbox f w :
  w_outbox (process_message cfg e f w).2 = w_outbox w
  \/ exists be out, extract_from_body (f_body f) = Some (Some be)
       /\ lower be <> lower (cfg_username cfg)
       /\ compose_reply cfg (f_raw f) (f_subject f) be = Some out
       /\ build_message out <> None
       /\ w_outbox (process_message cfg e f w).2 = w_outbox w ++ [(f_num f, out)].
Proof.
  unfold process_message, process_after_check, store_or_raise, store_caught,
    send_email_smtp, session_result.
  repeat (case_match || case_bool_decide); simplify_eq/=; auto;
    right; eexists _, _; (split; [done|]); (split; [done|]); (split; [done|]);
    (split; [congruence|done]).
Qed.

Lemma process_all_wle fs w : wle w (process_all cfg e fs w).2.
Proof.
  revert w. induction fs as [|f fs IH]; intros w; simpl; [done|].
  pose proof (process_message_wle f w) as Hw.
  destruct (process_message cfg e f w) as [[o|] w'] eqn:E; simpl in *; [|done].
  specialize (IH w'). destruct (process_all cfg e fs w') as [[os ok] w''].
  simpl in *. by etrans.
Qed.

Lemma process_all_answered_seen fs w :
  answered_seen w -> answered_seen (process_all cfg e fs w).2.
Proof.
  revert w. induction fs as [|f fs IH]; intros w Hw; simpl; [done|].
  pose proof (process_message_answered_seen f w Hw) as Hw'.
  destruct (process_message cfg e f w) as [[o|] w'] eqn:E; simpl in *; [|done].
  specialize (IH w' Hw'). by destruct (process_all cfg e fs w') as [[os ok] w''].
Qed.

(** The replies a run of the loop delivers: one per message at most, in
    the order of the messages, each to the address extracted from it. *)
Lemma process_all_outbox fs w :
  exists extra, w_outbox (process_all cfg e fs w).2 = w_outbox w ++ extra
    /\ extra.*1 `sublist_of` (f_num <$> fs)
    /\ forall x, In x extra -> exists f be, In f fs /\ x.1 = f_num f
         /\ extract_from_body (f_body f) = Some (Some be)
         /\ lower be <> lower (cfg_username cfg)
         /\ compose_reply cfg (f_raw f) (f_subject f) be = Some x.2
         /\ build_message x.2 <> None.
Proof.
  revert w. induction fs as [|f fs IH]; intros w; simpl.
  - exists []. rewrite app_nil_r. split; [done|]. split; [constructor|done].
  - pose proof (process_message_outbox f w) as Ho.
    destruct (process_message cfg e f w) as [[o|] w'] eqn:E; simpl in *.
    + destruct (IH w') as (extra & Hx & Hsub & Hall).
      destruct (process_all cfg e fs w') as [[os ok] w'']. simpl in *.
      destruct Ho as [Ho|(be & out & Hbe & Hne & Hc & Hb & Ho)].
      * exists extra. rewrite Hx, Ho. split; [done|]. split; [by apply sublist_cons|].
        intros x Hin. destruct (Hall x Hin) as (f' & be' & ?). exists f', be'. naive_solver.
      * exists ((f_num f, out) :: extra). rewrite Hx, Ho, <- app_assoc. split; [done|].
        split; [simpl; by apply sublist_skip|].
        intros x [<-|Hin]; [exists f, be; naive_solver|].
        destruct (Hall x Hin) as (f' & be' & ?). exists f', be'. naive_solver.
    + destruct Ho as [Ho|(be & out & Hbe & Hne & Hc & Hb & Ho)].
      * exists []. rewrite Ho, app_nil_r. split; [done|]. split; [apply sublist_nil_l|done].
      * exists [(f_num f, out)]. split; [done|]. split.
        { simpl. apply sublist_skip, sublist_nil_l. }
        intros x [<-|[]]. exists f, be. naive_solver.
Qed.
End CycleFacts.

(** ** The polling loop *)

Section Loop.
Context `{EmailUtils} (fss : bool) (cfg : config).

Lemma parse_fetched_fields n m :
  f_body (parse_fetched n m) = get_text_from_message (in_mime m)
  /\ f_raw (parse_fetched n m) = in_headers m.
Proof. unfold parse_fetched. by destruct (parseaddr _). Qed.

Lemma unseen_in w n m : In (n, m) (unseen w) -> In (n, m) (w_msgs w) /\ Seen ∉ flags_of w n.
Proof. unfold unseen. rewrite <- !list_elem_of_In, list_elem_of_filter. simpl. tauto. Qed.

Lemma auto_reply_wle e w : wle w (auto_reply_if_business fss cfg e w).2.
Proof.
  unfold auto_reply_if_business. pose proof (fetch_unseen_wle fss e w) as Hf.
  destruct (fetch_unseen_messages fss e w) as [msgs w1]. simpl in *.
  destruct msgs as [|f fs]; [done|]. destruct (e_flag_connect e); [|done].
  etrans; [exact Hf|apply process_all_wle].
Qed.

Lemma auto_reply_answered_seen e w :
  answered_seen w -> answered_seen (auto_reply_if_business fss cfg e w).2.
Proof.
  intros Hw. unfold auto_reply_if_business, fetch_unseen_messages.
  destruct (_ && _); simpl; [|done].
  pose proof (fetch_loop_answered_seen fss e (unseen w) [] w Hw) as Hw1.
  destruct (fetch_loop fss e (unseen w) [] w) as [msgs w1]. simpl in *.
  destruct msgs as [|f fs]; [done|]. destruct (e_flag_connect e); [|done].
  by apply process_all_answered_seen.
Qed.

(** A cycle delivers at most one reply per fetched message, each to the
    address extracted from an unseen message of the INBOX. *)
Lemma auto_reply_outbox e w :
  exists extra,
    w_outbox (auto_reply_if_business fss cfg e w).2 = w_outbox w ++ extra
    /\ extra.*1 `sublist_of` (f_num <$> (fetch_unseen_messages fss e w).1)
    /\ forall x, In x extra -> exists m be, In (x.1, m) (unseen w)
         /\ extract_from_body (get_text_from_message (in_mime m)) = Some (Some be)
         /\ lower be <> lower (cfg_username cfg)
         /\ compose_reply cfg (in_headers m) (decode_subject (get_or_empty (in_headers m) (lit "Subject"))) be
            = Some x.2
         /\ build_message x.2 <> None.
Proof.
  unfold auto_reply_if_business. pose proof (fetch_unseen_outbox fss e w) as Hout.
  pose proof (fetch_unseen_origin fss e w) as Horig.
  destruct (fetch_unseen_messages fss e w) as [msgs w1]. simpl in *.
  assert (Hnone : exists extra, w_outbox w1 = w_outbox w ++ extra /\ extra = []).
  { exists []. by rewrite app_nil_r. }
  destruct msgs as [|f0 fs0].
  { exists []. rewrite app_nil_r. split; [done|]. split; [apply sublist_nil_l|done]. }
  destruct (e_flag_connect e).
  2: { exists []. rewrite app_nil_r. split; [done|]. split; [apply sublist_nil_l|done]. }
  destruct (process_all_outbox cfg e (f0 :: fs0) w1) as (extra & Hx & Hsub & Hall).
  exists extra. rewrite Hx, Hout. split; [done|]. split; [done|].
  intros x Hin. destruct (Hall x Hin) as (f & be & Hf & Hnum & Hbe & Hne & Hc & Hbuild).
  destruct (Horig f Hf) as (m & Hm & Hfe).
  exists m, be. rewrite Hnum. split; [done|].
  rewrite Hfe in Hbe, Hc. destruct (parse_fetched_fields (f_num f) m) as [Hb Hr].
  rewrite Hb in Hbe. split; [done|]. split; [done|].
  unfold parse_fetched in Hc. destruct (parseaddr _). by split.
Qed.

(** Between cycles, new mail arrives under a fresh sequence number. *)
Inductive step : world -> world -> Prop :=
  | step_cycle e w : step w (auto_reply_if_business fss cfg e w).2
  | step_arrive w n m :
      n ∉ (w_msgs w).*1 ->
      step w (World (w_msgs w ++ [(n, m)]) (delete n (w_flags w)) (w_outbox w)).
End Loop.

(** ** One cycle on one unseen message *)

Section OneMessage.
Context `{EmailUtils} (fss : bool) (cfg : config).

Lemma cycle_single_msg e w n m :
  unseen w = [(n, m)] -> e_fetch_connect e = true -> e_search_ok e = true ->
  e_fetch e n = FetchOk -> e_flag_connect e = true ->
  auto_reply_if_business fss cfg e w =
    match process_message cfg e (parse_fetched n m)
            (if fss then add_flags n {[Seen]} w else w) with
    | (Some o, w') => ([(n, o)], true, w')
    | (None, w') => ([], false, w')
    end.
Proof.
  intros Hu Hc Hs Hf Hfc. unfold auto_reply_if_business, fetch_unseen_messages.
  rewrite Hc, Hs, Hu. simpl. rewrite Hf, Hfc. simpl.
  destruct (process_message _ _ _ _) as [[o|] w']; simpl; [|done].
  by rewrite parse_fetched_num.
Qed.

(** A message whose body yields an address other than the account's own
    and whose reply formats reaches the send of lines 281-291; what
    follows depends only on [send_email_smtp] and the STOREs. *)
Lemma process_after_check_send e f w be out :
  extract_from_body (f_body f) = Some (Some be) ->
  lower be <> lower (cfg_username cfg) ->
  compose_reply cfg (f_raw f) (f_subject f) be = Some out ->
  process_after_check cfg e f w =
    let r := send_email_smtp (cfg_test_mode cfg) out (e_smtp e (f_num f)) in
    let w1 := if delivered r then deliver (f_num f) out w else w in
    match returned r with
    | None => (None, w1)
    | Some true => (Some Sent, store_caught e (f_num f) {[Answered; Seen]} w1)
    | Some false => (Some SendFailed, store_caught e (f_num f) {[Seen]} w1)
    end.
Proof.
  intros Hbe Hne Hc.
  destruct (extract_from_body_Some _ _ Hbe) as (s & _ & Hs).
  pose proof (extract_cons _ _ Hs) as (c & be' & ->).
  unfold process_after_check. rewrite Hbe, (extract_is_email _ _ Hs). cbn [negb].
  rewrite bool_decide_eq_false_2 by done. by rewrite Hc.
Qed.

Lemma process_message_send e n m w be out :
  is_auto_generated (in_headers m) = false ->
  extract_from_body (get_text_from_message (in_mime m)) = Some (Some be) ->
  lower be <> lower (cfg_username cfg) ->
  compose_reply cfg (in_headers m) (decode_subject (get_or_empty (in_headers m) (lit "Subject"))) be
    = Some out ->
  process_message cfg e (parse_fetched n m) w =
    let r := send_email_smtp (cfg_test_mode cfg) out (e_smtp e n) in
    let w1 := if delivered r then deliver n out w else w in
    match returned r with
    | None => (None, w1)
    | Some true => (Some Sent, store_caught e n {[Answered; Seen]} w1)
    | Some false => (Some SendFailed, store_caught e n {[Seen]} w1)
    end.
Proof.
  intros Hauto Hbe Hne Hc. destruct (parse_fetched_fields n m) as [Hb Hr].
  unfold process_message. rewrite Hr, Hauto.
  rewrite (process_after_check_send e _ w be out); rewrite ?Hb, ?Hr, ?parse_fetched_num; try done.
  unfold parse_fetched in *. destruct (parseaddr _). done.
Qed.
End OneMessage.

Lemma outbox_add w n fs : w_outbox (add_flags n fs w) = w_outbox w.
Proof. done. Qed.

Lemma outbox_deliver w n o : w_outbox (deliver n o w) = w_outbox w ++ [(n, o)].
Proof. done. Qed.

Lemma flags_of_add_same w n fs : flags_of (add_flags n fs w) n = fs ∪ flags_of w n.
Proof. rewrite flags_of_add. by rewrite bool_decide_eq_true_2. Qed.

Lemma outbox_fetch_seen (fss : bool) w n :
  w_outbox (if fss then add_flags n {[Seen]} w else w) = w_outbox w.
Proof. by destruct fss. Qed.

(** ** Properties of a cycle *)

Section CycleTheorems.
Context `{EmailUtils} (fss : bool) (cfg : config).

(** C9: Spec section 8, scenario 5: an unseen message that is not
    automated, whose body text is a [str] naming a business address other
    than the account's own, and whose reply can be built (its subject,
    sender and [Message-ID] are single lines: [build_message]) gets, with
    working servers and test mode off, exactly one reply, to that address,
    and ends Seen and Answered. *)
Theorem cycle_reply_sent e w n m be out :
  unseen w = [(n, m)] -> e_fetch_connect e = true -> e_search_ok e = true ->
  e_fetch e n = FetchOk -> e_flag_connect e = true -> e_store e n = StoreOk ->
  e_smtp e n = SmtpOk -> cfg_test_mode cfg = false ->
  is_auto_generated (in_headers m) = false ->
  extract_from_body (get_text_from_message (in_mime m)) = Some (Some be) ->
  lower be <> lower (cfg_username cfg) ->
  compose_reply cfg (in_headers m) (decode_subject (get_or_empty (in_headers m) (lit "Subject"))) be
    = Some out ->
  build_message out <> None ->
  let '(os, ok, w') := auto_reply_if_business fss cfg e w in
  os = [(n, Sent)] /\ ok = true /\ w_outbox w' = w_outbox w ++ [(n, out)]
  /\ out_to out = [be] /\ {[Seen; Answered]} ⊆ flags_of w' n.
Proof.
  intros Hu Hc Hs Hf Hfc Hst Hsmtp Htest Hauto Hbe Hne Hcomp Hbuild.
  rewrite (cycle_single_msg fss cfg e w n m) by done.
  rewrite (process_message_send cfg e n m _ be out) by done.
  rewrite send_email_smtp_built, Hsmtp, Htest by done. cbn -[add_flags deliver flags_of]. unfold store_caught. rewrite Hst.
  split; [done|]. split; [done|].
  split; [by rewrite outbox_add, outbox_deliver, outbox_fetch_seen|].
  split; [by apply compose_reply_to in Hcomp as []|].
  rewrite flags_of_add_same. set_solver.
Qed.

(** C13: Scenario 5 with a failing transmission: under the hypotheses of
    [cycle_reply_sent] (a [str] body, single-line reply headers, the STORE answering OK)
    but an SMTP session that raises [SMTPException] or [gaierror] before
    the message is accepted, nothing is delivered and the message ends
    Seen, its Answered flag untouched. *)
Theorem cycle_reply_failed e w n m be out :
  unseen w = [(n, m)] -> e_fetch_connect e = true -> e_search_ok e = true ->
  e_fetch e n = FetchOk -> e_flag_connect e = true -> e_store e n = StoreOk ->
  e_smtp e n = SmtpFail -> cfg_test_mode cfg = false ->
  is_auto_generated (in_headers m) = false ->
  extract_from_body (get_text_from_message (in_mime m)) = Some (Some be) ->
  lower be <> lower (cfg_username cfg) ->
  compose_reply cfg (in_headers m) (decode_subject (get_or_empty (in_headers m) (lit "Subject"))) be
    = Some out ->
  build_message out <> None ->
  let '(os, ok, w') := auto_reply_if_business fss cfg e w in
  os = [(n, SendFailed)] /\ ok = true /\ w_outbox w' = w_outbox w
  /\ Seen ∈ flags_of w' n /\ (Answered ∈ flags_of w' n <-> Answered ∈ flags_of w n).
Proof.
  intros Hu Hc Hs Hf Hfc Hst Hsmtp Htest Hauto Hbe Hne Hcomp Hbuild.
  rewrite (cycle_single_msg fss cfg e w n m) by done.
  rewrite (process_message_send cfg e n m _ be out) by done.
  rewrite send_email_smtp_built, Hsmtp, Htest by done. cbn -[add_flags deliver flags_of]. unfold store_caught. rewrite Hst.
  split; [done|]. split; [done|]. split; [by rewrite outbox_add, outbox_fetch_seen|].
  rewrite flags_of_add_same. split; [set_solver|].
  destruct fss; [rewrite flags_of_add_same|]; set_solver.
Qed.
End CycleTheorems.

(** ** Concrete runs

    A mailbox with one business enquiry, the configuration of lines 18-44
    with [USERNAME] set, and servers that answer as configured below. *)

Definition demo_cfg (test_mode : bool) : config :=
  Config (lit "support@asterion.example") None test_mode REPLY_SUBJECT_PREFIX REPLY_BODY_TEMPLATE.

Definition demo_body : text :=
  lit "Hello" ++ nl ++ lit "Business email: contact@client.example" ++ nl.

Definition demo_headers (extra : list (text * text)) : message :=
  Message ([(lit "From", lit "Client <client@mail.example>"); (lit "Subject", lit "Quote");
            (lit "Message-ID", lit "<1@mail.example>")] ++ extra).

Definition demo_msg (extra : list (text * text)) : inbound :=
  Inbound (demo_headers extra) (Leaf (lit "text/plain") (Some demo_body) None).

Definition demo_world (msgs : list (text * inbound)) : world := World msgs ∅ [].

Definition demo_env (store : store_outcome) (smtp : smtp_outcome) : env :=
  Env true true (fun _ => FetchOk) true (fun _ => store) (fun _ => smtp).

Definition demo_reply : outgoing :=
  Eval vm_compute in
    default (Outgoing [] [] [] None [])
      (compose_reply (demo_cfg false) (demo_headers []) (lit "Quote") (lit "contact@client.example")).

Lemma cycle_reply_sent_witness :
  let '(os, ok, w') :=
    auto_reply_if_business true (demo_cfg false) (demo_env StoreOk SmtpOk)
      (demo_world [(lit "1", demo_msg [])]) in
  os = [(lit "1", Sent)] /\ ok = true /\ w_outbox w' = [] ++ [(lit "1", demo_reply)]
  /\ out_to demo_reply = [lit "contact@client.example"] /\ {[Seen; Answered]} ⊆ flags_of w' (lit "1").
Proof.
  apply (cycle_reply_sent true (demo_cfg false) (demo_env StoreOk SmtpOk)
           (demo_world [(lit "1", demo_msg [])]) (lit "1") (demo_msg [])
           (lit "contact@client.example") demo_reply);
    try reflexivity; vm_compute; try reflexivity; discriminate.
Defined.

Lemma cycle_reply_failed_witness :
  let '(os, ok, w') :=
    auto_reply_if_business false (demo_cfg false) (demo_env StoreOk SmtpFail)
      (demo_world [(lit "1", demo_msg [])]) in
  os = [(lit "1", SendFailed)] /\ ok = true /\ w_outbox w' = []
  /\ Seen ∈ flags_of w' (lit "1")
  /\ (Answered ∈ flags_of w' (lit "1") <-> Answered ∈ flags_of (demo_world [(lit "1", demo_msg [])]) (lit "1")).
Proof.
  apply (cycle_reply_failed false (demo_cfg false) (demo_env StoreOk SmtpFail)
           (demo_world [(lit "1", demo_msg [])]) (lit "1") (demo_msg [])
           (lit "contact@client.example") demo_reply);
    try reflexivity; vm_compute; try reflexivity; discriminate.
Defined.

(** ** An exception while fetching *)

Section FetchRaise.
Context `{EmailUtils} (fss : bool).

Lemma fetch_loop_raise e pre n m post acc w :
  (forall k mk, In (k, mk) pre -> e_fetch e k = FetchOk) -> e_fetch e n = FetchRaise ->
  (fetch_loop fss e (pre ++ (n, m) :: post) acc w).1
    = acc ++ ((fun nm => parse_fetched nm.1 nm.2) <$> pre)
  /\ forall k, k ∉ pre.*1 -> flags_of (fetch_loop fss e (pre ++ (n, m) :: post) acc w).2 k = flags_of w k.
Proof.
  intros Hok Hraise. revert acc w.
  induction pre as [|[k0 m0] pre IH]; intros acc w; simpl.
  - rewrite Hraise. by rewrite app_nil_r.
  - rewrite (Hok k0 m0) by (by left).
    destruct (IH (fun k mk Hin => Hok k mk (or_intror Hin))
                (acc ++ [parse_fetched k0 m0]) (if fss then add_flags k0 {[Seen]} w else w))
      as [H1 H2].
    split; [by rewrite H1, <- app_assoc|].
    intros k Hk. apply not_elem_of_cons in Hk as [Hne Hk]. rewrite H2 by done.
    destruct fss; [|done]. rewrite flags_of_add. by rewrite bool_decide_eq_false_2.
Qed.

(** C21: Lines 149-151: when the FETCH of an unseen message raises, the
    handler ends the loop and the messages fetched before it are still
    returned and processed; that message and the ones after it keep their
    flags, so they stay unseen and are fetched again next cycle. *)
Theorem fetch_exception_keeps_prefix e w pre n m post :
  e_fetch_connect e = true -> e_search_ok e = true -> unseen w = pre ++ (n, m) :: post ->
  (forall k mk, In (k, mk) pre -> e_fetch e k = FetchOk) -> e_fetch e n = FetchRaise ->
  (fetch_unseen_messages fss e w).1 = (fun nm => parse_fetched nm.1 nm.2) <$> pre
  /\ forall k, k ∉ pre.*1 -> flags_of (fetch_unseen_messages fss e w).2 k = flags_of w k.
Proof.
  intros Hc Hs Hu Hok Hraise. unfold fetch_unseen_messages. rewrite Hc, Hs, Hu. simpl.
  by apply fetch_loop_raise.
Qed.
End FetchRaise.

Lemma fetch_exception_keeps_prefix_witness :
  (fetch_unseen_messages true
     (Env true true (fun k => if bool_decide (k = lit "2") then FetchRaise else FetchOk)
        true (fun _ => StoreOk) (fun _ => SmtpOk))
     (demo_world [(lit "1", demo_msg []); (lit "2", demo_msg [])])).1
  = (fun nm => parse_fetched nm.1 nm.2) <$> [(lit "1", demo_msg [])]
  /\ forall k, k ∉ [(lit "1", demo_msg [])].*1 ->
       flags_of (fetch_unseen_messages true
                   (Env true true (fun k => if bool_decide (k = lit "2") then FetchRaise else FetchOk)
                      true (fun _ => StoreOk) (fun _ => SmtpOk))
                   (demo_world [(lit "1", demo_msg []); (lit "2", demo_msg [])])).2 k
       = flags_of (demo_world [(lit "1", demo_msg []); (lit "2", demo_msg [])]) k.
Proof.
  apply (fetch_exception_keeps_prefix true _ _ [(lit "1", demo_msg [])] (lit "2") (demo_msg []) []);
    try reflexivity.
  intros k mk [[= <- <-]|[]]. reflexivity.
Defined.
