(* ===== verification/Paths.v ===== *)
(** * The exceptional paths of one message (lines 237-305)

    [Orchestrator] models an iteration of the loop of lines 236-305 as
    [process_message], whose [None] is an exception escaping
    [auto_reply_if_business].  This file states, for every message, what
    each of the paths the spec's table of section 4.5 does not describe
    does: an automated message whose STORE of line 248 raises is processed
    like any other and can be answered; in test mode a message is flagged
    [\Answered] although nothing is sent; an SMTP failure after the server
    accepted the reply counts as a failed send; and three exceptions end
    the whole loop, leaving the later messages unprocessed: an SMTP error
    other than [SMTPException]/[gaierror], a subject of several lines
    (line 159) and a single-part body that is not text, whose [bytes]
    reach the [str] pattern of line 189.  Without [\Seen] being set by
    FETCH, a reply whose STORE fails is sent again by the next cycle. *)

From S2P Require Import Prelude Regex Patterns Extract Classifier BodyText Reply Orchestrator.

(** An exception in [process_message] ends [process_all] at once. *)
Lemma process_all_abort `{EmailUtils} cfg e f fs w :
  process_message cfg e f w = (None, w) -> process_all cfg e (f :: fs) w = ([], false, w).
Proof. intros Hp. simpl. by rewrite Hp. Qed.

Lemma outbox_app_neq {A} (l : list A) x : l <> l ++ [x].
Proof. intros Hx. apply (f_equal length) in Hx. rewrite length_app in Hx. simpl in Hx. lia. Qed.

Section ReplyPath.
Context `{EmailUtils} (cfg : config) (e : env) (f : fetched) (w : world) (be : text) (out : outgoing).
Hypothesis Hbe : extract_from_body (f_body f) = Some (Some be).
Hypothesis Hne : lower be <> lower (cfg_username cfg).
Hypothesis Hcomp : compose_reply cfg (f_raw f) (f_subject f) be = Some out.

Lemma process_message_reply :
  is_auto_generated (f_raw f) = false -> process_message cfg e f w = process_after_check cfg e f w.
Proof. intros Ha. unfold process_message. by rewrite Ha. Qed.

(** C26: The skip of automated mail (lines 245-251) is not enforced: an
    automated message with an address to answer gets the reply exactly
    when the STORE of line 248 raises, because the [except] of line 250
    catches that exception and processing goes on with line 254 (a [NO]
    answer to the STORE, which does not raise, still skips it). *)
Theorem automated_message_answered :
  is_auto_generated (f_raw f) = true -> build_message out <> None ->
  cfg_test_mode cfg = false -> e_smtp e (f_num f) = SmtpOk ->
  w_outbox (process_message cfg e f w).2 = w_outbox w ++ [(f_num f, out)]
  <-> e_store e (f_num f) = StoreRaise.
Proof.
  intros Ha Hb Ht Hs. unfold process_message. rewrite Ha.
  destruct (e_store e (f_num f)) eqn:Hst; cbn [snd w_outbox add_flags];
    [split; [by intros ?%outbox_app_neq|done]..|].
  rewrite (process_after_check_send cfg e f w be out), send_email_smtp_built, Hs, Ht by done.
  cbn. unfold store_caught. by rewrite Hst.
Qed.

(** C29: In test mode ([TEST_MODE], lines 166-168) [send_email_smtp]
    returns [True] without sending, so the message is counted Sent and
    flagged [\Answered] (line 296) although no reply exists. *)
Theorem test_mode_marks_answered :
  is_auto_generated (f_raw f) = false -> build_message out <> None ->
  cfg_test_mode cfg = true -> e_store e (f_num f) = StoreOk ->
  (process_message cfg e f w).1 = Some Sent /\ w_outbox (process_message cfg e f w).2 = w_outbox w
  /\ Answered ∈ flags_of (process_message cfg e f w).2 (f_num f).
Proof.
  intros Ha Hb Ht Hst.
  rewrite process_message_reply, (process_after_check_send cfg e f w be out), send_email_smtp_built, Ht
    by done.
  cbn -[add_flags flags_of]. unfold store_caught. rewrite Hst.
  split; [done|]. split; [done|]. rewrite flags_of_add_same. set_solver.
Qed.

(** C28: An SMTP error after the server accepted the message (a failing
    QUIT when the [with] block of line 172 closes, an [SMTPException])
    makes [send_email_smtp] return [False]: the reply is delivered, the
    message is counted SendFailed and its [\Answered] flag is left as it
    was. *)
Theorem quit_failure_after_delivery :
  is_auto_generated (f_raw f) = false -> build_message out <> None ->
  cfg_test_mode cfg = false -> e_smtp e (f_num f) = SmtpFailAfterDelivery ->
  (process_message cfg e f w).1 = Some SendFailed
  /\ w_outbox (process_message cfg e f w).2 = w_outbox w ++ [(f_num f, out)]
  /\ (Answered ∈ flags_of (process_message cfg e f w).2 (f_num f) <-> Answered ∈ flags_of w (f_num f)).
Proof.
  intros Ha Hb Ht Hs.
  rewrite process_message_reply, (process_after_check_send cfg e f w be out), send_email_smtp_built, Hs, Ht
    by done.
  cbn -[add_flags flags_of deliver]. unfold store_caught.
  split; [done|]. destruct (e_store e (f_num f)); (split; [done|]);
    rewrite ?flags_of_add_same, ?flags_of_deliver; set_solver.
Qed.

(** C25: An SMTP failure other than [SMTPException] or [socket.gaierror]
    (a refused connection raises [ConnectionRefusedError]) escapes the
    [except] of line 177 and ends the loop of lines 236-305 at once:
    nothing is delivered, no flag is stored, and no later message of the
    cycle is processed. *)
Theorem smtp_crash_aborts_cycle fs :
  is_auto_generated (f_raw f) = false -> build_message out <> None ->
  cfg_test_mode cfg = false -> e_smtp e (f_num f) = SmtpCrash ->
  process_all cfg e (f :: fs) w = ([], false, w).
Proof.
  intros Ha Hb Ht Hs. apply process_all_abort.
  by rewrite process_message_reply, (process_after_check_send cfg e f w be out), send_email_smtp_built, Hs, Ht.
Qed.

(** C24: A decoded subject that spans lines (an RFC 2047 encoded word can
    carry a line feed) makes [msg["Subject"] = subject] (line 159) raise
    [ValueError] before the [TEST_MODE] check and outside the [try] of
    [send_email_smtp]: whatever the SMTP server and the mode, the loop
    ends there and no later message of the cycle is processed. *)
Theorem multiline_subject_aborts_cycle fs :
  is_auto_generated (f_raw f) = false ->
  header_value_ok (cfg_subject_prefix cfg ++ f_subject f) = false ->
  process_all cfg e (f :: fs) w = ([], false, w).
Proof.
  intros Ha Hsub. apply process_all_abort.
  rewrite process_message_reply, (process_after_check_send cfg e f w be out) by done.
  destruct (compose_reply_to _ _ _ _ _ Hcomp) as (_ & _ & Hs).
  rewrite send_email_smtp_subject by (by rewrite Hs). done.
Qed.
End ReplyPath.

Section BytesBody.
Context `{EmailUtils} (cfg : config) (e : env).

(** C23: A single-part message whose content type has a [bytes] handler
    ([application/pdf], [image/png], ...) yields, by line 99, the [bytes]
    of its payload; they are not empty, so [body or ""] (line 239) keeps
    them and the [str] pattern of line 189 raises [TypeError], which
    nothing catches: the loop ends there and no later message of the cycle
    is processed (unless the message is automated and its STORE of line
    248 returns). *)
Theorem non_text_body_aborts_cycle n m fs w ct b p :
  in_mime m = Leaf ct (Some b) p ->
  maintype ct ∈ [lit "audio"; lit "image"; lit "video"; lit "application"; lit "message"] ->
  b <> [] -> is_auto_generated (in_headers m) = false ->
  process_all cfg e (parse_fetched n m :: fs) w = ([], false, w).
Proof.
  intros Hm Hct Hb Ha. apply process_all_abort.
  destruct (parse_fetched_fields n m) as [Hbody Hraw].
  assert (Hgt : get_text_from_message (in_mime m) = BodyBytes b).
  { rewrite Hm. cbn [get_text_from_message get_content].
    rewrite bool_decide_eq_false_2.
    2:{ intros Heq. rewrite Heq in Hct. vm_compute in Hct. set_solver. }
    rewrite bool_decide_eq_true_2 by done. done. }
  unfold process_message. rewrite Hraw, Ha. unfold process_after_check.
  rewrite Hbody, Hgt. destruct b; done.
Qed.
End BytesBody.

Section Duplicate.
Context `{EmailUtils} (cfg : config).

Lemma unseen_deliver w n out : unseen (deliver n out w) = unseen w.
Proof. done. Qed.

(** C27: Spec section 9 asks whether a failed STORE after a send can cause
    a duplicate reply.  When FETCH leaves [\Seen] alone (the spec's
    mailbox abstraction) it does: if the STORE of line 296 is refused
    ([NO]) or raises (caught at line 298), the message stays unseen, and
    the next cycle with the same server behaviour sends the same reply
    again. *)
Theorem duplicate_replies_without_seen e w n m be out :
  unseen w = [(n, m)] -> e_fetch_connect e = true -> e_search_ok e = true ->
  e_fetch e n = FetchOk -> e_flag_connect e = true -> e_store e n <> StoreOk ->
  e_smtp e n = SmtpOk -> cfg_test_mode cfg = false ->
  is_auto_generated (in_headers m) = false ->
  extract_from_body (get_text_from_message (in_mime m)) = Some (Some be) ->
  lower be <> lower (cfg_username cfg) ->
  compose_reply cfg (in_headers m) (decode_subject (get_or_empty (in_headers m) (lit "Subject"))) be
    = Some out ->
  build_message out <> None ->
  w_outbox (auto_reply_if_business false cfg e (auto_reply_if_business false cfg e w).2).2
  = w_outbox w ++ [(n, out); (n, out)].
Proof.
  intros Hu Hc Hs Hf Hfc Hst Hsmtp Htest Hauto Hbe Hne Hcomp Hbuild.
  assert (Hcyc : forall w0, unseen w0 = [(n, m)] ->
            auto_reply_if_business false cfg e w0 = ([(n, Sent)], true, deliver n out w0)).
  { intros w0 Hu0. rewrite (cycle_single_msg false cfg e w0 n m) by done.
    rewrite (process_message_send cfg e n m _ be out) by done.
    rewrite send_email_smtp_built, Hsmtp, Htest by done. cbn -[deliver].
    unfold store_caught. by destruct (e_store e n). }
  rewrite (Hcyc w Hu). cbn [snd]. rewrite (Hcyc (deliver n out w)) by by rewrite unseen_deliver.
  cbn. by rewrite <- app_assoc.
Qed.
End Duplicate.

(** ** Witnesses on the mailbox of [Orchestrator] *)

Definition demo_fetched (m : inbound) : fetched := parse_fetched (lit "1") m.

Lemma automated_message_answered_witness :
  w_outbox (process_message (demo_cfg false) (demo_env StoreRaise SmtpOk)
              (demo_fetched (demo_msg [(lit "Auto-Submitted", lit "auto-replied")])) (demo_world [])).2
  = w_outbox (demo_world []) ++ [(f_num (demo_fetched (demo_msg [(lit "Auto-Submitted", lit "auto-replied")])), demo_reply)]
  <-> e_store (demo_env StoreRaise SmtpOk) (f_num (demo_fetched (demo_msg [(lit "Auto-Submitted", lit "auto-replied")])))
      = StoreRaise.
Proof.
  apply (automated_message_answered (demo_cfg false) (demo_env StoreRaise SmtpOk)
           (demo_fetched (demo_msg [(lit "Auto-Submitted", lit "auto-replied")])) (demo_world [])
           (lit "contact@client.example") demo_reply);
    vm_compute; try reflexivity; discriminate.
Defined.

Lemma test_mode_marks_answered_witness :
  (process_message (demo_cfg true) (demo_env StoreOk SmtpOk) (demo_fetched (demo_msg [])) (demo_world [])).1
  = Some Sent
  /\ w_outbox (process_message (demo_cfg true) (demo_env StoreOk SmtpOk) (demo_fetched (demo_msg []))
                 (demo_world [])).2 = w_outbox (demo_world [])
  /\ Answered ∈ flags_of (process_message (demo_cfg true) (demo_env StoreOk SmtpOk)
                           (demo_fetched (demo_msg [])) (demo_world [])).2
                 (f_num (demo_fetched (demo_msg []))).
Proof.
  apply (test_mode_marks_answered (demo_cfg true) (demo_env StoreOk SmtpOk) (demo_fetched (demo_msg []))
           (demo_world []) (lit "contact@client.example") demo_reply);
    vm_compute; try reflexivity; discriminate.
Defined.

Lemma quit_failure_after_delivery_witness :
  (process_message (demo_cfg false) (demo_env StoreOk SmtpFailAfterDelivery) (demo_fetched (demo_msg []))
     (demo_world [])).1 = Some SendFailed
  /\ w_outbox (process_message (demo_cfg false) (demo_env StoreOk SmtpFailAfterDelivery)
                 (demo_fetched (demo_msg [])) (demo_world [])).2
     = w_outbox (demo_world []) ++ [(f_num (demo_fetched (demo_msg [])), demo_reply)]
  /\ (Answered ∈ flags_of (process_message (demo_cfg false) (demo_env StoreOk SmtpFailAfterDelivery)
                            (demo_fetched (demo_msg [])) (demo_world [])).2
                  (f_num (demo_fetched (demo_msg [])))
      <-> Answered ∈ flags_of (demo_world []) (f_num (demo_fetched (demo_msg [])))).
Proof.
  apply (quit_failure_after_delivery (demo_cfg false) (demo_env StoreOk SmtpFailAfterDelivery)
           (demo_fetched (demo_msg [])) (demo_world []) (lit "contact@client.example") demo_reply);
    vm_compute; try reflexivity; discriminate.
Defined.

Lemma smtp_crash_aborts_cycle_witness :
  process_all (demo_cfg false) (demo_env StoreOk SmtpCrash) [demo_fetched (demo_msg []);
                                                             parse_fetched (lit "2") (demo_msg [])]
    (demo_world []) = ([], false, demo_world []).
Proof.
  apply (smtp_crash_aborts_cycle (demo_cfg false) (demo_env StoreOk SmtpCrash) (demo_fetched (demo_msg []))
           (demo_world []) (lit "contact@client.example") demo_reply);
    vm_compute; try reflexivity; discriminate.
Defined.

Definition multiline_msg : inbound :=
  Inbound (Message [(lit "From", lit "Client <client@mail.example>");
                    (lit "Subject", lit "Quote" ++ nl ++ lit "urgent")])
          (Leaf (lit "text/plain") (Some demo_body) None).

Lemma multiline_subject_aborts_cycle_witness :
  process_all (demo_cfg true) (demo_env StoreOk SmtpOk)
    [demo_fetched multiline_msg; parse_fetched (lit "2") (demo_msg [])] (demo_world [])
  = ([], false, demo_world []).
Proof.
  apply (multiline_subject_aborts_cycle (demo_cfg true) (demo_env StoreOk SmtpOk) (demo_fetched multiline_msg)
           (demo_world []) (lit "contact@client.example")
           (default demo_reply (compose_reply (demo_cfg true) (f_raw (demo_fetched multiline_msg))
                                  (f_subject (demo_fetched multiline_msg)) (lit "contact@client.example"))));
    vm_compute; try reflexivity; discriminate.
Defined.

Lemma non_text_body_aborts_cycle_witness :
  process_all (demo_cfg false) (demo_env StoreOk SmtpOk)
    [parse_fetched (lit "1") (Inbound (demo_headers []) (Leaf (lit "application/pdf") (Some (lit "%PDF-1.4")) None));
     parse_fetched (lit "2") (demo_msg [])] (demo_world [])
  = ([], false, demo_world []).
Proof.
  apply (non_text_body_aborts_cycle (demo_cfg false) (demo_env StoreOk SmtpOk) (lit "1")
           (Inbound (demo_headers []) (Leaf (lit "application/pdf") (Some (lit "%PDF-1.4")) None))
           _ _ (lit "application/pdf") (lit "%PDF-1.4") None); try reflexivity.
  - vm_compute. set_solver.
  - discriminate.
Defined.

Lemma duplicate_replies_without_seen_witness :
  w_outbox (auto_reply_if_business false (demo_cfg false) (demo_env StoreRaise SmtpOk)
              (auto_reply_if_business false (demo_cfg false) (demo_env StoreRaise SmtpOk)
                 (demo_world [(lit "1", demo_msg [])])).2).2
  = w_outbox (demo_world [(lit "1", demo_msg [])]) ++ [(lit "1", demo_reply); (lit "1", demo_reply)].
Proof.
  apply (duplicate_replies_without_seen (demo_cfg false) (demo_env StoreRaise SmtpOk)
           (demo_world [(lit "1", demo_msg [])]) (lit "1") (demo_msg []) (lit "contact@client.example")
           demo_reply); vm_compute; try reflexivity; discriminate.
Defined.
