(* ===== verification/Loop.v ===== *)
(** * The polling loop: invariants of every run

    The main loop of lines 312-338 runs [auto_reply_if_business] again and
    again, catching whatever escapes it (lines 333-334), while new mail
    arrives: the relation [step] of [Orchestrator].  This file proves
    properties of every finite run ([rtc step]) by rule induction: every
    delivered reply is safe ([reply_safety]), [\Answered] implies
    [\Seen], test mode delivers nothing, and, when FETCH sets [\Seen] as
    RFC 3501 says, a failed flag connection loses the fetched messages for
    good while no message is ever answered twice ([at_most_one_reply]). *)

From S2P Require Import Prelude Regex Patterns Extract Classifier BodyText Reply Orchestrator.

(** ** Invariants of the polling loop *)

Lemma flags_of_arrive w n m k :
  flags_of (World (w_msgs w ++ [(n, m)]) (delete n (w_flags w)) (w_outbox w)) k
  = if bool_decide (n = k) then ∅ else flags_of w k.
Proof.
  unfold flags_of. simpl. case_bool_decide; subst.
  - by rewrite lookup_delete_eq.
  - by rewrite lookup_delete_ne.
Qed.

Section LoopInvariants.
Context `{EmailUtils} (fss : bool) (cfg : config).

(** Every delivered reply answers a message of the INBOX, goes to the
    address extracted from its body, which is not the account's own, and
    was built into a message (lines 158-164). *)
Definition replies_ok (w : world) : Prop :=
  forall n out, In (n, out) (w_outbox w) ->
    exists m be, In (n, m) (w_msgs w) /\ out_to out = [be]
      /\ extract_from_body (get_text_from_message (in_mime m)) = Some (Some be)
      /\ lower be <> lower (cfg_username cfg) /\ build_message out <> None.

Lemma replies_ok_step w w' : step fss cfg w w' -> replies_ok w -> replies_ok w'.
Proof.
  intros [e w0|w0 n0 m0 Hfresh] Hw.
  - destruct (auto_reply_outbox fss cfg e w0) as (extra & Hx & _ & Hall).
    destruct (auto_reply_wle fss cfg e w0) as (Hm & _ & _).
    intros n out Hin. rewrite Hx in Hin. apply in_app_or in Hin as [Hin|Hin].
    + destruct (Hw n out Hin) as (m & be & ?). exists m, be. by rewrite Hm.
    + destruct (Hall (n, out) Hin) as (m & be & Hu & Hbe & Hne & Hc & Hb).
      apply unseen_in in Hu as [Hmsg _]. exists m, be. rewrite Hm.
      split; [done|]. split; [by apply compose_reply_to in Hc as []|]. done.
  - intros n out Hin. simpl in Hin. destruct (Hw n out Hin) as (m & be & Hmsg & ?).
    exists m, be. simpl. split; [apply in_or_app; by left|done].
Qed.

Lemma rtc_invariant (P : world -> Prop) w w' :
  (forall a b, step fss cfg a b -> P a -> P b) -> rtc (step fss cfg) w w' -> P w -> P w'.
Proof. intros Hstep Hr. induction Hr as [|a b c Hab _ IH]; eauto. Qed.

Lemma answered_seen_step w w' : step fss cfg w w' -> answered_seen w -> answered_seen w'.
Proof.
  intros [e w0|w0 n0 m0 Hfresh] Hw; [by apply auto_reply_answered_seen|].
  intros k. rewrite !flags_of_arrive. case_bool_decide; [set_solver|apply Hw].
Qed.

Lemma process_message_test_mode e f w :
  cfg_test_mode cfg = true -> w_outbox (process_message cfg e f w).2 = w_outbox w.
Proof.
  intros Ht. unfold process_message, process_after_check, store_or_raise, store_caught,
    send_email_smtp, session_result.
  rewrite Ht. simpl. repeat (case_match || case_bool_decide); simplify_eq/=; done.
Qed.

Lemma process_all_test_mode e fs w :
  cfg_test_mode cfg = true -> w_outbox (process_all cfg e fs w).2 = w_outbox w.
Proof.
  intros Ht. revert w. induction fs as [|f fs IH]; intros w; simpl; [done|].
  pose proof (process_message_test_mode e f w Ht) as Hp.
  destruct (process_message cfg e f w) as [[o|] w'] eqn:E; simpl in *; [|done].
  specialize (IH w'). destruct (process_all cfg e fs w') as [[os ok] w'']. simpl in *. congruence.
Qed.
End LoopInvariants.

Section LoopTheorems.
Context `{EmailUtils} (fss : bool) (cfg : config).

Lemma replies_ok_reachable w0 w :
  w_outbox w0 = [] -> rtc (step fss cfg) w0 w -> replies_ok cfg w.
Proof.
  intros H0 Hr. apply (rtc_invariant fss cfg _ w0 w); [apply replies_ok_step|done|].
  intros n out. rewrite H0. done.
Qed.

(** C2: Safety of the loop: from a start with nothing delivered, every reply
    the program ever delivers answers a message of the INBOX, goes to a
    single address of the shape local@domain.tld that occurs in that
    message's body text (a [str]: no reply comes out of a [bytes] body),
    and never to the account's own address. *)
Theorem reply_safety w0 w :
  w_outbox w0 = [] -> rtc (step fss cfg) w0 w ->
  forall n out, In (n, out) (w_outbox w) ->
    exists m be s, In (n, m) (w_msgs w) /\ out_to out = [be] /\ email_shape be
      /\ get_text_from_message (in_mime m) = BodyStr s /\ infix_of be s
      /\ lower be <> lower (cfg_username cfg).
Proof.
  intros H0 Hr n out Hin.
  destruct (replies_ok_reachable w0 w H0 Hr n out Hin) as (m & be & Hm & Hto & Hbe & Hne & _).
  apply extract_from_body_Some in Hbe as (s & Hs & Hbe).
  apply extract_sound in Hbe as [Hsh Hinf]. exists m, be, s. done.
Qed.

(** C14: [\Answered] is never set without [\Seen]: the invariant holds in
    every state the loop reaches from a state where it holds. *)
Theorem answered_implies_seen w0 w :
  answered_seen w0 -> rtc (step fss cfg) w0 w -> answered_seen w.
Proof. intros H0 Hr. by apply (rtc_invariant fss cfg _ w0 w); [apply answered_seen_step| |]. Qed.

(** C15: The branch of lines 261-264 (extracted address rejected by
    [EMAIL_RE]) is dead: no message ends Skipped-InvalidAddress. *)
Theorem process_message_never_invalid e f w :
  (process_message cfg e f w).1 <> Some SkippedInvalidAddress.
Proof.
  assert (Hrest : (process_after_check cfg e f w).1 <> Some SkippedInvalidAddress).
  { unfold process_after_check, store_or_raise, store_caught.
    destruct (extract_from_body (f_body f)) as [[be|]|] eqn:Hbe; [|by case_match|done].
    apply extract_from_body_Some in Hbe as (s & _ & Hbe).
    rewrite (extract_is_email _ _ Hbe). simpl.
    repeat (case_match || case_bool_decide); simplify_eq/=; done. }
  unfold process_message. by repeat case_match.
Qed.

(** C19: In test mode nothing is ever delivered. *)
Theorem test_mode_never_delivers e w :
  cfg_test_mode cfg = true -> w_outbox (auto_reply_if_business fss cfg e w).2 = w_outbox w.
Proof.
  intros Ht. unfold auto_reply_if_business. pose proof (fetch_unseen_outbox fss e w) as Hf.
  destruct (fetch_unseen_messages fss e w) as [msgs w1]. simpl in *.
  destruct msgs as [|f fs]; [done|]. destruct (e_flag_connect e); [|done].
  by rewrite process_all_test_mode.
Qed.
End LoopTheorems.

(** ** RFC 3501 fetch semantics: a fetched message is Seen *)

Section FetchSeen.
Context `{EmailUtils}.

Lemma fetch_loop_all_ok fss e todo acc w :
  (forall k, e_fetch e k = FetchOk) ->
  (fetch_loop fss e todo acc w).1 = acc ++ ((fun nm => parse_fetched nm.1 nm.2) <$> todo).
Proof.
  intros Hok. revert acc w. induction todo as [|[n m] todo IH]; intros acc w; simpl.
  - by rewrite app_nil_r.
  - rewrite Hok, IH. by rewrite <- app_assoc.
Qed.

Lemma fetch_loop_marks e todo acc w n m :
  (forall k, e_fetch e k = FetchOk) -> In (n, m) todo ->
  Seen ∈ flags_of (fetch_loop true e todo acc w).2 n.
Proof.
  intros Hok. revert acc w. induction todo as [|[n' m'] todo IH]; intros acc w Hin; [done|].
  simpl. rewrite Hok. destruct Hin as [[= -> ->]|Hin]; [|by apply IH].
  destruct (fetch_loop_wle true e todo (acc ++ [parse_fetched n m]) (add_flags n {[Seen]} w))
    as (_ & Hf & _).
  apply Hf. rewrite flags_of_add_same. set_solver.
Qed.

(** With the fetch marking messages Seen, every message the loop fetched
    is Seen afterwards. *)
Lemma fetch_loop_seen e todo acc w f :
  In f (fetch_loop true e todo acc w).1 -> ~ In f acc ->
  Seen ∈ flags_of (fetch_loop true e todo acc w).2 (f_num f).
Proof.
  revert acc w. induction todo as [|[n m] todo IH]; intros acc w Hf Hacc; simpl in *; [done|].
  destruct (e_fetch e n); [|by apply IH|done|done].
  destruct (decide (f = parse_fetched n m)) as [->|Hne].
  - rewrite parse_fetched_num.
    destruct (fetch_loop_wle true e todo (acc ++ [parse_fetched n m]) (add_flags n {[Seen]} w))
      as (_ & Hfl & _).
    apply Hfl. rewrite flags_of_add_same. set_solver.
  - apply IH; [done|]. intros [Hin|[Heq|[]]]%in_app_or; [done|]. by subst.
Qed.
End FetchSeen.

Section RfcTheorems.
Context `{EmailUtils} (cfg : config).

Lemma in_msgs_fst w n m : In (n, m) (w_msgs w) -> n ∈ (w_msgs w).*1.
Proof. intros Hin. apply list_elem_of_In in Hin. by apply (list_elem_of_fmap_2 fst) in Hin. Qed.

(** Once a message is Seen, no later cycle answers it. *)
Definition never_answered_after (n : text) (base : list (text * outgoing)) (w : world) : Prop :=
  Seen ∈ flags_of w n /\ n ∈ (w_msgs w).*1
  /\ forall out, In (n, out) (w_outbox w) -> In (n, out) base.

Lemma never_answered_after_step n base fss a b :
  step fss cfg a b -> never_answered_after n base a -> never_answered_after n base b.
Proof.
  intros [e w0|w0 n0 m0 Hfresh] (Hseen & Hmsg & Hout).
  - destruct (auto_reply_outbox fss cfg e w0) as (extra & Hx & _ & Hall).
    destruct (auto_reply_wle fss cfg e w0) as (Hm & Hfl & _).
    split; [by apply Hfl|]. split; [by rewrite Hm|].
    intros out Hin. rewrite Hx in Hin. apply in_app_or in Hin as [Hin|Hin]; [by apply Hout|].
    destruct (Hall (n, out) Hin) as (m & be & Hu & _). apply unseen_in in Hu as [_ Hns].
    done.
  - split; [rewrite flags_of_arrive; case_bool_decide; [subst; done|done]|].
    split; [simpl; rewrite fmap_app; set_solver|done].
Qed.

(** C20: With RFC 3501 fetch semantics, when the second IMAP connection (lines
    229-234) fails, every unseen message was already marked Seen by its
    FETCH and gets no reply; no later cycle fetches it again, so it is
    never answered, although spec section 4.5 says it is retried on the
    next tick. *)
Theorem flag_connect_failure_drops e w n m :
  e_fetch_connect e = true -> e_search_ok e = true -> (forall k, e_fetch e k = FetchOk) ->
  e_flag_connect e = false -> In (n, m) (unseen w) ->
  let w' := (auto_reply_if_business true cfg e w).2 in
  Seen ∈ flags_of w' n /\ w_outbox w' = w_outbox w
  /\ forall w'', rtc (step true cfg) w' w'' ->
       forall out, In (n, out) (w_outbox w'') -> In (n, out) (w_outbox w).
Proof.
  intros Hc Hs Hok Hfc Hu w'.
  assert (Hw' : w' = (fetch_loop true e (unseen w) [] w).2).
  { subst w'. unfold auto_reply_if_business, fetch_unseen_messages. rewrite Hc, Hs. simpl.
    pose proof (fetch_loop_all_ok true e (unseen w) [] w Hok) as Hall.
    destruct (fetch_loop true e (unseen w) [] w) as [msgs w1]. simpl in *. subst msgs.
    destruct (unseen w) as [|x xs]; [done|]. simpl. by rewrite Hfc. }
  assert (Hseen : Seen ∈ flags_of w' n) by (rewrite Hw'; by eapply fetch_loop_marks).
  assert (Hout : w_outbox w' = w_outbox w) by (rewrite Hw'; apply fetch_loop_outbox).
  split; [done|]. split; [done|].
  intros w'' Hr out Hin.
  assert (Hinv : never_answered_after n (w_outbox w) w'').
  { apply (rtc_invariant true cfg _ w' w''); [intros; by eapply never_answered_after_step|done|].
    split; [done|]. split.
    - destruct (auto_reply_wle true cfg e w) as (Hm & _). subst w'. rewrite Hm.
      apply unseen_in in Hu as [Hmsg _]. by eapply in_msgs_fst.
    - by rewrite Hout. }
  by apply Hinv.
Qed.
End RfcTheorems.

Section AtMostOnce.
Context `{EmailUtils} (cfg : config).

Lemma fetch_loop_nums fss e todo acc w :
  exists l, (fetch_loop fss e todo acc w).1 = acc ++ l /\ (f_num <$> l) `sublist_of` todo.*1.
Proof.
  revert acc w. induction todo as [|[n m] todo IH]; intros acc w; simpl.
  - exists []. rewrite app_nil_r. split; [done|constructor].
  - destruct (e_fetch e n).
    + destruct (IH (acc ++ [parse_fetched n m]) (if fss then add_flags n {[Seen]} w else w))
        as (l & Hl & Hsub).
      exists (parse_fetched n m :: l). rewrite Hl, <- app_assoc. split; [done|].
      simpl. rewrite parse_fetched_num. by apply sublist_skip.
    + destruct (IH acc w) as (l & Hl & Hsub). exists l. split; [done|]. by apply sublist_cons.
    + exists []. rewrite app_nil_r. split; [done|apply sublist_nil_l].
    + exists []. rewrite app_nil_r. split; [done|apply sublist_nil_l].
Qed.

Lemma fetch_unseen_nums fss e w : (f_num <$> (fetch_unseen_messages fss e w).1) `sublist_of` (w_msgs w).*1.
Proof.
  unfold fetch_unseen_messages. destruct (_ && _); [|apply sublist_nil_l].
  destruct (fetch_loop_nums fss e (unseen w) [] w) as (l & -> & Hsub). simpl.
  etrans; [exact Hsub|]. unfold unseen. apply fmap_sublist, sublist_filter.
Qed.

Lemma fetch_unseen_seen e w f :
  In f (fetch_unseen_messages true e w).1 -> Seen ∈ flags_of (fetch_unseen_messages true e w).2 (f_num f).
Proof.
  unfold fetch_unseen_messages. destruct (_ && _); [|done].
  intros Hf. apply fetch_loop_seen; [done|]. by intros [].
Qed.

Lemma auto_reply_after_fetch fss e w :
  wle (fetch_unseen_messages fss e w).2 (auto_reply_if_business fss cfg e w).2.
Proof.
  unfold auto_reply_if_business. destruct (fetch_unseen_messages fss e w) as [msgs w1]. simpl.
  destruct msgs; [done|]. destruct (e_flag_connect e); [apply process_all_wle|done].
Qed.

(** No message number twice in the INBOX or among the answered ones, and
    every answered message is in the INBOX and Seen. *)
Definition once_inv (w : world) : Prop :=
  NoDup (w_msgs w).*1 /\ NoDup (w_outbox w).*1
  /\ forall n, n ∈ (w_outbox w).*1 -> Seen ∈ flags_of w n /\ n ∈ (w_msgs w).*1.
Lemma fst_in_msgs w n m : In (n, m) (w_msgs w) -> n ∈ (w_msgs w).*1.
Proof. intros Hin. apply list_elem_of_fmap. exists (n, m). by rewrite list_elem_of_In. Qed.

Lemma once_inv_cycle e w : once_inv w -> once_inv (auto_reply_if_business true cfg e w).2.
Proof.
  intros (Hm & Ho & Hs).
  destruct (auto_reply_wle true cfg e w) as (Hmsgs & Hfl & _).
  destruct (auto_reply_after_fetch true e w) as (_ & Hfl2 & _).
  destruct (auto_reply_outbox true cfg e w) as (extra & Hout & Hsub & Hx).
  assert (Hnew : forall n, n ∈ extra.*1 ->
    Seen ∈ flags_of (auto_reply_if_business true cfg e w).2 n
    /\ n ∈ (w_msgs w).*1 /\ Seen ∉ flags_of w n).
  { intros n Hn. split.
    - apply (elem_of_sublist _ _ _ Hn), list_elem_of_fmap in Hsub as (f & -> & Hf).
      apply Hfl2, fetch_unseen_seen. by apply list_elem_of_In.
    - apply list_elem_of_fmap in Hn as ([n' out] & -> & Hin).
      apply list_elem_of_In, Hx in Hin as (m & _ & Hu & _).
      apply unseen_in in Hu as [Hin Hns]. split; [|done]. by eapply fst_in_msgs. }
  split; [by rewrite Hmsgs|]. rewrite Hout, fmap_app. split.
  - apply NoDup_app. split; [done|]. split.
    + intros n Hn Hn'. destruct (Hnew n Hn') as (_ & _ & Hns). by apply Hns, Hs.
    + eapply sublist_NoDup; [|exact Hsub].
      eapply sublist_NoDup; [exact Hm|apply fetch_unseen_nums].
  - intros n [Hn|Hn]%elem_of_app; rewrite Hmsgs.
    + destruct (Hs n Hn) as [Hseen Hin]. split; [by apply Hfl|done].
    + by destruct (Hnew n Hn) as (? & ? & _).
Qed.

Lemma once_inv_step w w' : step true cfg w w' -> once_inv w -> once_inv w'.
Proof.
  intros [e w0|w0 n0 m0 Hfresh]; [apply once_inv_cycle|].
  intros (Hm & Ho & Hs). unfold once_inv. cbn [w_msgs w_outbox]. rewrite fmap_app. split; [|split; [done|]].
  - apply NoDup_app. split; [done|]. split; [|apply NoDup_singleton].
    intros n Hn ->%list_elem_of_singleton. done.
  - intros n Hn. destruct (Hs n Hn) as [Hseen Hin].
    rewrite flags_of_arrive. case_bool_decide; [by subst|].
    split; [done|]. apply elem_of_app. by left.
Qed.
End AtMostOnce.

Section AtMostOnceTheorem.
Context `{EmailUtils} (cfg : config).

(** C3: At most one reply per message (spec section 9).  When fetching a
    message sets [\Seen] (RFC 3501 [FETCH RFC822]), from a start with
    distinct message numbers and nothing delivered, no run of the loop,
    with any interleaving of cycles and arrivals and any failures of the
    servers, ever delivers two replies to the same message number. *)
Theorem at_most_one_reply w0 w :
  NoDup (w_msgs w0).*1 -> w_outbox w0 = [] -> rtc (step true cfg) w0 w ->
  NoDup (w_outbox w).*1.
Proof.
  intros Hm Ho Hr. enough (Hi : once_inv w) by apply Hi.
  apply (rtc_invariant true cfg _ w0 w); [apply once_inv_step|done|].
  split; [done|]. rewrite Ho. split; [constructor|]. intros n Hn. set_solver.
Qed.
End AtMostOnceTheorem.

Lemma reply_safety_witness :
  In (lit "1", demo_reply)
    (w_outbox (auto_reply_if_business false (demo_cfg false) (demo_env StoreOk SmtpOk)
                 (demo_world [(lit "1", demo_msg [])])).2)
  /\ exists m be s,
      In (lit "1", m) (w_msgs (auto_reply_if_business false (demo_cfg false) (demo_env StoreOk SmtpOk)
                                 (demo_world [(lit "1", demo_msg [])])).2)
      /\ out_to demo_reply = [be] /\ email_shape be
      /\ get_text_from_message (in_mime m) = BodyStr s /\ infix_of be s
      /\ lower be <> lower (cfg_username (demo_cfg false)).
Proof.
  assert (Hin : In (lit "1", demo_reply)
    (w_outbox (auto_reply_if_business false (demo_cfg false) (demo_env StoreOk SmtpOk)
                 (demo_world [(lit "1", demo_msg [])])).2)) by (vm_compute; left; reflexivity).
  split; [exact Hin|].
  apply (reply_safety false (demo_cfg false) (demo_world [(lit "1", demo_msg [])])); [reflexivity| |exact Hin].
  apply rtc_once, step_cycle.
Defined.

Lemma answered_implies_seen_witness :
  answered_seen (auto_reply_if_business false (demo_cfg false) (demo_env StoreOk SmtpOk)
                   (demo_world [(lit "1", demo_msg [])])).2.
Proof.
  apply (answered_implies_seen false (demo_cfg false) (demo_world [(lit "1", demo_msg [])]));
    [|apply rtc_once, step_cycle].
  intros n. vm_compute. discriminate.
Defined.

Lemma flag_connect_failure_drops_witness :
  let w' := (auto_reply_if_business true (demo_cfg false)
               (Env true true (fun _ => FetchOk) false (fun _ => StoreOk) (fun _ => SmtpOk))
               (demo_world [(lit "1", demo_msg [])])).2 in
  Seen ∈ flags_of w' (lit "1") /\ w_outbox w' = w_outbox (demo_world [(lit "1", demo_msg [])])
  /\ forall w'', rtc (step true (demo_cfg false)) w' w'' ->
       forall out, In (lit "1", out) (w_outbox w'') ->
         In (lit "1", out) (w_outbox (demo_world [(lit "1", demo_msg [])])).
Proof.
  apply (flag_connect_failure_drops (demo_cfg false) _ _ (lit "1") (demo_msg [])); try reflexivity.
  - vm_compute. by left.
Defined.

Lemma test_mode_never_delivers_witness :
  w_outbox (auto_reply_if_business false (demo_cfg true) (demo_env StoreOk SmtpOk)
              (demo_world [(lit "1", demo_msg [])])).2 = [].
Proof.
  apply (test_mode_never_delivers false (demo_cfg true) (demo_env StoreOk SmtpOk)
           (demo_world [(lit "1", demo_msg [])])).
  reflexivity.
Defined.

Lemma at_most_one_reply_witness :
  NoDup (w_outbox (auto_reply_if_business true (demo_cfg false) (demo_env StoreRaise SmtpOk)
                     (demo_world [(lit "1", demo_msg []); (lit "2", demo_msg [])])).2).*1.
Proof.
  apply (at_most_one_reply (demo_cfg false) (demo_world [(lit "1", demo_msg []); (lit "2", demo_msg [])])).
  - vm_compute. apply NoDup_cons_2; [|apply NoDup_singleton]. by intros ?%list_elem_of_singleton.
  - reflexivity.
  - apply rtc_once, step_cycle.
Defined.
