(* ===== verification/Logging.v ===== *)
(** * The logging level (lines 27 and 45-47)

    Line 27 reads [LOG_LEVEL] (default ["INFO"]) and lines 46-47 call
    [logging.basicConfig(level=getattr(logging, LOG_LEVEL.upper(),
    logging.INFO), ...)] at import.  [getattr] looks the upper-cased text up
    among the attributes of the [logging] module; [basicConfig] hands the
    value to [Logger.setLevel], whose [_checkLevel] takes an [int] as it is,
    a [str] through the table [_nameToLevel] ([ValueError] for any other
    string) and raises [TypeError] for anything else.  An exception there
    escapes the import, so the program never starts.

    [logging_upper_attrs] lists the attributes of [logging] (CPython 3.11)
    whose name is its own upper case; [str.upper] always returns such a
    name, so these are the only ones the lookup can hit.  What the records
    logged later print is output only and is not modelled. *)

From S2P Require Import Prelude.
From Stdlib Require Import ZArith.

Open Scope Z_scope.

(** [str.upper] on one Latin-1 code point: ASCII and Latin-1 small letters
    (U+00E0..U+00FE but the division sign U+00F7) move down by 32 and the
    sharp s U+00DF becomes ["SS"]; MICRO SIGN and U+00FF, whose capitals lie
    above U+00FF, are kept (they are not ASCII either way). *)
Definition upper_char (c : ascii) : text :=
  let n := nat_of_ascii c in
  if is_lower c || ((224 <=? n)%nat && (n <=? 254)%nat && negb (n =? 247)%nat)
  then [ascii_of_nat (n - 32)]
  else if (n =? 223)%nat then lit "SS" else [c].

Definition py_upper (s : text) : text := flat_map upper_char s.

(** Association-list lookup, first binding first. *)
Fixpoint assoc {A} (k : text) (l : list (text * A)) : option A :=
  match l with
  | [] => None
  | (k', v) :: l' => if bool_decide (k' = k) then Some v else assoc k l'
  end.

(** The values [getattr] can return here. *)
Inductive py_value := PyInt (z : Z) | PyStr (s : text) | PyDict.

(** The exceptions [_checkLevel] raises. *)
Inductive py_exn := ValueError | TypeError.

Definition CRITICAL : Z := 50.
Definition ERROR : Z := 40.
Definition WARNING : Z := 30.
Definition INFO : Z := 20.
Definition DEBUG : Z := 10.
Definition NOTSET : Z := 0.

Definition BASIC_FORMAT : text := lit "%(levelname)s:%(name)s:%(message)s".

(** [logging._nameToLevel] *)
Definition name_to_level : list (text * Z) :=
  [(lit "CRITICAL", CRITICAL); (lit "FATAL", CRITICAL); (lit "ERROR", ERROR);
   (lit "WARN", WARNING); (lit "WARNING", WARNING); (lit "INFO", INFO);
   (lit "DEBUG", DEBUG); (lit "NOTSET", NOTSET)].

(** The attributes of [logging] named by their own upper case: the level
    constants (with the aliases [FATAL] and [WARN]), [BASIC_FORMAT] and the
    dictionary [_STYLES]. *)
Definition logging_upper_attrs : list (text * py_value) :=
  [(lit "BASIC_FORMAT", PyStr BASIC_FORMAT); (lit "CRITICAL", PyInt CRITICAL);
   (lit "DEBUG", PyInt DEBUG); (lit "ERROR", PyInt ERROR); (lit "FATAL", PyInt CRITICAL);
   (lit "INFO", PyInt INFO); (lit "NOTSET", PyInt NOTSET); (lit "WARN", PyInt WARNING);
   (lit "WARNING", PyInt WARNING); (lit "_STYLES", PyDict)].

(** [getattr(logging, name, dflt)] for a name equal to its upper case. *)
Definition logging_getattr (name : text) (dflt : py_value) : py_value :=
  default dflt (assoc name logging_upper_attrs).

(** [logging._checkLevel]: the level, or the exception it raises. *)
Definition checkLevel (v : py_value) : py_exn + Z :=
  match v with
  | PyInt z => inr z
  | PyStr s => match assoc s name_to_level with Some z => inr z | None => inl ValueError end
  | PyDict => inl TypeError
  end.

(** Lines 46-47: the level [basicConfig] gives the root logger, or the
    exception that aborts the import. *)
Definition configure_logging (log_level : text) : py_exn + Z :=
  checkLevel (logging_getattr (py_upper log_level) (PyInt INFO)).

(** ** Lemmas *)

Lemma upper_char_lower c : upper_char (to_lower c) = upper_char c.
Proof. revert c. by_all_chars. Qed.

Lemma py_upper_lower s : py_upper (lower s) = py_upper s.
Proof.
  unfold py_upper, lower. induction s as [|c s IH]; [done|]. simpl.
  by rewrite upper_char_lower, IH.
Qed.

Lemma assoc_Some {A} k (l : list (text * A)) v : assoc k l = Some v -> In (k, v) l.
Proof.
  induction l as [|[k' v'] l IH]; [done|]. cbn [assoc].
  case_bool_decide as Hk; [intros [= <-]; subst; by left|]. intros Ha. right. by apply IH.
Qed.

Lemma assoc_None {A} k (l : list (text * A)) : assoc k l = None -> k ∉ l.*1.
Proof.
  induction l as [|[k' v'] l IH]; [set_solver|]. cbn [assoc].
  case_bool_decide as Hk; [done|]. intros Ha. rewrite fmap_cons, elem_of_cons. naive_solver.
Qed.

(** C22: The logging level of lines 27 and 46-47: [LOG_LEVEL] is read
    case-insensitively; the result is a level of [_nameToLevel] for the
    names of that table, [ValueError] when the upper case is
    [BASIC_FORMAT] and [TypeError] when it is [_STYLES] (both abort the
    import, so the program never starts), and [INFO] for every other
    value, a misspelling or surrounding spaces included, with no warning. *)
Theorem configure_logging_cases L :
  configure_logging (lower L) = configure_logging L
  /\ match configure_logging L with
     | inr z => In (py_upper L, z) name_to_level \/ (z = INFO /\ py_upper L ∉ logging_upper_attrs.*1)
     | inl ValueError => py_upper L = lit "BASIC_FORMAT"
     | inl TypeError => py_upper L = lit "_STYLES"
     end.
Proof.
  split; [unfold configure_logging; by rewrite py_upper_lower|].
  unfold configure_logging, logging_getattr. generalize (py_upper L) as u. intros u.
  destruct (assoc u logging_upper_attrs) as [v|] eqn:Ha; cbn [default].
  - apply assoc_Some in Ha. repeat destruct Ha as [[= <- <-]|Ha]; [..|done];
      vm_compute; first [reflexivity | left; repeat (first [left; reflexivity | right])].
  - right. split; [done|]. by apply assoc_None.
Qed.

(** What lines 46-47 make of some values of [LOG_LEVEL]. *)
Example configure_logging_examples :
  configure_logging (lit "debug") = inr DEBUG /\ configure_logging (lit "Warn") = inr WARNING
  /\ configure_logging (lit "info ") = inr INFO /\ configure_logging (lit "verbose") = inr INFO
  /\ configure_logging (lit "basic_format") = inl ValueError
  /\ configure_logging (lit "_styles") = inl TypeError.
Proof. vm_compute. repeat split. Qed.
