(* ===== verification/Refinement.v ===== *)
(** * The cycle refines the per-message state machine of spec section 4.5

    [spec_outcome] is the table of spec section 4.5: a message ends
    Skipped-Automated, Skipped-NoAddress, Skipped-InvalidAddress,
    Skipped-SelfLoop, Sent or SendFailed, and is flagged [\Seen], or
    [\Seen] and [\Answered] when Sent.  [process_message_spec] shows that
    one iteration of the loop of lines 236-305 implements that table when the
    STORE answers OK, the SMTP session does not raise past
    [send_email_smtp], the body reaches [extract_business_email] as a [str] and the reply's
    headers are single lines ([replyable]); [cycle_refines] lifts it to a whole call of
    [auto_reply_if_business] with working servers: every unseen message is
    processed once, in INBOX order, with the outcome and the flags the spec
    prescribes. *)

From S2P Require Import Prelude Patterns Extract Classifier BodyText Reply Orchestrator Loop.

Section Spec.
Context `{EmailUtils} (cfg : config).

(** Spec section 4.5: the state a message ends in, from the classifier's
    answer, the extracted address and whether transmission succeeded. *)
Definition spec_outcome (automated : bool) (addr : option text) (transmitted : bool) : outcome :=
  if automated then SkippedAutomated
  else match addr with
       | None => SkippedNoAddress
       | Some a =>
           if negb (is_email a) then SkippedInvalidAddress
           else if bool_decide (lower a = lower (cfg_username cfg)) then SkippedSelfLoop
           else if transmitted then Sent else SendFailed
       end.

(** The flags spec section 4.5 sets for each final state. *)
Definition spec_flags (o : outcome) : gset flag :=
  match o with Sent => {[Answered; Seen]} | _ => {[Seen]} end.

(** Whether [send_email_smtp] reports success for the reply to [n]. *)
Definition transmitted (e : env) (n : text) : bool :=
  bool_decide (returned (session_result (cfg_test_mode cfg) (e_smtp e n)) = Some true).

Definition spec_of (e : env) (f : fetched) : outcome :=
  spec_outcome (is_auto_generated (f_raw f)) (default None (extract_from_body (f_body f)))
    (transmitted e (f_num f)).

(** The message is in the domain of the spec's table: its body reaches
    [extract_business_email] as a [str] (a non-empty [bytes] body, from a
    single-part message that is not text, raises [TypeError] at line 189),
    and the reply to it can be built: its subject, its sender and the
    [Message-ID] it answers are single lines (lines 159-163). *)
Definition replyable (f : fetched) : bool :=
  bool_decide (extract_from_body (f_body f) <> None)
  && header_value_ok (cfg_subject_prefix cfg ++ f_subject f) && header_value_ok (cfg_username cfg)
  && reference_ok (msg_get (f_raw f) (lit "Message-ID")).

(** The servers answer as they should for the message numbered [n]. *)
Definition well_behaved (e : env) (n : text) : Prop :=
  e_store e n = StoreOk /\ e_smtp e n <> SmtpCrash.
End Spec.

Section SpecFacts.
Context `{EmailUtils} (cfg : config).
Hypothesis Htemplate : cfg_body_template cfg = REPLY_BODY_TEMPLATE.

(** Adding [fs] at [n] as a pointwise description of the flags. *)
Definition flags_after (w : world) (n : text) (fs : gset flag) (k : text) : gset flag :=
  if bool_decide (n = k) then fs ∪ flags_of w n else flags_of w k.

Lemma shape_header_ok be : email_shape be -> header_value_ok be = true.
Proof.
  intros Hsh. unfold header_value_ok.
  rewrite splitlines_one_line; [done|by apply shape_nonempty|by apply shape_no_break].
Qed.

Lemma process_message_spec e f w :
  well_behaved e (f_num f) -> replyable cfg f = true ->
  (process_message cfg e f w).1 = Some (spec_of cfg e f)
  /\ w_msgs (process_message cfg e f w).2 = w_msgs w
  /\ forall k, flags_of (process_message cfg e f w).2 k
               = flags_after w (f_num f) (spec_flags (spec_of cfg e f)) k.
Proof.
  intros [Hst Hsm] Hrep. unfold flags_after, replyable in Hrep.
  apply andb_prop in Hrep as [[[Hbody Hsubj]%andb_prop Hfrom]%andb_prop Href].
  apply bool_decide_eq_true in Hbody.
  unfold process_message, process_after_check, store_or_raise, store_caught,
    spec_of, spec_outcome, transmitted.
  rewrite Hst.
  destruct (is_auto_generated (f_raw f)); [by setoid_rewrite flags_of_add|].
  destruct (extract_from_body (f_body f)) as [[be|]|] eqn:Hbe; [|by setoid_rewrite flags_of_add|done].
  apply extract_from_body_Some in Hbe as Hs. destruct Hs as (s & _ & Hs).
  destruct (extract_cons _ _ Hs) as (c & be' & ->). cbn [default from_option id].
  destruct (negb (is_email (c :: be'))); [by setoid_rewrite flags_of_add|].
  case_bool_decide; [by setoid_rewrite flags_of_add|].
  rewrite (compose_reply_default cfg) by done.
  rewrite send_email_smtp_built.
  2:{ apply build_message_ok; [done|done| |done].
      apply shape_header_ok. by apply extract_sound in Hs as []. }
  unfold session_result. destruct (cfg_test_mode cfg), (e_smtp e (f_num f)); try done;
    cbn -[add_flags deliver flags_of]; by setoid_rewrite flags_of_add.
Qed.

Lemma process_all_spec e fs w :
  (forall f, In f fs -> well_behaved e (f_num f) /\ replyable cfg f = true) ->
  (process_all cfg e fs w).1 = ((fun f => (f_num f, spec_of cfg e f)) <$> fs, true)
  /\ forall f, In f fs -> spec_flags (spec_of cfg e f) ⊆ flags_of (process_all cfg e fs w).2 (f_num f).
Proof.
  revert w. induction fs as [|f fs IH]; intros w Hwb; [done|]. cbn [process_all].
  destruct (Hwb f (or_introl eq_refl)) as [Hwf Hrf].
  destruct (process_message_spec e f w Hwf Hrf) as (Ho & _ & Hfl).
  destruct (process_message cfg e f w) as [r w'] eqn:E. simpl in Ho, Hfl. subst r.
  destruct (IH w') as [Hos Hsub]; [intros g Hg; apply Hwb; by right|].
  pose proof (process_all_wle cfg e fs w') as (_ & Hgrow & _).
  destruct (process_all cfg e fs w') as [[os ok] w'']. simpl in *. simplify_eq.
  split; [done|]. intros g [<-|Hg]; [|by apply Hsub].
  etrans; [|apply Hgrow]. rewrite Hfl. unfold flags_after. rewrite bool_decide_eq_true_2 by done.
  set_solver.
Qed.
End SpecFacts.

Section CycleRefinement.
Context `{EmailUtils} (fss : bool) (cfg : config).


Lemma cycle_spec e w :
  cfg_body_template cfg = REPLY_BODY_TEMPLATE ->
  e_fetch_connect e = true -> e_search_ok e = true -> (forall k, e_fetch e k = FetchOk) ->
  e_flag_connect e = true -> (forall k, well_behaved e k) ->
  (forall n m, In (n, m) (unseen w) -> replyable cfg (parse_fetched n m) = true) ->
  let '(os, ok, w') := auto_reply_if_business fss cfg e w in
  ok = true
  /\ os = (fun nm => (nm.1, spec_of cfg e (parse_fetched nm.1 nm.2))) <$> unseen w
  /\ forall n m, In (n, m) (unseen w) ->
       spec_flags (spec_of cfg e (parse_fetched n m)) ⊆ flags_of w' n.
Proof.
  intros Ht Hc Hs Hok Hfc Hwb Hrep. unfold auto_reply_if_business, fetch_unseen_messages.
  rewrite Hc, Hs. cbn [andb].
  pose proof (fetch_loop_all_ok fss e (unseen w) [] w Hok) as Hmsgs.
  destruct (fetch_loop fss e (unseen w) [] w) as [msgs w1]. simpl in Hmsgs. subst msgs.
  destruct (unseen w) as [|[n0 m0] u] eqn:Hu; [done|]. cbn [fmap list_fmap]. rewrite Hfc.
  destruct (process_all_spec cfg Ht e ((fun nm => parse_fetched nm.1 nm.2) <$> (n0, m0) :: u) w1)
    as [Hos Hfl].
  { intros f Hf. split; [apply Hwb|].
    apply list_elem_of_In, list_elem_of_fmap in Hf as ([n m] & -> & Hin).
    apply Hrep. by apply list_elem_of_In. }
  destruct (process_all cfg e _ w1) as [[os ok] w']. simpl in Hos. simplify_eq.
  split; [done|]. split.
  - f_equal; [by rewrite parse_fetched_num|]. rewrite <- list_fmap_compose.
    apply list_fmap_ext. intros _ [n m] _. simpl. by rewrite parse_fetched_num.
  - intros n m Hin. pose proof (Hfl (parse_fetched n m)) as Hx.
    rewrite (parse_fetched_num n m) in Hx. cbn [snd] in Hx. apply Hx.
    apply list_elem_of_In, list_elem_of_fmap. exists (n, m). split; [done|].
    by apply list_elem_of_In.
Qed.

(** C4: Refinement of spec section 4.5 by a whole cycle.  With the default
    template, when the IMAP connections open, the search and every FETCH
    answer OK, every STORE answers OK, no SMTP session raises past
    [send_email_smtp], and every unseen message is in the domain of the
    table ([replyable]: its body text is a [str], not the [bytes] of a
    single-part non-text message, and its reply's subject, sender and
    [Message-ID] are single lines), [auto_reply_if_business] returns
    normally, every unseen message is processed exactly once, in INBOX
    order, ending in the state the spec's table prescribes for it, and
    carries afterwards the flags the spec prescribes for that state. *)
Theorem cycle_refines e w :
  cfg_body_template cfg = REPLY_BODY_TEMPLATE ->
  e_fetch_connect e = true -> e_search_ok e = true -> (forall k, e_fetch e k = FetchOk) ->
  e_flag_connect e = true -> (forall k, well_behaved e k) ->
  (forall n m, In (n, m) (unseen w) -> replyable cfg (parse_fetched n m) = true) ->
  let '(os, ok, w') := auto_reply_if_business fss cfg e w in
  ok = true
  /\ os = (fun nm => (nm.1, spec_of cfg e (parse_fetched nm.1 nm.2))) <$> unseen w
  /\ forall n m, In (n, m) (unseen w) ->
       spec_flags (spec_of cfg e (parse_fetched n m)) ⊆ flags_of w' n.
Proof. apply cycle_spec. Qed.

End CycleRefinement.

Lemma cycle_refines_witness :
  let '(os, ok, w') :=
    auto_reply_if_business true (demo_cfg false) (demo_env StoreOk SmtpOk)
      (demo_world [(lit "1", demo_msg [])]) in
  ok = true
  /\ os = (fun nm => (nm.1, spec_of (demo_cfg false) (demo_env StoreOk SmtpOk) (parse_fetched nm.1 nm.2)))
           <$> unseen (demo_world [(lit "1", demo_msg [])])
  /\ forall n m, In (n, m) (unseen (demo_world [(lit "1", demo_msg [])])) ->
       spec_flags (spec_of (demo_cfg false) (demo_env StoreOk SmtpOk) (parse_fetched n m)) ⊆ flags_of w' n.
Proof.
  apply (cycle_refines true (demo_cfg false) (demo_env StoreOk SmtpOk)); try reflexivity.
  - intros k. split; [reflexivity|discriminate].
  - intros n m Hin. vm_compute in Hin. destruct Hin as [[= <- <-]|[]]. reflexivity.
Defined.

