(* ===== verification/Main.v ===== *)
(** * Start-up and the main loop (lines 15-47 and 312-338)

    At import, lines 18-27 read the process environment (after
    [load_dotenv], which only adds variables) with [os.getenv] and convert
    the ports and the poll interval with [int()]; a value [int()] refuses
    raises [ValueError] and the program never starts.  [py_int] is
    [int()] on a [str] (surrounding whitespace, an optional sign, decimal
    digits with single underscores between them).  [import_settings] then
    runs the
    logging configuration of lines 46-47 ([Logging.configure_logging]),
    whose exceptions also stop the import.

    The main block (lines 312-338) exits with status 1 without credentials
    and otherwise repeats: one call of [auto_reply_if_business], whose
    exceptions line 333 catches, then [time.sleep(POLL_INTERVAL_SECONDS)],
    which is outside that [try]: CPython 3.11 on Linux raises [ValueError]
    for a negative interval, [OverflowError] for one whose nanoseconds
    exceed the 64-bit [_PyTime_t], and [OSError] when the deadline
    monotonic clock + interval overflows it, and each ends the process.
    The loop never ends by itself; [main_loop] runs it for the rounds it
    is given, each round being the servers' behaviour in one cycle, the
    monotonic clock when the sleep starts and the mail that arrives during
    the sleep. *)

From S2P Require Import Prelude Patterns Extract Classifier BodyText Reply Orchestrator Loop Logging.
From Stdlib Require Import ZArith.

Open Scope Z_scope.

(** ** [int()] and [str()] on integers *)

Definition digit_value (c : ascii) : Z := Z.of_nat (nat_of_ascii c) - 48.

(** Decimal digits, with an underscore allowed only between two digits. *)
Fixpoint parse_digits (acc : Z) (s : text) : option Z :=
  match s with
  | [] => Some acc
  | c :: s' =>
      if is_digit c then parse_digits (10 * acc + digit_value c) s'
      else if bool_decide (c = "_"%char) then
        match s' with
        | d :: _ => if is_digit d then parse_digits acc s' else None
        | [] => None
        end
      else None
  end.

Definition parse_unsigned (s : text) : option Z :=
  match s with
  | c :: _ => if is_digit c then parse_digits 0 s else None
  | [] => None
  end.

(** [int(s)] for a [str]; [None] when it raises [ValueError]. *)
Definition py_int (s : text) : option Z :=
  let t := strip s in
  match t with
  | c :: d =>
      if bool_decide (c = "-"%char) then Z.opp <$> parse_unsigned d
      else if bool_decide (c = "+"%char) then parse_unsigned d
      else parse_unsigned t
  | [] => None
  end.

(** ** Lines 18-26 *)

(** [os.environ] after [load_dotenv()]. *)
Abbreviation environ := (list (text * text)).

(** [os.getenv(k)] *)
Fixpoint getenv (vars : environ) (k : text) : option text :=
  match vars with
  | [] => None
  | (k', v) :: vars' => if bool_decide (k' = k) then Some v else getenv vars' k
  end.

(** [int(os.getenv(k, default))] with an [int] default. *)
Definition getenv_int (vars : environ) (k : text) (dflt : Z) : option Z :=
  match getenv vars k with Some s => py_int s | None => Some dflt end.

Record settings := Settings {
  s_imap_host : text; s_imap_port : Z; s_smtp_host : text; s_smtp_port : Z;
  s_username : option text; s_password : option text; s_poll : Z;
  s_test_mode : bool; s_log_level : text
}.

(** Lines 18-26; [None] when an [int()] raises at import. *)
Definition load_settings (vars : environ) : option settings :=
  imap_port ← getenv_int vars (lit "IMAP_PORT") 993;
  smtp_port ← getenv_int vars (lit "SMTP_PORT") 465;
  poll ← getenv_int vars (lit "POLL_INTERVAL_SECONDS") 120;
  Some (Settings (default (lit "mail.asterionsolutions.com") (getenv vars (lit "IMAP_HOST"))) imap_port
          (default (lit "mail.asterionsolutions.com") (getenv vars (lit "SMTP_HOST"))) smtp_port
          (getenv vars (lit "OUTLOOK_USERNAME")) (getenv vars (lit "OUTLOOK_APP_PASSWORD")) poll
          (parse_test_mode (getenv vars (lit "TEST_MODE")))
          (default (lit "INFO") (getenv vars (lit "LOG_LEVEL")))).

(** Lines 18-47 at import: the settings, then [logging.basicConfig]
    ([Logging.configure_logging]); [None] when [int()] or [_checkLevel]
    raises, and the program never starts. *)
Definition import_settings (vars : environ) : option settings :=
  st ← load_settings vars;
  match configure_logging (s_log_level st) with inl _ => None | inr _ => Some st end.

(** What [auto_reply_if_business] sees of the settings (lines 323-331 and
    the [os.getenv("IMAP_HOST")] of line 276). *)
Definition to_config (vars : environ) (st : settings) : config :=
  Config (default [] (s_username st)) (getenv vars (lit "IMAP_HOST")) (s_test_mode st)
    REPLY_SUBJECT_PREFIX REPLY_BODY_TEMPLATE.

(** ** Lines 312-338 *)

(** Python truthiness of an optional [str]. *)
Definition truthy (o : option text) : bool := match o with Some (_ :: _) => true | _ => false end.

(** The largest [_PyTime_t] (a signed 64-bit count of nanoseconds). *)
Definition PyTime_MAX : Z := 2 ^ 63 - 1.

(** [time.sleep(secs)] on an [int] in CPython 3.11 on Linux returns,
    rather than raising, exactly when: [secs * 10^9] fits a [_PyTime_t]
    ([OverflowError] otherwise), [secs >= 0] ([ValueError] otherwise), and
    the deadline [clock + secs * 10^9] that [pysleep] computes from the
    monotonic clock [clock] (in ns) does not overflow; past [PyTime_MAX]
    the sum wraps to a negative time and [clock_nanosleep] fails with
    [EINVAL] ([OSError]). *)
Definition sleep_ok (clock secs : Z) : bool :=
  (secs * 1000000000 <=? PyTime_MAX) && (0 <=? secs) && (clock + secs * 1000000000 <=? PyTime_MAX).

(** A message arriving in the INBOX; the server never reuses a number. *)
Definition arrive (w : world) (nm : text * inbound) : world :=
  if bool_decide (nm.1 ∈ (w_msgs w).*1) then w
  else World (w_msgs w ++ [nm]) (delete nm.1 (w_flags w)) (w_outbox w).

Inductive main_result := Exited (code : Z) | Crashed (w : world) | Running (w : world).

(** One round of the loop: the servers' behaviour in the cycle, the
    reading of [CLOCK_MONOTONIC] (ns since boot) when [time.sleep]
    starts, and the mail that arrives during the sleep. *)
Record round := Round { r_env : env; r_clock : Z; r_arrivals : list (text * inbound) }.

Section MainLoop.
Context `{EmailUtils} (fss : bool).

(** Lines 320-336 for the given rounds. *)
Fixpoint main_loop (cfg : config) (poll : Z) (rounds : list round) (w : world) : main_result :=
  match rounds with
  | [] => Running w
  | r :: rest =>
      let w1 := (auto_reply_if_business fss cfg (r_env r) w).2 in
      if sleep_ok (r_clock r) poll then main_loop cfg poll rest (foldl arrive w1 (r_arrivals r))
      else Crashed w1
  end.

(** Lines 15-47 and 312-338: import, the credential check, the loop. *)
Definition main (vars : environ) (rounds : list round) (w : world)
  : main_result :=
  match import_settings vars with
  | None => Crashed w
  | Some st =>
      if truthy (s_username st) && truthy (s_password st)
      then main_loop (to_config vars st) (s_poll st) rounds w
      else Exited 1
  end.
End MainLoop.

(** ** The loop survives its sleeps exactly while the deadline fits *)

Lemma sleep_ok_iff clock secs :
  0 <= clock -> sleep_ok clock secs = true <-> 0 <= secs /\ clock + secs * 1000000000 <= PyTime_MAX.
Proof.
  intros Hc. unfold sleep_ok, PyTime_MAX. rewrite !andb_true_iff, !Z.leb_le. lia.
Qed.

Section MainFacts.
Context `{EmailUtils} (fss : bool) (cfg : config).

Lemma main_loop_runs poll rounds w :
  (exists w', main_loop fss cfg poll rounds w = Running w')
  <-> Forall (fun r => sleep_ok (r_clock r) poll = true) rounds.
Proof.
  revert w. induction rounds as [|r rounds IH]; intros w; simpl.
  - split; [constructor|by eexists].
  - rewrite Forall_cons. destruct (sleep_ok (r_clock r) poll).
    + rewrite IH. tauto.
    + split; [intros [? ?]; done|intros [? _]; done].
Qed.

Lemma arrive_rtc w nm : rtc (step fss cfg) w (arrive w nm).
Proof.
  unfold arrive. case_bool_decide as Hin; [reflexivity|].
  apply rtc_once. destruct nm as [n m]. by apply step_arrive.
Qed.

Lemma arrive_all_rtc w arr : rtc (step fss cfg) w (foldl arrive w arr).
Proof.
  revert w. induction arr as [|nm arr IH]; intros w; simpl; [reflexivity|].
  etrans; [apply arrive_rtc|apply IH].
Qed.

(** Every state of the main loop, running or crashed, is a state of the
    polling relation [step]. *)
Lemma main_loop_rtc poll rounds w :
  match main_loop fss cfg poll rounds w with
  | Running w' | Crashed w' => rtc (step fss cfg) w w'
  | Exited _ => False
  end.
Proof.
  revert w. induction rounds as [|r rounds IH]; intros w; simpl; [reflexivity|].
  assert (Hc : rtc (step fss cfg) w (auto_reply_if_business fss cfg (r_env r) w).2)
    by apply rtc_once, step_cycle.
  destruct (sleep_ok (r_clock r) poll); [|done].
  specialize (IH (foldl arrive (auto_reply_if_business fss cfg (r_env r) w).2 (r_arrivals r))).
  destruct (main_loop _ _ _ _ _); try done; (etrans; [exact Hc|]; etrans; [apply arrive_all_rtc|exact IH]).
Qed.
End MainFacts.

Section MainTheorems.
Context `{EmailUtils} (fss : bool).

(** C12: Bounds of [POLL_INTERVAL_SECONDS] (lines 24 and 336), CPython
    3.11 on Linux: with credentials set, the main loop survives every round
    it is given exactly when, at each sleep, the interval is non-negative
    and the deadline [monotonic clock + interval * 10^9] fits a signed
    64-bit count of nanoseconds.  Otherwise [time.sleep] raises
    ([ValueError], [OverflowError] or [OSError]) outside the [try] of
    lines 322-334 and the process dies; line 24 checks no range. *)
Theorem main_sleep_bounds vars st rounds w :
  import_settings vars = Some st -> truthy (s_username st) = true -> truthy (s_password st) = true ->
  Forall (fun r => 0 <= r_clock r) rounds ->
  (exists w', main fss vars rounds w = Running w')
  <-> Forall (fun r => 0 <= s_poll st /\ r_clock r + s_poll st * 1000000000 <= PyTime_MAX) rounds.
Proof.
  intros Hl Hu Hp Hc. unfold main. rewrite Hl, Hu, Hp. cbn [andb].
  rewrite main_loop_runs, !Forall_forall. rewrite Forall_forall in Hc.
  split; intros Hall r Hr; apply (sleep_ok_iff _ _ (Hc r Hr)); auto.
Qed.

(** C11: The program refines the polling relation: whatever the
    environment variables, the servers and the mail that arrives, the main
    block exits (with status 1) exactly when a credential is missing
    (line 313); otherwise every state it reaches, running or after a
    crash, is reachable by [step] under the configuration it loaded, so
    every invariant proved of [step] holds of the program. *)
Theorem main_refines_step vars st rounds w :
  import_settings vars = Some st ->
  match main fss vars rounds w with
  | Running w' | Crashed w' =>
      truthy (s_username st) && truthy (s_password st) = true
      /\ rtc (step fss (to_config vars st)) w w'
  | Exited code => code = 1 /\ truthy (s_username st) && truthy (s_password st) = false
  end.
Proof.
  intros Hl. unfold main. rewrite Hl.
  destruct (truthy (s_username st) && truthy (s_password st)) eqn:Hc; [|done].
  pose proof (main_loop_rtc fss (to_config vars st) (s_poll st) rounds w) as Hr.
  by destruct (main_loop _ _ _ _ _).
Qed.
End MainTheorems.

(** The environment and a round of the concrete runs (the monotonic clock
    five hours after boot). *)
Definition demo_vars (poll : text) : environ :=
  [(lit "OUTLOOK_USERNAME", lit "support@asterion.example");
   (lit "OUTLOOK_APP_PASSWORD", lit "secret"); (lit "POLL_INTERVAL_SECONDS", poll)].

Definition demo_round (arrivals : list (text * inbound)) : round :=
  Round (demo_env StoreOk SmtpOk) 18000000000000 arrivals.

Definition demo_settings (poll : Z) : settings :=
  Settings (lit "mail.asterionsolutions.com") 993 (lit "mail.asterionsolutions.com") 465
    (Some (lit "support@asterion.example")) (Some (lit "secret")) poll false (lit "INFO").

Lemma main_sleep_bounds_witness :
  (exists w', main true (demo_vars (lit "60")) [demo_round []]
                 (demo_world [(lit "1", demo_msg [])]) = Running w')
  <-> Forall (fun r => 0 <= 60 /\ r_clock r + 60 * 1000000000 <= PyTime_MAX) [demo_round []].
Proof.
  apply (main_sleep_bounds true (demo_vars (lit "60")) (demo_settings 60)); try reflexivity.
  repeat constructor. unfold demo_round. simpl. lia.
Defined.

Lemma main_refines_step_witness :
  match main true (demo_vars (lit "60")) [demo_round [(lit "2", demo_msg [])]]
          (demo_world [(lit "1", demo_msg [])]) with
  | Running w' | Crashed w' =>
      truthy (Some (lit "support@asterion.example")) && truthy (Some (lit "secret")) = true
      /\ rtc (step true (to_config (demo_vars (lit "60")) (demo_settings 60)))
               (demo_world [(lit "1", demo_msg [])]) w'
  | Exited code =>
      code = 1 /\ truthy (Some (lit "support@asterion.example")) && truthy (Some (lit "secret")) = false
  end.
Proof.
  exact (main_refines_step true (demo_vars (lit "60")) (demo_settings 60)
           [demo_round [(lit "2", demo_msg [])]] (demo_world [(lit "1", demo_msg [])]) eq_refl).
Defined.
